(** * Slack Emoji Gen: a shallow embedding of [src/chatgpt/app.js]

    The development follows the source file from top to bottom:
    strings and values of the host language, the sanitising helpers
    ([clampInt], [clampFloat], [hexToRgb], [normalizeHex]), the state and
    its two producers ([loadState], [readControlsIntoState]), the export
    file name, the rasteriser as a trace of canvas calls, and the two
    asynchronous gates (frame batching and font loading) as a transition
    system over an explicit world. *)

From Stdlib Require Import List ZArith NArith QArith Qround Qpower.
From Stdlib Require Import String Ascii Bool Lia Morphisms.
Import ListNotations.

Set Warnings "-register-all".

(** ** Strings

    An ECMAScript string is a sequence of UTF-16 code units; regular
    expressions without the [u] flag, [slice] and [length] all work on code
    units, so that is the representation used here. *)

Definition jsstring := list N.

(** ASCII literals of the source, written as ordinary string literals. *)
Definition js (s : string) : jsstring :=
  map N_of_ascii (list_ascii_of_string s).

Fixpoint str_eqb (a b : jsstring) : bool :=
  match a, b with
  | [], [] => true
  | x :: a', y :: b' => (x =? y)%N && str_eqb a' b'
  | _, _ => false
  end.

Fixpoint starts_with (p s : jsstring) : bool :=
  match p, s with
  | [], _ => true
  | x :: p', y :: s' => (x =? y)%N && starts_with p' s'
  | _ :: _, [] => false
  end.

Fixpoint join (sep : jsstring) (l : list jsstring) : jsstring :=
  match l with
  | [] => []
  | [x] => x
  | x :: rest => x ++ sep ++ join sep rest
  end.

Section CodeUnits.
Local Open Scope N_scope.

(** WhiteSpace and LineTerminator of ECMA-262: what [\s] matches and what
    [trim], [parseInt] and [parseFloat] strip. *)
Definition isWhiteSpace (c : N) : bool :=
  ((9 <=? c) && (c <=? 13)) || (c =? 32) || (c =? 0xA0) || (c =? 0x1680)
  || ((0x2000 <=? c) && (c <=? 0x200A)) || (c =? 0x2028) || (c =? 0x2029)
  || (c =? 0x202F) || (c =? 0x205F) || (c =? 0x3000) || (c =? 0xFEFF).

Definition isDigit (c : N) : bool := (48 <=? c) && (c <=? 57).
Definition isLower (c : N) : bool := (97 <=? c) && (c <=? 122).
Definition isUpper (c : N) : bool := (65 <=? c) && (c <=? 90).

(** [[0-9a-f]] under the [i] flag. *)
Definition isHexDigit (c : N) : bool :=
  isDigit c || ((97 <=? c) && (c <=? 102)) || ((65 <=? c) && (c <=? 70)).

Definition hexDigitValue (c : N) : N :=
  if isDigit c then c - 48
  else if isLower c then c - 87
  else c - 55.

(** [toLowerCase] on the ASCII range. The source applies it to colour
    strings only, which are ASCII once they passed [normalizeHex]. *)
Definition lowerUnit (c : N) : N := if isUpper c then c + 32 else c.
End CodeUnits.

Definition toLowerCase (s : jsstring) : jsstring := map lowerUnit s.

Fixpoint trimStart (s : jsstring) : jsstring :=
  match s with
  | c :: s' => if isWhiteSpace c then trimStart s' else s
  | [] => []
  end.

Definition trimEnd (s : jsstring) : jsstring := rev (trimStart (rev s)).

Definition trim (s : jsstring) : jsstring := trimEnd (trimStart s).

(** Longest prefix of units satisfying [p], and the rest. *)
Fixpoint span (p : N -> bool) (s : jsstring) : jsstring * jsstring :=
  match s with
  | c :: s' =>
      if p c then let (a, b) := span p s' in (c :: a, b) else ([], s)
  | [] => ([], [])
  end.

(** ** Values

    The values that reach the program from outside are the results of
    [JSON.parse] and the [value] strings of form controls. A Number is
    represented by the string [Number::toString] gives for it, which is
    all the program ever asks of a Number it did not compute itself
    (every use goes through [String(v)] or [Boolean(v)]). *)

Inductive value : Type :=
| VNull
| VBool (b : bool)
| VNum (repr : jsstring)
| VStr (s : jsstring)
| VArr (items : list value)
| VObj (props : list (jsstring * value)).

(** [String(v)], when it returns a string. For an object parsed from JSON
    it does so unless the object has an own [toString] property (never a
    function there), in which case it throws: that is [stringThrows]
    below, and the code that can meet such an object ([loadState],
    [renderExportCanvas], [safeFileNameFromText] and the [Init] block) is
    modelled with the throw. *)
Fixpoint ToString (v : value) : jsstring :=
  match v with
  | VNull => js "null"
  | VBool b => if b then js "true" else js "false"
  | VNum r => r
  | VStr s => s
  | VArr l =>
      join (js ",")
        (map (fun x => match x with VNull => [] | _ => ToString x end) l)
  | VObj _ => js "[object Object]"
  end.

(** [Boolean(v)]. *)
Definition ToBoolean (v : value) : bool :=
  match v with
  | VNull => false
  | VBool b => b
  | VNum r => negb (str_eqb r (js "0") || str_eqb r (js "NaN"))
  | VStr s => match s with [] => false | _ => true end
  | VArr _ | VObj _ => true
  end.

(** [a === b] where [b] is a string literal. *)
Definition strict_eq_str (a : value) (b : jsstring) : bool :=
  match a with
  | VStr s => str_eqb s b
  | _ => false
  end.

(** ** Numbers

    Integers are in [Z]: what [parseInt] returns is the binary64 Number
    nearest to the digits read ([roundToDouble]), and the integer bounds
    and results of the clamps are Numbers as they are. Fractions are in
    [Q]: [parseFloat] and the fractional fields of the state hold the
    exact rational that the decimal text denotes, which stands for the
    Number nearest to it; the rounding is made explicit where the program
    computes with them (see the section on binary64 arithmetic). It is
    monotone, so clamping a decimal and rounding the result gives the
    Number that clamping the rounded value between the rounded bounds
    gives. *)

Definition digitsValue (ds : jsstring) : Z :=
  fold_left (fun acc c => (acc * 10 + Z.of_N (c - 48))%Z) ds 0%Z.

(** The binary64 Number nearest to the integer [z], ties to even. A result
    of magnitude 2^1024 or more stands for the infinity the host gives,
    which compares and clamps as that integer does. *)
Definition roundToDouble (z : Z) : Z :=
  let a := Z.abs z in
  if (a <? 2 ^ 53)%Z then z
  else
    let e := (Z.log2 a - 52)%Z in
    let q := (a / 2 ^ e)%Z in
    let r := (a mod 2 ^ e)%Z in
    let half := (2 ^ (e - 1))%Z in
    let q' :=
      if (r <? half)%Z then q
      else if (half <? r)%Z then (q + 1)%Z
      else if Z.even q then q else (q + 1)%Z in
    (Z.sgn z * (q' * 2 ^ e))%Z.

(** [Number.parseInt(s, 10)]; [None] is NaN. *)
Definition parseInt (s : jsstring) : option Z :=
  let t := trimStart s in
  let (neg, body) :=
    match t with
    | 45%N :: r => (true, r)
    | 43%N :: r => (false, r)
    | _ => (false, t)
    end in
  match fst (span isDigit body) with
  | [] => None
  | ds => Some (roundToDouble (if neg then (- digitsValue ds)%Z else digitsValue ds))
  end.

(** [clampInt(v, min, max)]. *)
Definition clampInt (v : value) (min max : Z) : Z :=
  match parseInt (ToString v) with
  | None => min
  | Some n => Z.max min (Z.min max n)
  end.

Inductive number : Type :=
| NaN
| Infinity (negative : bool)
| Finite (q : Q).

Definition pow10 (e : Z) : Q := Qpower (10 # 1) e.

(** The exponent part [e[+-]digits] at the head of [s], 0 when absent or
    incomplete. *)
Definition exponentPart (s : jsstring) : Z :=
  match s with
  | c :: r =>
      if ((c =? 101) || (c =? 69))%N then
        let (neg, body) :=
          match r with
          | 45%N :: r' => (true, r')
          | 43%N :: r' => (false, r')
          | _ => (false, r)
          end in
        match fst (span isDigit body) with
        | [] => 0%Z
        | ds => if neg then (- digitsValue ds)%Z else digitsValue ds
        end
      else 0%Z
  | [] => 0%Z
  end.

(** [Number.parseFloat(s)]: the longest prefix that is a decimal literal. *)
Definition parseFloat (s : jsstring) : number :=
  let t := trimStart s in
  let (neg, body) :=
    match t with
    | 45%N :: r => (true, r)
    | 43%N :: r => (false, r)
    | _ => (false, t)
    end in
  if starts_with (js "Infinity") body then Infinity neg
  else
    let (ints, r1) := span isDigit body in
    let (fracs, r2) :=
      match r1 with
      | 46%N :: r => span isDigit r
      | _ => ([], r1)
      end in
    match ints ++ fracs with
    | [] => NaN
    | ds =>
        let m := inject_Z (digitsValue ds)
                 * pow10 (exponentPart r2 - Z.of_nat (List.length fracs)) in
        Finite (if neg then - m else m)
    end.

(** [Math.min] and [Math.max] on two finite numbers. *)
Definition Math_min (a b : Q) : Q := if Qle_bool a b then a else b.
Definition Math_max (a b : Q) : Q := if Qle_bool a b then b else a.

(** [clampFloat(v, min, max)]. The infinite cases are
    [Math.max(min, Math.min(max, n))] evaluated at [n = +-Infinity]. *)
Definition clampFloat (v : value) (min max : Q) : Q :=
  match parseFloat (ToString v) with
  | NaN => min
  | Infinity false => Math_max min max
  | Infinity true => min
  | Finite n => Math_max min (Math_min max n)
  end.

(** ** Binary64 arithmetic

    A fractional field of the state ([lineHeight], [bgAlpha]) is kept
    above as the exact rational its decimal text denotes; the Number the
    program holds is the binary64 value nearest to it, [round64] of it
    (clamping commutes with that rounding, which is monotone, and the
    bounds are literals). Every arithmetic operation of the source on
    Numbers is the exact operation followed by [round64]: round to
    nearest, ties to even, 53 significant bits, least exponent -1074.
    Overflow to an infinity (magnitudes of 2^1024 and more) is not
    modelled: the layout works on values far below it. *)

(** The exponent of the leading bit of [a > 0]. *)
Definition floorLog2 (a : Q) : Z :=
  if Qle_bool 1 a then Z.log2 (Qfloor a)
  else (- Z.log2_up (Qceiling (/ a)))%Z.

(** The integer nearest to [a >= 0], the even one of two equally near. *)
Definition roundHalfEven (a : Q) : Z :=
  let f := Qfloor a in
  match Qcompare (a - inject_Z f) (1 # 2) with
  | Lt => f
  | Gt => (f + 1)%Z
  | Eq => if Z.even f then f else (f + 1)%Z
  end.

Definition roundMagnitude (a : Q) : Q :=
  let e := Z.max (floorLog2 a - 52) (-1074) in
  (inject_Z (roundHalfEven (a / 2 ^ e)) * 2 ^ e)%Q.

Definition round64 (q : Q) : Q :=
  match Qcompare q 0 with
  | Eq => 0
  | Gt => roundMagnitude q
  | Lt => - roundMagnitude (- q)
  end.

(** The operators [*], [+], [-] and [/] of the source on Numbers. *)
Definition mul64 (x y : Q) : Q := round64 (x * y).
Definition add64 (x y : Q) : Q := round64 (x + y).
Definition sub64 (x y : Q) : Q := round64 (x - y).
Definition div64 (x y : Q) : Q := round64 (x / y).

(** [hexToRgb(hex)]. *)
Record rgb : Type := { r : Z; g : Z; b : Z }.

Definition hex6 (m : jsstring) : bool :=
  (List.length m =? 6)%nat && forallb isHexDigit m.

Definition parseHex (m : jsstring) : Z :=
  fold_left (fun acc c => (acc * 16 + Z.of_N (hexDigitValue c))%Z) m 0%Z.

(** The capture group of [/^#?([0-9a-f]{6})$/i]. *)
Definition match_hex_optional_hash (s : jsstring) : option jsstring :=
  match s with
  | c :: m =>
      if (c =? 35)%N then (if hex6 m then Some m else None)
      else if hex6 s then Some s else None
  | [] => None
  end.

Definition hexToRgb (hex : value) : option rgb :=
  match match_hex_optional_hash (trim (ToString hex)) with
  | None => None
  | Some m =>
      let n := parseHex m in
      Some {| r := Z.land (Z.shiftr n 16) 255;
              g := Z.land (Z.shiftr n 8) 255;
              b := Z.land n 255 |}
  end.

(** [normalizeNewlines(s)]: [/\r\n?/g] becomes a line feed. *)
Fixpoint replaceCRLF (s : jsstring) : jsstring :=
  match s with
  | 13%N :: 10%N :: s' => 10%N :: replaceCRLF s'
  | 13%N :: s' => 10%N :: replaceCRLF s'
  | c :: s' => c :: replaceCRLF s'
  | [] => []
  end.

Definition normalizeNewlines (s : value) : jsstring := replaceCRLF (ToString s).

(** [s.split("\n")]: never empty. *)
Fixpoint splitLines (s : jsstring) : list jsstring :=
  match s with
  | [] => [[]]
  | c :: s' =>
      if (c =? 10)%N then [] :: splitLines s'
      else match splitLines s' with
           | l :: ls => (c :: l) :: ls
           | [] => [[c]]
           end
  end.

(** [normalizeHex(v)]: the match of [/^#([0-9a-f]{6})$/i], rebuilt as
    [#] followed by the capture group. *)
Definition normalizeHex (v : value) : option jsstring :=
  match trim (ToString v) with
  | c :: m => if (c =? 35)%N && hex6 m then Some (35%N :: m) else None
  | [] => None
  end.

(** ** The state *)

Record State : Type := {
  text : value;
  fontFamily : value;
  fontWeight : value;
  fontSize : Z;
  lineHeight : Q;
  textColor : value;
  bgColor : value;
  bgTransparent : bool;
  bgAlpha : Q;
  offsetX : Z;
  offsetY : Z;
  align : value;
  padding : Z
}.

Definition EXPORT_SIZE : Z := 128.

(** The default text is two CJK ideographs, a fullwidth exclamation mark
    (U+FF01), a line feed and [Hello :)]. *)
Definition DEFAULT_text : jsstring :=
  [26089; 23433; 65281; 10]%N ++ js "Hello :)".

Definition DEFAULT_STATE : State := {|
  text := VStr DEFAULT_text;
  fontFamily := VStr (js "Noto Sans TC");
  fontWeight := VStr (js "400");
  fontSize := 56;
  lineHeight := 1.15;
  textColor := VStr (js "#111827");
  bgColor := VStr (js "#ffffff");
  bgTransparent := true;
  bgAlpha := 1;
  offsetX := 0;
  offsetY := 0;
  align := VStr (js "center");
  padding := 0
|}.

(** Field assignment [state.f = v]. *)
Definition set_text v (s : State) :=
  {| text := v; fontFamily := fontFamily s; fontWeight := fontWeight s;
     fontSize := fontSize s; lineHeight := lineHeight s;
     textColor := textColor s; bgColor := bgColor s;
     bgTransparent := bgTransparent s; bgAlpha := bgAlpha s;
     offsetX := offsetX s; offsetY := offsetY s; align := align s;
     padding := padding s |}.
Definition set_fontFamily v (s : State) :=
  {| text := text s; fontFamily := v; fontWeight := fontWeight s;
     fontSize := fontSize s; lineHeight := lineHeight s;
     textColor := textColor s; bgColor := bgColor s;
     bgTransparent := bgTransparent s; bgAlpha := bgAlpha s;
     offsetX := offsetX s; offsetY := offsetY s; align := align s;
     padding := padding s |}.
Definition set_fontWeight v (s : State) :=
  {| text := text s; fontFamily := fontFamily s; fontWeight := v;
     fontSize := fontSize s; lineHeight := lineHeight s;
     textColor := textColor s; bgColor := bgColor s;
     bgTransparent := bgTransparent s; bgAlpha := bgAlpha s;
     offsetX := offsetX s; offsetY := offsetY s; align := align s;
     padding := padding s |}.
Definition set_fontSize v (s : State) :=
  {| text := text s; fontFamily := fontFamily s; fontWeight := fontWeight s;
     fontSize := v; lineHeight := lineHeight s; textColor := textColor s;
     bgColor := bgColor s; bgTransparent := bgTransparent s;
     bgAlpha := bgAlpha s; offsetX := offsetX s; offsetY := offsetY s;
     align := align s; padding := padding s |}.
Definition set_lineHeight v (s : State) :=
  {| text := text s; fontFamily := fontFamily s; fontWeight := fontWeight s;
     fontSize := fontSize s; lineHeight := v; textColor := textColor s;
     bgColor := bgColor s; bgTransparent := bgTransparent s;
     bgAlpha := bgAlpha s; offsetX := offsetX s; offsetY := offsetY s;
     align := align s; padding := padding s |}.
Definition set_textColor v (s : State) :=
  {| text := text s; fontFamily := fontFamily s; fontWeight := fontWeight s;
     fontSize := fontSize s; lineHeight := lineHeight s; textColor := v;
     bgColor := bgColor s; bgTransparent := bgTransparent s;
     bgAlpha := bgAlpha s; offsetX := offsetX s; offsetY := offsetY s;
     align := align s; padding := padding s |}.
Definition set_bgColor v (s : State) :=
  {| text := text s; fontFamily := fontFamily s; fontWeight := fontWeight s;
     fontSize := fontSize s; lineHeight := lineHeight s;
     textColor := textColor s; bgColor := v;
     bgTransparent := bgTransparent s; bgAlpha := bgAlpha s;
     offsetX := offsetX s; offsetY := offsetY s; align := align s;
     padding := padding s |}.
Definition set_bgTransparent v (s : State) :=
  {| text := text s; fontFamily := fontFamily s; fontWeight := fontWeight s;
     fontSize := fontSize s; lineHeight := lineHeight s;
     textColor := textColor s; bgColor := bgColor s; bgTransparent := v;
     bgAlpha := bgAlpha s; offsetX := offsetX s; offsetY := offsetY s;
     align := align s; padding := padding s |}.
Definition set_bgAlpha v (s : State) :=
  {| text := text s; fontFamily := fontFamily s; fontWeight := fontWeight s;
     fontSize := fontSize s; lineHeight := lineHeight s;
     textColor := textColor s; bgColor := bgColor s;
     bgTransparent := bgTransparent s; bgAlpha := v; offsetX := offsetX s;
     offsetY := offsetY s; align := align s; padding := padding s |}.
Definition set_offsetX v (s : State) :=
  {| text := text s; fontFamily := fontFamily s; fontWeight := fontWeight s;
     fontSize := fontSize s; lineHeight := lineHeight s;
     textColor := textColor s; bgColor := bgColor s;
     bgTransparent := bgTransparent s; bgAlpha := bgAlpha s; offsetX := v;
     offsetY := offsetY s; align := align s; padding := padding s |}.
Definition set_offsetY v (s : State) :=
  {| text := text s; fontFamily := fontFamily s; fontWeight := fontWeight s;
     fontSize := fontSize s; lineHeight := lineHeight s;
     textColor := textColor s; bgColor := bgColor s;
     bgTransparent := bgTransparent s; bgAlpha := bgAlpha s;
     offsetX := offsetX s; offsetY := v; align := align s;
     padding := padding s |}.
Definition set_align v (s : State) :=
  {| text := text s; fontFamily := fontFamily s; fontWeight := fontWeight s;
     fontSize := fontSize s; lineHeight := lineHeight s;
     textColor := textColor s; bgColor := bgColor s;
     bgTransparent := bgTransparent s; bgAlpha := bgAlpha s;
     offsetX := offsetX s; offsetY := offsetY s; align := v;
     padding := padding s |}.
Definition set_padding v (s : State) :=
  {| text := text s; fontFamily := fontFamily s; fontWeight := fontWeight s;
     fontSize := fontSize s; lineHeight := lineHeight s;
     textColor := textColor s; bgColor := bgColor s;
     bgTransparent := bgTransparent s; bgAlpha := bgAlpha s;
     offsetX := offsetX s; offsetY := offsetY s; align := align s;
     padding := v |}.

(** *** Loading the persisted state

    [loadState] sees the preference store through
    [localStorage.getItem(STORAGE_KEY)] and [JSON.parse]; the three ways
    this can go are the input of the model. *)

Inductive persisted : Type :=
| Absent               (* no item, the empty string, or the store throws *)
| Malformed            (* [JSON.parse] throws *)
| Parsed (v : value).  (* the parsed value *)

(** An object is the list of its own properties, each key once; lookup
    takes the first entry of a key. *)
Fixpoint assoc (k : jsstring) (props : list (jsstring * value)) : option value :=
  match props with
  | [] => None
  | (k', v) :: rest => if str_eqb k k' then Some v else assoc k rest
  end.

(** [parsed.k] for a non-null [parsed]; [None] is [undefined]. Arrays,
    strings, numbers and booleans have none of the properties asked for. *)
Definition prop (parsed : value) (k : string) : option value :=
  match parsed with
  | VObj props => assoc (js k) props
  | _ => None
  end.

(** [x ?? d]. *)
Definition nullish (x : option value) (d : value) : value :=
  match x with
  | None | Some VNull => d
  | Some v => v
  end.

(** The spread [{...DEFAULT_STATE, ...parsed}] at field [k]: the own
    property of [parsed] when there is one, whatever its value. *)
Definition spread (parsed : value) (k : string) (d : value) : value :=
  match prop parsed k with
  | Some v => v
  | None => d
  end.

(** Whether [String(v)] throws a TypeError: [v] is an object with an own
    [toString] property, or an array with such an element ([join] converts
    every element but [null]). *)
Fixpoint stringThrows (v : value) : bool :=
  match v with
  | VArr l => existsb (fun x => stringThrows x) l
  | VObj props =>
      match assoc (js "toString") props with Some _ => true | None => false end
  | _ => false
  end.

(** Whether one of the six [clampInt]/[clampFloat] calls of [loadState]
    throws in its [String(v)]. *)
Definition loadThrows (parsed : value) : bool :=
  stringThrows (nullish (prop parsed "fontSize") (VNum (js "56")))
  || stringThrows (nullish (prop parsed "lineHeight") (VNum (js "1.15")))
  || stringThrows (nullish (prop parsed "bgAlpha") (VNum (js "1")))
  || stringThrows (nullish (prop parsed "offsetX") (VNum (js "0")))
  || stringThrows (nullish (prop parsed "offsetY") (VNum (js "0")))
  || stringThrows (nullish (prop parsed "padding") (VNum (js "0"))).

Definition loadState (p : persisted) : State :=
  match p with
  | Absent => DEFAULT_STATE
  | Malformed => DEFAULT_STATE
  | Parsed VNull => DEFAULT_STATE   (* [parsed.fontSize] throws, caught *)
  | Parsed parsed =>
    if loadThrows parsed then DEFAULT_STATE   (* thrown in a clamp, caught *)
    else {|
      text := spread parsed "text" (text DEFAULT_STATE);
      fontFamily := spread parsed "fontFamily" (fontFamily DEFAULT_STATE);
      fontWeight := spread parsed "fontWeight" (fontWeight DEFAULT_STATE);
      textColor := spread parsed "textColor" (textColor DEFAULT_STATE);
      bgColor := spread parsed "bgColor" (bgColor DEFAULT_STATE);
      align := spread parsed "align" (align DEFAULT_STATE);
      (* sanitize types *)
      fontSize := clampInt (nullish (prop parsed "fontSize") (VNum (js "56"))) 8 128;
      lineHeight := clampFloat (nullish (prop parsed "lineHeight") (VNum (js "1.15"))) 0.8 1.8;
      bgAlpha := clampFloat (nullish (prop parsed "bgAlpha") (VNum (js "1"))) 0 1;
      offsetX := clampInt (nullish (prop parsed "offsetX") (VNum (js "0"))) (-64) 64;
      offsetY := clampInt (nullish (prop parsed "offsetY") (VNum (js "0"))) (-64) 64;
      padding := clampInt (nullish (prop parsed "padding") (VNum (js "0"))) 0 24;
      bgTransparent := ToBoolean (nullish (prop parsed "bgTransparent") (VBool true))
    |}
  end.

(** *** Reading the controls

    The form controls the program reads, as holders of their [value]
    (of [checked] for the checkbox): a control gives back the string it
    holds, and what the host may do to a string assigned to a control is
    outside the program. The output elements that only echo a number are
    left out. *)

Record Controls : Type := {
  textInput : jsstring;
  fontSelect : jsstring;
  weightSelect : jsstring;
  sizeRange : jsstring;
  lineRange : jsstring;
  textColor_el : jsstring;
  textColorHex : jsstring;
  bgColor_el : jsstring;
  bgColorHex : jsstring;
  bgTransparent_el : bool;
  bgAlphaRange : jsstring;
  offXRange : jsstring;
  offYRange : jsstring;
  alignSelect : jsstring;
  padRange : jsstring
}.

Definition set_textColor_els (hex col : jsstring) (d : Controls) : Controls := {|
  textInput := textInput d; fontSelect := fontSelect d;
  weightSelect := weightSelect d; sizeRange := sizeRange d;
  lineRange := lineRange d; textColor_el := col; textColorHex := hex;
  bgColor_el := bgColor_el d; bgColorHex := bgColorHex d;
  bgTransparent_el := bgTransparent_el d; bgAlphaRange := bgAlphaRange d;
  offXRange := offXRange d; offYRange := offYRange d;
  alignSelect := alignSelect d; padRange := padRange d |}.

Definition set_bgColor_els (hex col : jsstring) (d : Controls) : Controls := {|
  textInput := textInput d; fontSelect := fontSelect d;
  weightSelect := weightSelect d; sizeRange := sizeRange d;
  lineRange := lineRange d; textColor_el := textColor_el d;
  textColorHex := textColorHex d; bgColor_el := col; bgColorHex := hex;
  bgTransparent_el := bgTransparent_el d; bgAlphaRange := bgAlphaRange d;
  offXRange := offXRange d; offYRange := offYRange d;
  alignSelect := alignSelect d; padRange := padRange d |}.

(** [normalizeHex(v) ?? fallback] where the fallback is a colour of
    [DEFAULT_STATE]. *)
Definition hex_or (v : jsstring) (fallback : value) : value :=
  match normalizeHex (VStr v) with
  | Some h => VStr h
  | None => fallback
  end.

(** [readControlsIntoState()]: every field of the state is assigned from
    the controls; the two hex text boxes are rewritten with the lowercase
    form of the stored colour. Persisting the result ([saveState]) does not
    change the state and never fails, and is not part of the model. *)
Definition readControlsIntoState (d : Controls) (state : State) : State * Controls :=
  let state := set_text (VStr (normalizeNewlines (VStr (textInput d)))) state in
  let state := set_fontFamily (VStr (fontSelect d)) state in
  let state := set_fontWeight (VStr (weightSelect d)) state in
  let state := set_fontSize (clampInt (VStr (sizeRange d)) 8 128) state in
  let state := set_lineHeight (clampFloat (VStr (lineRange d)) 0.8 1.8) state in
  let state := set_textColor (hex_or (textColor_el d) (textColor DEFAULT_STATE)) state in
  let d := set_textColor_els (toLowerCase (ToString (textColor state))) (textColor_el d) d in
  let state := set_bgColor (hex_or (bgColor_el d) (bgColor DEFAULT_STATE)) state in
  let d := set_bgColor_els (toLowerCase (ToString (bgColor state))) (bgColor_el d) d in
  let state := set_bgTransparent (bgTransparent_el d) state in
  let alphaPct := clampInt (VStr (bgAlphaRange d)) 0 100 in
  let state := set_bgAlpha (inject_Z alphaPct / 100) state in
  let state := set_offsetX (clampInt (VStr (offXRange d)) (-64) 64) state in
  let state := set_offsetY (clampInt (VStr (offYRange d)) (-64) 64) state in
  let state := set_align (VStr (alignSelect d)) state in
  let state := set_padding (clampInt (VStr (padRange d)) 0 24) state in
  (state, d).

(** [setColorFromHexInput(hexInputEl, colorInputEl, fallback)], as the new
    values of the hex text box and of the colour control. *)
Definition setColorFromHexInput (hexInput : jsstring) (fallback : value)
  : jsstring * jsstring :=
  let hex := ToString (hex_or hexInput fallback) in
  (toLowerCase hex, hex).

(** The [input] listener of the text-colour hex box: the colour control is
    set from the box, then the controls are read into the state. *)
Definition onTextColorHexInput (d : Controls) (state : State) : State * Controls :=
  let (h, c) := setColorFromHexInput (textColorHex d) (textColor DEFAULT_STATE) in
  readControlsIntoState (set_textColor_els h c d) state.

Definition onBgColorHexInput (d : Controls) (state : State) : State * Controls :=
  let (h, c) := setColorFromHexInput (bgColorHex d) (bgColor DEFAULT_STATE) in
  readControlsIntoState (set_bgColor_els h c d) state.

(** ** The export file name *)

(** [s.replace(/p+/g, "-")]: every maximal run of units satisfying [p]
    becomes one hyphen. [inRun] tells that the previous unit was in a run. *)
Fixpoint runsToHyphen (p : N -> bool) (inRun : bool) (s : jsstring) : jsstring :=
  match s with
  | [] => []
  | c :: s' =>
      if p c then
        if inRun then runsToHyphen p true s'
        else 45%N :: runsToHyphen p true s'
      else c :: runsToHyphen p false s'
  end.

Definition isHyphen (c : N) : bool := (c =? 45)%N.

(** The class [a-z0-9_-] extended with U+00A0..U+FFFF, under the [i] flag:
    what the second [replace] of [safeFileNameFromText] keeps. *)
Definition inKeptClass (c : N) : bool :=
  isLower c || isUpper c || isDigit c || (c =? 95)%N || (c =? 45)%N
  || ((0xA0 <=? c)%N && (c <=? 0xFFFF)%N).

Definition dropLeadingHyphen (s : jsstring) : jsstring :=
  match s with
  | c :: s' => if isHyphen c then s' else s
  | [] => []
  end.

(** [s.replace(/^-|-$/g, "")]. *)
Definition stripEdgeHyphens (s : jsstring) : jsstring :=
  rev (dropLeadingHyphen (rev (dropLeadingHyphen s))).

Definition firstLine (text : value) : jsstring :=
  trim (hd [] (splitLines (normalizeNewlines text))).

Definition fileBase (first : jsstring) : jsstring :=
  let base := filter inKeptClass (runsToHyphen isWhiteSpace false first) in
  firstn 32 (stripEdgeHyphens (runsToHyphen isHyphen false base)).

Definition safeFileNameFromText (text : value) : jsstring :=
  let first := firstLine text in
  match first with
  | [] => js "slack-emoji.png"
  | _ =>
      let base := fileBase first in
      let base := match base with [] => js "slack-emoji" | _ => base end in
      base ++ js ".png"
  end.


(** ** The rasteriser

    [renderExportCanvas] is a straight sequence of calls on the 2D context
    of the export canvas; the model returns that sequence. Colours and the
    font shorthand are kept structured instead of printed into CSS text. *)

Inductive canvas_op : Type :=
| clearRect (x y w h : Z)
| fillStyle_rgba (red green blue : Z) (alpha : Q)
| fillRect (x y w h : Z)
| save
| fillStyle (colour : value)
| textRendering (v : jsstring)
| imageSmoothingEnabled (on : bool)
| textBaseline (v : jsstring)
| textAlign (v : value)
| font (weight : jsstring) (px : Z) (family : jsstring)
| beginPath
| rect (x y w h : Z)
| clip
| fillText (t : jsstring) (x : Z) (y : Q)
| restore.

Definition quoted (s : jsstring) : jsstring := 34%N :: s ++ [34%N].

Definition fontStack (family : value) : jsstring :=
  if strict_eq_str family (js "system-ui") then
    js "system-ui, -apple-system, Segoe UI, Roboto, Helvetica, Arial, "
    ++ quoted (js "Noto Sans TC") ++ js ", " ++ quoted (js "Noto Sans")
    ++ js ", sans-serif"
  else
    quoted (ToString family) ++ js ", " ++ quoted (js "Noto Sans TC")
    ++ js ", " ++ quoted (js "Noto Sans") ++ js ", system-ui, sans-serif".

Definition linesOf (state : State) : list jsstring :=
  splitLines (normalizeNewlines (text state)).

(** [fontSize * state.lineHeight]. *)
Definition lineHeightPx (state : State) : Q :=
  mul64 (inject_Z (fontSize state)) (round64 (lineHeight state)).

(** [lineHeightPx * lines.length]. *)
Definition totalHeight (state : State) : Q :=
  mul64 (lineHeightPx state)
        (inject_Z (Z.of_nat (List.length (linesOf state)))).

(** [(EXPORT_SIZE / 2) - (totalHeight / 2) + (lineHeightPx / 2)
    + state.offsetY], evaluated from left to right. *)
Definition startY (state : State) : Q :=
  add64
    (add64
       (sub64 (div64 (inject_Z EXPORT_SIZE) 2) (div64 (totalHeight state) 2))
       (div64 (lineHeightPx state) 2))
    (inject_Z (offsetY state)).

Definition anchorX (state : State) : Z :=
  let safeLeft := padding state in
  let safeRight := (EXPORT_SIZE - padding state)%Z in
  if strict_eq_str (align state) (js "left") then (safeLeft + offsetX state)%Z
  else if strict_eq_str (align state) (js "right") then (safeRight + offsetX state)%Z
  else (EXPORT_SIZE / 2 + offsetX state)%Z.

(** The loop over the lines, from index [i] on: the vertical position of
    line [i] is [startY + i * lineHeightPx]; an empty line draws nothing. *)
Fixpoint drawLines (x : Z) (y0 step : Q) (i : Z) (lines : list jsstring)
  : list canvas_op :=
  match lines with
  | [] => []
  | t :: rest =>
      let y := add64 y0 (mul64 (inject_Z i) step) in
      match t with
      | [] => drawLines x y0 step (i + 1) rest
      | _ => fillText t x y :: drawLines x y0 step (i + 1) rest
      end
  end.

Definition drawBackground (state : State) : list canvas_op :=
  if negb (bgTransparent state) then
    match hexToRgb (bgColor state) with
    | Some c =>
        [fillStyle_rgba (r c) (g c) (b c) (bgAlpha state);
         fillRect 0 0 EXPORT_SIZE EXPORT_SIZE]
    | None => []
    end
  else [].

Definition renderExportCanvas (state : State) : list canvas_op :=
  let pad := padding state in
  let safeLeft := pad in
  let safeRight := (EXPORT_SIZE - pad)%Z in
  let safeWidth := (safeRight - safeLeft)%Z in
  [clearRect 0 0 EXPORT_SIZE EXPORT_SIZE]
  ++ drawBackground state
  ++ [save;
      fillStyle (textColor state);
      textRendering (js "optimizeLegibility");
      imageSmoothingEnabled true;
      textBaseline (js "middle");
      textAlign (align state);
      font (ToString (fontWeight state)) (fontSize state)
           (fontStack (fontFamily state));
      beginPath;
      rect safeLeft safeLeft safeWidth safeWidth;
      clip]
  ++ drawLines (anchorX state) (startY state) (lineHeightPx state) 0
       (linesOf state)
  ++ [restore].

(** The vertical centres handed to [fillText], one per line slot (also
    the slots of empty lines, which draw nothing):
    [startY + i * lineHeightPx]. *)
Definition lineCentre (state : State) (i : nat) : Q :=
  add64 (startY state) (mul64 (inject_Z (Z.of_nat i)) (lineHeightPx state)).

(** *** Where a run of [renderExportCanvas] throws

    [renderExportCanvas] above lists the calls of a run that returns. A
    run throws a TypeError at the first field that has to be converted to
    a string and cannot be ([stringThrows]): [String(state.bgColor)] in
    [hexToRgb] when the background is switched on, [String(state.text)]
    in [normalizeNewlines], the assignments of [state.textColor] to
    [fillStyle] and of [state.align] to [textAlign], and the template
    literals over [state.fontFamily] and [state.fontWeight]. The calls
    made up to there stay made; [restore] is then never called. *)

Inductive completion : Type := Returns | Throws.

Definition renderThrows (state : State) : bool :=
  (negb (bgTransparent state) && stringThrows (bgColor state))
  || stringThrows (text state)
  || stringThrows (textColor state)
  || stringThrows (align state)
  || stringThrows (fontFamily state)
  || stringThrows (fontWeight state).

Definition runRenderExportCanvas (state : State)
  : list canvas_op * completion :=
  let cleared := [clearRect 0 0 EXPORT_SIZE EXPORT_SIZE] in
  if negb (bgTransparent state) && stringThrows (bgColor state)
  then (cleared, Throws)
  else
    let background := cleared ++ drawBackground state in
    if stringThrows (text state) then (background, Throws)
    else if stringThrows (textColor state) then (background ++ [save], Throws)
    else
      let styled :=
        background
        ++ [save;
            fillStyle (textColor state);
            textRendering (js "optimizeLegibility");
            imageSmoothingEnabled true;
            textBaseline (js "middle")] in
      if stringThrows (align state) then (styled, Throws)
      else if stringThrows (fontFamily state) || stringThrows (fontWeight state)
      then (styled ++ [textAlign (align state)], Throws)
      else (renderExportCanvas state, Returns).

(** *** What a pixel of the buffer is made of

    The pixels themselves are the work of the canvas; which glyph pixels a
    [fillText] call covers, under everything set on the context before it,
    is a parameter. A pixel is described by the layers composited on it
    since it was last cleared. *)

Inductive layer : Type := Background | Glyph.

Definition inRect (x y w h : Z) (p : Z * Z) : bool :=
  ((x <=? fst p) && (fst p <? x + w) && (y <=? snd p) && (snd p <? y + h))%Z.

Section Buffer.
Variable covers : list canvas_op -> jsstring -> Z -> Q -> Z * Z -> bool.

Definition paint (p : Z * Z) (before : list canvas_op) (acc : list layer)
  (op : canvas_op) : list layer :=
  match op with
  | clearRect x y w h => if inRect x y w h p then [] else acc
  | fillRect x y w h => if inRect x y w h p then Background :: acc else acc
  | fillText t x y => if covers before t x y p then Glyph :: acc else acc
  | _ => acc
  end.

Fixpoint composite (p : Z * Z) (before : list canvas_op) (acc : list layer)
  (ops : list canvas_op) : list layer :=
  match ops with
  | [] => acc
  | op :: rest => composite p (before ++ [op]) (paint p before acc op) rest
  end.

(** The layers on pixel [p] of a fresh (transparent) buffer after the
    calls [ops]. *)
Definition layersAt (p : Z * Z) (ops : list canvas_op) : list layer :=
  composite p [] [] ops.
End Buffer.

(** ** Frame batching and font loading

    The program is single-threaded and event-driven: the world below is
    the part of its module-level variables and of the host's queues that
    the listeners touch, and every listener or callback is a function on
    it. [renders] and [scheduleCalls] are logs kept for the statements:
    one entry per [renderAll()] (the state it drew and the value of
    [rafId] when it started; a call that throws is logged like one that
    returns, see [runRenderExportCanvas]), and the number of
    [scheduleRender()] calls. *)

Record World : Type := {
  state : State;
  rafId : Z;
  frameCallbacks : list positive;
  nextFrameHandle : positive;
  fontLoadToken : Z;
  fontsAvailable : bool;
  fontLoads : list (Z * jsstring);
  renders : list (State * Z);
  scheduleCalls : nat
}.

Definition with_state (s : State) (w : World) : World :=
  {| state := s; rafId := rafId w; frameCallbacks := frameCallbacks w;
     nextFrameHandle := nextFrameHandle w; fontLoadToken := fontLoadToken w;
     fontsAvailable := fontsAvailable w; fontLoads := fontLoads w;
     renders := renders w; scheduleCalls := scheduleCalls w |}.

(** [requestAnimationFrame(cb)] hands out a fresh handle, which is never
    zero, and queues the callback; the only callback ever registered is
    the one of [scheduleRender]. *)
Definition scheduleRender (w : World) : World :=
  if negb (rafId w =? 0)%Z then
    {| state := state w; rafId := rafId w; frameCallbacks := frameCallbacks w;
       nextFrameHandle := nextFrameHandle w; fontLoadToken := fontLoadToken w;
       fontsAvailable := fontsAvailable w; fontLoads := fontLoads w;
       renders := renders w; scheduleCalls := S (scheduleCalls w) |}
  else
    {| state := state w; rafId := Z.pos (nextFrameHandle w);
       frameCallbacks := frameCallbacks w ++ [nextFrameHandle w];
       nextFrameHandle := Pos.succ (nextFrameHandle w);
       fontLoadToken := fontLoadToken w;
       fontsAvailable := fontsAvailable w; fontLoads := fontLoads w;
       renders := renders w; scheduleCalls := S (scheduleCalls w) |}.

(** [renderAll()]: the export canvas is redrawn from the current state
    (and copied to the preview). *)
Definition renderAll (w : World) : World :=
  {| state := state w; rafId := rafId w; frameCallbacks := frameCallbacks w;
     nextFrameHandle := nextFrameHandle w; fontLoadToken := fontLoadToken w;
     fontsAvailable := fontsAvailable w; fontLoads := fontLoads w;
     renders := renders w ++ [(state w, rafId w)];
     scheduleCalls := scheduleCalls w |}.

(** The callback given to [requestAnimationFrame]:
    [rafId = 0; renderAll()]. *)
Definition frameCallback (w : World) : World :=
  renderAll
    {| state := state w; rafId := 0; frameCallbacks := frameCallbacks w;
       nextFrameHandle := nextFrameHandle w; fontLoadToken := fontLoadToken w;
       fontsAvailable := fontsAvailable w; fontLoads := fontLoads w;
       renders := renders w; scheduleCalls := scheduleCalls w |}.

(** A display frame: the host takes the queued callbacks and runs them. *)
Definition animationFrame (w : World) : World :=
  fold_left (fun w' _ => frameCallback w') (frameCallbacks w)
    {| state := state w; rafId := rafId w; frameCallbacks := [];
       nextFrameHandle := nextFrameHandle w; fontLoadToken := fontLoadToken w;
       fontsAvailable := fontsAvailable w; fontLoads := fontLoads w;
       renders := renders w; scheduleCalls := scheduleCalls w |}.

(** [ensureFontLoaded(fontFamily)] up to its [await]: the token is taken
    and the load is in flight. *)
Definition ensureFontLoaded (family : jsstring) (w : World) : World :=
  if negb (fontsAvailable w) then w
  else
    let token := (fontLoadToken w + 1)%Z in
    {| state := state w; rafId := rafId w; frameCallbacks := frameCallbacks w;
       nextFrameHandle := nextFrameHandle w; fontLoadToken := token;
       fontsAvailable := fontsAvailable w;
       fontLoads := fontLoads w ++ [(token, family)];
       renders := renders w; scheduleCalls := scheduleCalls w |}.

(** The rest of [ensureFontLoaded] once the load that captured [token] has
    settled; a rejection is caught, so both outcomes continue alike. Only
    a load in flight can settle. *)
Definition fontSettled (token : Z) (ok : bool) (w : World) : World :=
  let w' :=
    {| state := state w; rafId := rafId w; frameCallbacks := frameCallbacks w;
       nextFrameHandle := nextFrameHandle w; fontLoadToken := fontLoadToken w;
       fontsAvailable := fontsAvailable w;
       fontLoads := filter (fun l => negb (fst l =? token)%Z) (fontLoads w);
       renders := renders w; scheduleCalls := scheduleCalls w |} in
  if negb (existsb (fun l => (fst l =? token)%Z) (fontLoads w)) then w
  else if (token =? fontLoadToken w)%Z then scheduleRender w' else w'.

Definition onAnyInput (d : Controls) (w : World) : World :=
  scheduleRender (with_state (fst (readControlsIntoState d (state w))) w).

Inductive event : Type :=
| Input (d : Controls)              (* a control changed: [onAnyInput] *)
| TextColorHexInput (d : Controls)
| BgColorHexInput (d : Controls)
| FontSelected (d : Controls)       (* [onAnyInput]; [ensureFontLoaded] *)
| Reset
| Resize
| FontSettled (token : Z) (ok : bool)
| Frame.

Definition step (e : event) (w : World) : World :=
  match e with
  | Input d => onAnyInput d w
  | TextColorHexInput d =>
      scheduleRender (with_state (fst (onTextColorHexInput d (state w))) w)
  | BgColorHexInput d =>
      scheduleRender (with_state (fst (onBgColorHexInput d (state w))) w)
  | FontSelected d => ensureFontLoaded (fontSelect d) (onAnyInput d w)
  | Reset =>
      let w := with_state DEFAULT_STATE w in
      scheduleRender (ensureFontLoaded (ToString (fontFamily (state w))) w)
  | Resize => scheduleRender w
  | FontSettled token ok => fontSettled token ok w
  | Frame => animationFrame w
  end.

Definition run (es : list event) (w : World) : World :=
  fold_left (fun w' e => step e w') es w.

(** The scheduler is idle: no frame is requested. *)
Definition idle (w : World) : Prop := rafId w = 0%Z /\ frameCallbacks w = [].

Definition isFrame (e : event) : bool :=
  match e with Frame => true | _ => false end.

(** Events that neither request nor settle a font load. *)
Definition fontQuiet (e : event) : bool :=
  match e with
  | FontSelected _ | Reset | FontSettled _ _ => false
  | _ => true
  end.

(** ** Domains of the state's fields *)

(** The numeric fields are within their domains. *)
Definition numericInRange (s : State) : Prop :=
  (8 <= fontSize s <= 128)%Z
  /\ (0.8 <= lineHeight s /\ lineHeight s <= 1.8)
  /\ (0 <= bgAlpha s /\ bgAlpha s <= 1)
  /\ (-64 <= offsetX s <= 64)%Z
  /\ (-64 <= offsetY s <= 64)%Z
  /\ (0 <= padding s <= 24)%Z.

(** The exact pattern [#rrggbb], case-insensitive. *)
Definition isColour (v : value) : bool :=
  match v with
  | VStr (c :: m) => (c =? 35)%N && hex6 m
  | _ => false
  end.

Definition isAlign (v : value) : bool :=
  strict_eq_str v (js "left") || strict_eq_str v (js "center")
  || strict_eq_str v (js "right").

(** Every field with a declared domain is in it. *)
Definition inDomain (s : State) : Prop :=
  numericInRange s
  /\ isColour (textColor s) = true /\ isColour (bgColor s) = true
  /\ isAlign (align s) = true.

(** The controls as [applyStateToControls] leaves them for
    [DEFAULT_STATE]. *)
Definition defaultControls : Controls := {|
  textInput := DEFAULT_text;
  fontSelect := js "Noto Sans TC";
  weightSelect := js "400";
  sizeRange := js "56";
  lineRange := js "1.15";
  textColor_el := js "#111827";
  textColorHex := js "#111827";
  bgColor_el := js "#ffffff";
  bgColorHex := js "#ffffff";
  bgTransparent_el := true;
  bgAlphaRange := js "100";
  offXRange := js "0";
  offYRange := js "0";
  alignSelect := js "center";
  padRange := js "0"
|}.

(** Controls whose numeric fields hold text that is no number. *)
Definition garbledControls : Controls := {|
  textInput := js "Hi";
  fontSelect := js "Noto Sans TC";
  weightSelect := js "400";
  sizeRange := js "big";
  lineRange := js "tall";
  textColor_el := js "#111827";
  textColorHex := js "#111827";
  bgColor_el := js "#ffffff";
  bgColorHex := js "#ffffff";
  bgTransparent_el := false;
  bgAlphaRange := js "";
  offXRange := js "left";
  offYRange := js "up";
  alignSelect := js "center";
  padRange := js "x"
|}.

(** A stored preference object, [{textColor: zzz, align: justify}] with
    both values strings, as [JSON.parse] returns it. *)
Definition tamperedPreferences : persisted :=
  Parsed (VObj [(js "textColor", VStr (js "zzz"));
                (js "align", VStr (js "justify"))]).

(** A string of the form [#rrggbb], hexadecimal digits in either case. *)
Definition hashHex6 (s : jsstring) : Prop :=
  exists m, s = 35%N :: m /\ List.length m = 6%nat
            /\ Forall (fun c => isHexDigit c = true) m.

(** Six hexadecimal digits, with or without a leading [#]. *)
Definition optHashHex6 (s : jsstring) : Prop :=
  exists m, (s = m \/ s = 35%N :: m) /\ List.length m = 6%nat
            /\ Forall (fun c => isHexDigit c = true) m.

(** The default controls with the colour control holding [col] and the
    hex text box holding [hex]. *)
Definition colourControls (hex col : string) : Controls :=
  set_textColor_els (js hex) (js col) defaultControls.

(** A state whose text colour was set to red earlier. *)
Definition redState : State := set_textColor (VStr (js "#ff0000")) DEFAULT_STATE.

(** ** Vocabulary for the file name *)

(** An ASCII letter, a digit or an underscore. *)
Definition plainUnit (c : N) : bool :=
  isLower c || isUpper c || isDigit c || (c =? 95)%N.

(** A non-empty run of letters, digits and underscores. *)
Definition plainWord (s : jsstring) : Prop :=
  s <> [] /\ Forall (fun c => plainUnit c = true) s.



(** A non-empty run of white space. *)
Definition whiteRun (s : jsstring) : Prop :=
  s <> [] /\ Forall (fun c => isWhiteSpace c = true) s.

(** The two-line example: text [A], line feed, [B]; font size 40, line
    height 1.0, no offset. *)
Definition twoLines : State :=
  set_lineHeight 1 (set_fontSize 40 (set_text (VStr (js "A
B")) DEFAULT_STATE)).


(** Three lines with font size 11 and line height 1.1. *)
Definition smallLines : State :=
  set_lineHeight 1.1 (set_fontSize 11 (set_text (VStr (js "a
b
c")) DEFAULT_STATE)).

(** Stored preferences whose [text] is an object with a [toString]
    property, with the background switched on and a colour name for
    [bgColor]. *)
Definition unreadableText : persisted :=
  Parsed (VObj [(js "text", VObj [(js "toString", VNum (js "1"))]);
                (js "bgColor", VStr (js "red"));
                (js "bgTransparent", VBool false)]).

(** ** Vocabulary for the buffer *)

Definition isFillRect (op : canvas_op) : bool :=
  match op with fillRect _ _ _ _ => true | _ => false end.

(** Pixel [p] lies outside the glyphs of every text call of [ops]. *)
Definition outsideGlyphs
  (covers : list canvas_op -> jsstring -> Z -> Q -> Z * Z -> bool)
  (ops : list canvas_op) (p : Z * Z) : Prop :=
  forall before t x y, In (fillText t x y) ops -> covers before t x y p = false.

(** The transparency example: background switched off, with an opaque
    red background colour stored. *)
Definition transparentRed : State :=
  set_bgAlpha 1 (set_bgColor (VStr (js "#ff0000")) DEFAULT_STATE).

(** Background switched on, with a colour name instead of hex digits. *)
Definition namedColour : State :=
  set_bgTransparent false (set_bgColor (VStr (js "red")) DEFAULT_STATE).

(** A rasteriser for the examples: a glyph covers the pixel at its
    anchor's column on the row of its centre. *)
Definition dotGlyphs (before : list canvas_op) (t : jsstring) (x : Z) (y : Q)
  (p : Z * Z) : bool :=
  (fst p =? x)%Z && Qle_bool (inject_Z (snd p)) y
  && Qle_bool y (inject_Z (snd p) + 1).

(** ** Vocabulary for the scheduler *)

(** One frame is requested: the handle is held in [rafId] and its callback
    is the only one queued. *)
Definition pending (w : World) : Prop :=
  exists h, rafId w = Z.pos h /\ frameCallbacks w = [h].

(** Two worlds agree on what the scheduler owns and logs. *)
Definition sameSchedule (w w' : World) : Prop :=
  rafId w' = rafId w /\ frameCallbacks w' = frameCallbacks w
  /\ renders w' = renders w /\ scheduleCalls w' = scheduleCalls w.

(** The world right after the module is loaded with nothing stored. *)
Definition bootWorld : World := {|
  state := DEFAULT_STATE; rafId := 0; frameCallbacks := [];
  nextFrameHandle := 1; fontLoadToken := 0; fontsAvailable := true;
  fontLoads := []; renders := []; scheduleCalls := 0
|}.

(** ** Integers as text

    [String(n)] for an integer Number [n] of magnitude below 10^21: the
    decimal digits, most significant first, after a minus sign when
    negative. [fuel] bounds the number of digits. *)

Fixpoint decimalDigits (fuel : nat) (n : N) (acc : jsstring) : jsstring :=
  match fuel with
  | O => acc
  | S fuel' =>
      let acc' := (48 + n mod 10)%N :: acc in
      if (n <? 10)%N then acc' else decimalDigits fuel' (n / 10) acc'
  end.

Definition StringOfNat (n : N) : jsstring :=
  decimalDigits (S (N.to_nat (N.log2 n))) n [].

Definition StringOfInt (n : Z) : jsstring :=
  if (n <? 0)%Z then 45%N :: StringOfNat (Z.abs_N n) else StringOfNat (Z.to_N n).

(** An integer Number as a value, as [JSON.parse] gives it back after
    [JSON.stringify] wrote it. *)
Definition Number_of_int (n : Z) : value := VNum (StringOfInt n).

(** ** The theme

    The preference store as the theme functions see it: the items, and
    whether reading or writing throws (store denied or full). *)

Record Storage : Type := {
  items : list (jsstring * jsstring);
  readFails : bool;
  writeFails : bool
}.

Definition STORAGE_KEY : jsstring := js "slack-emoji-gen:v1.1".
Definition THEME_KEY : jsstring := js "slack-emoji-gen:theme".

Fixpoint lookupItem (k : jsstring) (l : list (jsstring * jsstring)) : option jsstring :=
  match l with
  | [] => None
  | (k', v) :: rest => if str_eqb k k' then Some v else lookupItem k rest
  end.

(** [localStorage.getItem(k)]: [None] when it throws, [Some None] for
    [null]. *)
Definition getItem (k : jsstring) (st : Storage) : option (option jsstring) :=
  if readFails st then None else Some (lookupItem k (items st)).

(** [localStorage.setItem(k, v)]: [None] when it throws. *)
Definition setItem (k v : jsstring) (st : Storage) : option Storage :=
  if writeFails st then None
  else Some {| items := (k, v) :: filter (fun kv => negb (str_eqb k (fst kv))) (items st);
               readFails := readFails st; writeFails := writeFails st |}.

Definition isThemeMode (v : jsstring) : bool :=
  str_eqb v (js "light") || str_eqb v (js "dark") || str_eqb v (js "system").

Definition loadTheme (st : Storage) : jsstring :=
  match getItem THEME_KEY st with
  | Some (Some v) => if isThemeMode v then v else js "system"
  | Some None => js "system"
  | None => js "system"
  end.

Definition saveTheme (mode : jsstring) (st : Storage) : Storage :=
  match setItem THEME_KEY mode st with
  | Some st' => st'
  | None => st
  end.

(** [applyTheme(mode)], as the [data-theme] attribute of the root element
    afterwards ([None]: no attribute). *)
Definition applyTheme (mode : jsstring) (attr : option jsstring) : option jsstring :=
  if str_eqb mode (js "light") then Some (js "light")
  else if str_eqb mode (js "dark") then Some (js "dark")
  else None.

(** The theme part of the page: the variable [themeMode], the attribute
    and the store. *)
Record ThemeWorld : Type := {
  themeMode : jsstring;
  dataTheme : option jsstring;
  store : Storage
}.

(** Module start: [themeMode = loadTheme(); applyTheme(themeMode)]. *)
Definition themeInit (attr : option jsstring) (st : Storage) : ThemeWorld :=
  let mode := loadTheme st in
  {| themeMode := mode; dataTheme := applyTheme mode attr; store := st |}.

(** The [change] listener of the theme select, [v] being its value. *)
Definition onThemeChange (v : jsstring) (t : ThemeWorld) : ThemeWorld :=
  {| themeMode := v; dataTheme := applyTheme v (dataTheme t);
     store := saveTheme v (store t) |}.

(** The listener of the system colour-scheme query. *)
Definition onSystemSchemeChange (t : ThemeWorld) : ThemeWorld :=
  if str_eqb (themeMode t) (js "system") then
    {| themeMode := themeMode t; dataTheme := applyTheme (js "system") (dataTheme t);
       store := store t |}
  else t.

(** ** The world at start

    The module-level variables as they are declared, then the [Init]
    block. Its first call, [applyStateToControls()], throws when a loaded
    colour is no string (it calls [toLowerCase] on it) or when a loaded
    [text], [fontFamily], [fontWeight] or [align] cannot be converted to
    the string its control takes, and the rest of the block is then not
    run; the listeners are registered before it.
    Otherwise: [ensureFontLoaded(state.fontFamily)], and
    [scheduleRender()] at once when the host has no
    [document.fonts.ready]. When it has, the later [scheduleRender()] of
    that promise acts on the world as the [Resize] listener does. *)

Definition isString (v : value) : bool :=
  match v with VStr _ => true | _ => false end.

Definition startWorld (p : persisted) (fonts : bool) : World := {|
  state := loadState p; rafId := 0; frameCallbacks := [];
  nextFrameHandle := 1; fontLoadToken := 0; fontsAvailable := fonts;
  fontLoads := []; renders := []; scheduleCalls := 0
|}.

(** Whether [applyStateToControls()] throws. *)
Definition applyThrows (s : State) : bool :=
  stringThrows (text s) || stringThrows (fontFamily s)
  || stringThrows (fontWeight s)
  || negb (isString (textColor s) && isString (bgColor s))
  || stringThrows (align s).

Definition initWorld (p : persisted) (fonts fontsReady : bool) : World :=
  let w := startWorld p fonts in
  if applyThrows (state w) then w
  else
    let w := ensureFontLoaded (ToString (fontFamily (state w))) w in
    if fontsReady then w else scheduleRender w.

Definition countFrames (es : list event) : nat :=
  List.length (filter isFrame es).

Definition isSettle (e : event) : bool :=
  match e with FontSettled _ _ => true | _ => false end.

(** The loads in flight that carry the current token. *)
Definition currentLoads (w : World) : list (Z * jsstring) :=
  filter (fun l => (fst l =? fontLoadToken w)%Z) (fontLoads w).

(** ** More vocabulary *)

Definition isFillText (op : canvas_op) : bool :=
  match op with fillText _ _ _ => true | _ => false end.

Definition isClearRect (op : canvas_op) : bool :=
  match op with clearRect _ _ _ _ => true | _ => false end.

(** Two hyphens in a row somewhere in [s]. *)
Definition hasDoubleHyphen (s : jsstring) : Prop :=
  exists pre post, s = pre ++ 45%N :: 45%N :: post.

(** The sign prefix of a numeric text, as [parseInt] and [parseFloat]
    take it off: whether it is a minus, and the rest. *)
Definition signOf (t : jsstring) : bool * jsstring :=
  match t with
  | c :: rest =>
      if (c =? 45)%N then (true, rest)
      else if (c =? 43)%N then (false, rest)
      else (false, t)
  | [] => (false, [])
  end.

(** The text [rest] does not go on with a digit. *)
Definition endsNumber (rest : jsstring) : Prop :=
  match rest with
  | [] => True
  | c :: _ => isDigit c = false
  end.

(** The property names of the state. *)
Definition stateKeys : list string :=
  ["text"; "fontFamily"; "fontWeight"; "fontSize"; "lineHeight"; "textColor";
   "bgColor"; "bgTransparent"; "bgAlpha"; "offsetX"; "offsetY"; "align";
   "padding"]%string.

(** Two states with the same fields, fractions compared by value. *)
Definition sameState (s1 s2 : State) : Prop :=
  text s1 = text s2 /\ fontFamily s1 = fontFamily s2
  /\ fontWeight s1 = fontWeight s2 /\ fontSize s1 = fontSize s2
  /\ lineHeight s1 == lineHeight s2 /\ textColor s1 = textColor s2
  /\ bgColor s1 = bgColor s2 /\ bgTransparent s1 = bgTransparent s2
  /\ bgAlpha s1 == bgAlpha s2 /\ offsetX s1 = offsetX s2
  /\ offsetY s1 = offsetY s2 /\ align s1 = align s2
  /\ padding s1 = padding s2.

(** Stored preferences as [saveState] leaves them for a state whose
    integer fields are [size], [ox], [oy] and [pad]: those four
    properties of the stored object, among whatever else it holds. *)
Definition storesIntegers (parsed : value) (size ox oy pad : Z) : Prop :=
  prop parsed "fontSize" = Some (Number_of_int size)
  /\ prop parsed "offsetX" = Some (Number_of_int ox)
  /\ prop parsed "offsetY" = Some (Number_of_int oy)
  /\ prop parsed "padding" = Some (Number_of_int pad).

(** The text [s] begins with a hyphen. *)
Definition startsWithHyphen (s : jsstring) : Prop :=
  match s with
  | c :: _ => isHyphen c = true
  | [] => False
  end.

(** No two hyphens in a row, as a test. *)
Fixpoint noDoubleHyphenb (s : jsstring) : bool :=
  match s with
  | a :: t =>
      match t with
      | b :: _ => negb (isHyphen a && isHyphen b) && noDoubleHyphenb t
      | [] => true
      end
  | [] => true
  end.

(** The texts of the [fillText] calls of a trace, in order. *)
Fixpoint textsDrawn (ops : list canvas_op) : list jsstring :=
  match ops with
  | [] => []
  | fillText t _ _ :: rest => t :: textsDrawn rest
  | _ :: rest => textsDrawn rest
  end.

Definition nonEmpty (t : jsstring) : bool :=
  match t with [] => false | _ => true end.

(** How many frame callbacks are queued, 0 or 1 in practice. *)
Definition queued (w : World) : nat := List.length (frameCallbacks w).

(** What holds of the scheduler in every world the program reaches. *)
Definition schedulerInv (w : World) : Prop :=
  (idle w \/ pending w)
  /\ (List.length (renders w) + queued w <= scheduleCalls w)%nat
  /\ Forall (fun r => snd r = 0%Z) (renders w)
  /\ (idle w -> (0 < scheduleCalls w)%nat ->
      exists earlier, renders w = earlier ++ [(state w, 0%Z)]).

(** What holds of the font loads in every world the program reaches. *)
Definition fontInv (w : World) : Prop :=
  NoDup (map fst (fontLoads w))
  /\ Forall (fun l => (0 < fst l <= fontLoadToken w)%Z) (fontLoads w)
  /\ (0 <= fontLoadToken w)%Z.

(** The listeners of the theme. *)
Inductive themeEvent : Type :=
| ThemeSelected (v : jsstring)
| SystemSchemeChanged.

Definition themeStep (e : themeEvent) (t : ThemeWorld) : ThemeWorld :=
  match e with
  | ThemeSelected v => onThemeChange v t
  | SystemSchemeChanged => onSystemSchemeChange t
  end.

Definition themeRun (es : list themeEvent) (t : ThemeWorld) : ThemeWorld :=
  fold_left (fun t' e => themeStep e t') es t.

(** * Properties *)

(** ** Clamping *)

Lemma clampInt_range (v : value) (min max : Z) :
  (min <= max)%Z -> (min <= clampInt v min max <= max)%Z.
Proof.
  intros Hmm. unfold clampInt.
  destruct (parseInt (ToString v)) as [n|]; lia.
Qed.

Lemma clampInt_unparsable (v : value) (min max : Z) :
  parseInt (ToString v) = None -> clampInt v min max = min.
Proof. intros H. unfold clampInt. now rewrite H. Qed.

Lemma Math_max_lower (a x : Q) : a <= Math_max a x.
Proof.
  unfold Math_max. destruct (Qle_bool a x) eqn:E.
  - now apply Qle_bool_iff.
  - apply Qle_refl.
Qed.

Lemma Math_max_upper (a x c : Q) : a <= c -> x <= c -> Math_max a x <= c.
Proof. intros Ha Hx. unfold Math_max. now destruct (Qle_bool a x). Qed.

Lemma Math_min_upper (c x : Q) : Math_min c x <= c.
Proof.
  unfold Math_min. destruct (Qle_bool c x) eqn:E.
  - apply Qle_refl.
  - apply Qlt_le_weak, Qnot_le_lt. intros H.
    apply Qle_bool_iff in H. congruence.
Qed.

Lemma clampFloat_range (v : value) (min max : Q) :
  min <= max -> min <= clampFloat v min max /\ clampFloat v min max <= max.
Proof.
  intros Hmm. unfold clampFloat.
  destruct (parseFloat (ToString v)) as [|[|]|q].
  - split; [apply Qle_refl | exact Hmm].
  - split; [apply Qle_refl | exact Hmm].
  - split; [apply Math_max_lower | apply Math_max_upper; [exact Hmm | apply Qle_refl]].
  - split; [apply Math_max_lower | apply Math_max_upper; [exact Hmm | apply Math_min_upper]].
Qed.

Lemma percent_range (n : Z) :
  (0 <= n <= 100)%Z -> 0 <= inject_Z n / 100 /\ inject_Z n / 100 <= 1.
Proof.
  intros [H0 H1]. unfold Qdiv, Qmult, Qle, inject_Z. simpl. lia.
Qed.

Lemma DEFAULT_STATE_inDomain : inDomain DEFAULT_STATE.
Proof.
  unfold inDomain, numericInRange. simpl.
  repeat split; try lia; try reflexivity; unfold Qle; simpl; lia.
Qed.

Lemma readControls_numericInRange (d : Controls) (s : State) :
  numericInRange (fst (readControlsIntoState d s)).
Proof.
  unfold numericInRange. simpl.
  split; [apply clampInt_range; lia|].
  split; [apply clampFloat_range; unfold Qle; simpl; lia|].
  split; [apply percent_range, clampInt_range; lia|].
  repeat split; apply clampInt_range; lia.
Qed.

(** The sanitised fields of a loaded state are always within range,
    whatever the store holds. *)
Lemma loadState_numericInRange (p : persisted) : numericInRange (loadState p).
Proof.
  assert (D : numericInRange DEFAULT_STATE) by apply DEFAULT_STATE_inDomain.
  destruct p as [| |v]; try exact D.
  destruct v; try exact D; unfold loadState;
    (match goal with |- context [loadThrows ?x] => destruct (loadThrows x) end;
     [exact D|]);
    unfold numericInRange; simpl;
    (split; [apply clampInt_range; lia|]);
    (split; [apply clampFloat_range; unfold Qle; simpl; lia|]);
    (split; [apply clampFloat_range; unfold Qle; simpl; lia|]);
    repeat split; apply clampInt_range; lia.
Qed.

(** ** Loading: C1 *)

(** C1. The claim asks that every field of a loaded state is within its
    declared domain, colours and alignment included. [loadState] sanitises
    the numbers and the boolean only: a stored text colour [zzz] and a
    stored alignment [justify] come back as they were stored, so the loaded
    state is outside the domain that the [State] type of the source
    declares and that [readControlsIntoState] enforces for colours. *)
Theorem C1_loadState_keeps_invalid_colour_and_align :
  textColor (loadState tamperedPreferences) = VStr (js "zzz")
  /\ align (loadState tamperedPreferences) = VStr (js "justify")
  /\ isColour (textColor (loadState tamperedPreferences)) = false
  /\ isAlign (align (loadState tamperedPreferences)) = false
  /\ ~ inDomain (loadState tamperedPreferences).
Proof.
  repeat split; try reflexivity.
  intros (_ & Hc & _). vm_compute in Hc. discriminate.
Qed.

(** ** Reading the controls: C8 *)

(** C8. After the controls are read into the state, the numeric fields are
    within their ranges, and a control whose text is no number gives the
    minimum of the range. *)
Theorem C8_set_numeric_ranges (d : Controls) (s : State) :
  let s' := fst (readControlsIntoState d s) in
  ((8 <= fontSize s' <= 128)%Z
   /\ (0.8 <= lineHeight s' /\ lineHeight s' <= 1.8)
   /\ (0 <= bgAlpha s' /\ bgAlpha s' <= 1)
   /\ (-64 <= offsetX s' <= 64)%Z
   /\ (-64 <= offsetY s' <= 64)%Z
   /\ (0 <= padding s' <= 24)%Z)
  /\ (parseInt (sizeRange d) = None -> fontSize s' = 8%Z)
  /\ (parseFloat (lineRange d) = NaN -> lineHeight s' = 0.8)
  /\ (parseInt (bgAlphaRange d) = None -> bgAlpha s' == 0)
  /\ (parseInt (offXRange d) = None -> offsetX s' = (-64)%Z)
  /\ (parseInt (offYRange d) = None -> offsetY s' = (-64)%Z)
  /\ (parseInt (padRange d) = None -> padding s' = 0%Z).
Proof.
  intros s'. split; [apply readControls_numericInRange|].
  subst s'. simpl.
  repeat split; intros H;
    try (apply clampInt_unparsable; exact H).
  - unfold clampFloat. simpl. now rewrite H.
  - rewrite clampInt_unparsable by exact H. reflexivity.
Qed.

Lemma C8_set_numeric_ranges_witness :
  let s' := fst (readControlsIntoState garbledControls DEFAULT_STATE) in
  fontSize s' = 8%Z /\ lineHeight s' = 0.8 /\ bgAlpha s' == 0
  /\ offsetX s' = (-64)%Z /\ offsetY s' = (-64)%Z /\ padding s' = 0%Z.
Proof.
  destruct (C8_set_numeric_ranges garbledControls DEFAULT_STATE)
    as (_ & H1 & H2 & H3 & H4 & H5 & H6).
  intros s'.
  split; [apply H1; reflexivity|].
  split; [apply H2; reflexivity|].
  split; [apply H3; reflexivity|].
  split; [apply H4; reflexivity|].
  split; [apply H5; reflexivity | apply H6; reflexivity].
Defined.

(** ** Colours: C2 and C9 *)

Lemma hex6_spec (m : jsstring) :
  hex6 m = true <->
  List.length m = 6%nat /\ Forall (fun c => isHexDigit c = true) m.
Proof.
  unfold hex6. rewrite andb_true_iff, Nat.eqb_eq, forallb_forall, Forall_forall.
  reflexivity.
Qed.

Lemma normalizeHex_accepts (v : value) (h : jsstring) :
  normalizeHex v = Some h <-> h = trim (ToString v) /\ hashHex6 h.
Proof.
  unfold normalizeHex, hashHex6.
  destruct (trim (ToString v)) as [|c m].
  - split; [discriminate|]. intros [-> (m & Hm & _)]. discriminate.
  - destruct (c =? 35)%N eqn:Ec; simpl.
    + apply N.eqb_eq in Ec. subst c.
      destruct (hex6 m) eqn:Eh.
      * split.
        -- intros [= <-]. split; [reflexivity|].
           exists m. split; [reflexivity|]. now apply hex6_spec.
        -- intros [-> _]. reflexivity.
      * split; [discriminate|].
        intros [-> (m' & [= <-] & Hm)].
        apply hex6_spec in Hm. congruence.
    + split; [discriminate|].
      intros [-> (m' & [= -> _] & _)].
      rewrite N.eqb_refl in Ec. discriminate.
Qed.

Lemma normalizeHex_rejects (v : value) :
  normalizeHex v = None <-> ~ hashHex6 (trim (ToString v)).
Proof.
  split.
  - intros HN Hh.
    assert (normalizeHex v = Some (trim (ToString v)))
      by (apply normalizeHex_accepts; split; [reflexivity | exact Hh]).
    congruence.
  - intros Hn. destruct (normalizeHex v) as [h|] eqn:E; [|reflexivity].
    apply normalizeHex_accepts in E. destruct E as [-> Hh]. contradiction.
Qed.

Lemma hex_or_accepts (v : jsstring) (fallback : value) :
  hashHex6 (trim v) -> hex_or v fallback = VStr (trim v).
Proof.
  intros H. unfold hex_or.
  assert (E : normalizeHex (VStr v) = Some (trim v))
    by (apply normalizeHex_accepts; split; [reflexivity | exact H]).
  now rewrite E.
Qed.

Lemma hex_or_rejects (v : jsstring) (fallback : value) :
  ~ hashHex6 (trim v) -> hex_or v fallback = fallback.
Proof.
  intros H. unfold hex_or.
  assert (E : normalizeHex (VStr v) = None)
    by (apply normalizeHex_rejects; exact H).
  now rewrite E.
Qed.

(** C2, as the code has it. A colour the control supplies is accepted when
    its trimmed text has the form [#rrggbb]; the stored value is then that
    trimmed text, the letter case of the digits kept as supplied, and its
    lowercase form goes to the hex text box. So [#ABCDEF] is stored as
    [#ABCDEF], and [ABCDEF], which lacks the [#], stores the default. *)
Theorem C2_accepted_colour_stored_as_supplied (d : Controls) (s : State) :
  let out := readControlsIntoState d s in
  (hashHex6 (trim (textColor_el d)) ->
     textColor (fst out) = VStr (trim (textColor_el d))
     /\ textColorHex (snd out) = toLowerCase (trim (textColor_el d)))
  /\ (hashHex6 (trim (bgColor_el d)) ->
     bgColor (fst out) = VStr (trim (bgColor_el d))
     /\ bgColorHex (snd out) = toLowerCase (trim (bgColor_el d)))
  /\ textColor (fst (readControlsIntoState (colourControls "#111827" "#ABCDEF") s))
     = VStr (js "#ABCDEF")
  /\ textColor (fst (readControlsIntoState (colourControls "#111827" "ABCDEF") s))
     = textColor DEFAULT_STATE.
Proof.
  simpl. split; [|split; [|split; reflexivity]];
    intros H; rewrite (@hex_or_accepts _ _ H); split; reflexivity.
Qed.

Lemma C2_accepted_colour_stored_as_supplied_witness :
  textColor (fst (readControlsIntoState (colourControls "#111827" " #ABCDEF ") redState))
  = VStr (js "#ABCDEF")
  /\ textColorHex (snd (readControlsIntoState (colourControls "#111827" " #ABCDEF ") redState))
     = js "#abcdef".
Proof.
  apply (proj1 (C2_accepted_colour_stored_as_supplied
                  (colourControls "#111827" " #ABCDEF ") redState)).
  exists (js "ABCDEF"). split; [reflexivity|]. split; [reflexivity|].
  repeat constructor.
Defined.

(** C2 as stated fails on its own example: [ABCDEF] has no leading [#],
    is not accepted, and the stored value is the default colour, both when
    the colour control holds it and when it is typed into the hex box. *)
Lemma C2_counterexample :
  textColor (fst (readControlsIntoState (colourControls "#111827" "ABCDEF") DEFAULT_STATE))
  = VStr (js "#111827")
  /\ textColor (fst (onTextColorHexInput (colourControls "ABCDEF" "#111827") DEFAULT_STATE))
     = VStr (js "#111827")
  /\ textColor (fst (readControlsIntoState (colourControls "#111827" "ABCDEF") DEFAULT_STATE))
     <> VStr (js "#abcdef").
Proof.
  split; [reflexivity|]. split; [reflexivity|]. vm_compute. discriminate.
Qed.

(** C9, as the code has it. A colour that is not of the form [#rrggbb]
    (after trimming) stores the default text colour, whatever colour the
    state held before; the same when it is typed into the hex box, which
    is rewritten with the default as well. *)
Theorem C9_rejected_colour_stores_default (d : Controls) (s : State) :
  (~ hashHex6 (trim (textColor_el d)) ->
     textColor (fst (readControlsIntoState d s)) = textColor DEFAULT_STATE)
  /\ (~ hashHex6 (trim (textColorHex d)) ->
     textColor (fst (onTextColorHexInput d s)) = textColor DEFAULT_STATE
     /\ textColorHex (snd (onTextColorHexInput d s)) = js "#111827").
Proof.
  split; intros H.
  - simpl. now rewrite (@hex_or_rejects _ _ H).
  - unfold onTextColorHexInput, setColorFromHexInput.
    rewrite (@hex_or_rejects _ _ H). split; reflexivity.
Qed.

Lemma C9_rejected_colour_stores_default_witness :
  textColor (fst (readControlsIntoState (colourControls "#ff0000" "not-a-color") redState))
  = VStr (js "#111827").
Proof.
  apply (proj1 (C9_rejected_colour_stores_default
                  (colourControls "#ff0000" "not-a-color") redState)).
  intros (m & Hm & _). vm_compute in Hm. discriminate.
Defined.

(** C9 as stated fails: with red stored before, the rejected input
    [not-a-color] does not leave the stored colour unchanged; the state
    ends with the default colour. *)
Lemma C9_counterexample :
  textColor redState = VStr (js "#ff0000")
  /\ textColor (fst (readControlsIntoState (colourControls "#ff0000" "not-a-color") redState))
     <> textColor redState
  /\ textColor (fst (onTextColorHexInput (colourControls "not-a-color" "#ff0000") redState))
     <> textColor redState.
Proof.
  split; [reflexivity|]. split; vm_compute; discriminate.
Qed.

(** ** The export file name: C3 *)

Ltac decide_units :=
  repeat match goal with
    | |- context [(?a =? ?b)%N] =>
        replace (a =? b)%N with false by (symmetry; apply N.eqb_neq; lia)
    | |- context [(?a <=? ?b)%N] =>
        first [ replace (a <=? b)%N with false by (symmetry; apply N.leb_gt; lia)
              | replace (a <=? b)%N with true by (symmetry; apply N.leb_le; lia) ]
    end.

Lemma plainUnit_bounds (c : N) : plainUnit c = true -> (48 <= c <= 122)%N.
Proof.
  unfold plainUnit, isLower, isUpper, isDigit.
  rewrite !orb_true_iff, !andb_true_iff, !N.leb_le, N.eqb_eq. lia.
Qed.

Lemma plainUnit_not_white (c : N) : plainUnit c = true -> isWhiteSpace c = false.
Proof.
  intros H. apply plainUnit_bounds in H. unfold isWhiteSpace.
  decide_units. reflexivity.
Qed.

Lemma plainUnit_not_hyphen (c : N) : plainUnit c = true -> isHyphen c = false.
Proof.
  intros H. apply plainUnit_bounds in H. unfold isHyphen.
  decide_units. reflexivity.
Qed.

Lemma plainUnit_kept (c : N) : plainUnit c = true -> inKeptClass c = true.
Proof.
  unfold plainUnit, inKeptClass. intros H. now rewrite H.
Qed.

Lemma hyphen_kept (c : N) : isHyphen c = true -> inKeptClass c = true.
Proof.
  unfold isHyphen, inKeptClass. intros H. rewrite H.
  now rewrite !orb_true_r.
Qed.

Lemma filter_all {A : Type} (f : A -> bool) (l : list A) :
  Forall (fun x => f x = true) l -> filter f l = l.
Proof.
  induction 1 as [|x l Hx _ IH]; simpl; [reflexivity|].
  now rewrite Hx, IH.
Qed.

Lemma runsToHyphen_app_clean (p : N -> bool) (a t : jsstring) (inRun : bool) :
  Forall (fun c => p c = false) a ->
  runsToHyphen p inRun (a ++ t)
  = a ++ runsToHyphen p (match a with [] => inRun | _ => false end) t.
Proof.
  intros H. revert inRun.
  induction H as [|c a Hc _ IH]; intros inRun; simpl; [reflexivity|].
  rewrite Hc, IH. now destruct a.
Qed.

Lemma runsToHyphen_clean (p : N -> bool) (a : jsstring) (inRun : bool) :
  Forall (fun c => p c = false) a -> runsToHyphen p inRun a = a.
Proof.
  intros H. rewrite <- (app_nil_r a) at 1.
  rewrite runsToHyphen_app_clean by exact H. simpl. apply app_nil_r.
Qed.

Lemma runsToHyphen_skip_run (p : N -> bool) (ws t : jsstring) :
  Forall (fun c => p c = true) ws ->
  runsToHyphen p true (ws ++ t) = runsToHyphen p true t.
Proof.
  induction 1 as [|c ws Hc _ IH]; simpl; [reflexivity|]. now rewrite Hc.
Qed.


Lemma dropLeadingHyphen_Forall (P : N -> Prop) (s : jsstring) :
  Forall P s -> Forall P (dropLeadingHyphen s).
Proof.
  intros H. destruct H as [|c s Hc Hs]; simpl; [constructor|].
  destruct (isHyphen c); [exact Hs | now constructor].
Qed.

Lemma stripEdgeHyphens_Forall (P : N -> Prop) (s : jsstring) :
  Forall P s -> Forall P (stripEdgeHyphens s).
Proof.
  intros H. unfold stripEdgeHyphens.
  apply Forall_rev, dropLeadingHyphen_Forall, Forall_rev,
    dropLeadingHyphen_Forall, H.
Qed.

Lemma firstn_Forall {A : Type} (P : A -> Prop) (n : nat) (l : list A) :
  Forall P l -> Forall P (firstn n l).
Proof.
  intros H. revert n. induction H as [|x l Hx _ IH]; intros [|n]; simpl;
    constructor; [exact Hx | apply IH].
Qed.



Lemma dropLeadingHyphen_plain_head (c : N) (s : jsstring) :
  plainUnit c = true -> dropLeadingHyphen (c :: s) = c :: s.
Proof. intros H. simpl. now rewrite (plainUnit_not_hyphen _ H). Qed.

(** Between two plain units at its ends a string loses nothing to
    [stripEdgeHyphens]. *)
Lemma stripEdgeHyphens_plain_ends (c e : N) (s : jsstring) :
  plainUnit c = true -> plainUnit e = true ->
  stripEdgeHyphens (c :: s ++ [e]) = c :: s ++ [e].
Proof.
  intros Hc He. unfold stripEdgeHyphens.
  rewrite (dropLeadingHyphen_plain_head _ _ Hc).
  assert (R : rev (c :: s ++ [e]) = e :: rev (c :: s))
    by (rewrite app_comm_cons, rev_app_distr; reflexivity).
  rewrite R, (dropLeadingHyphen_plain_head _ _ He).
  change (rev (e :: rev (c :: s))) with (rev (rev (c :: s)) ++ [e]).
  rewrite rev_involutive. reflexivity.
Qed.

Lemma stripEdgeHyphens_plain_single (c : N) :
  plainUnit c = true -> stripEdgeHyphens [c] = [c].
Proof.
  intros Hc. unfold stripEdgeHyphens.
  rewrite (dropLeadingHyphen_plain_head _ _ Hc). simpl rev at 2.
  now rewrite (dropLeadingHyphen_plain_head _ _ Hc).
Qed.

Lemma plainWord_ends (s : jsstring) :
  plainWord s ->
  (exists c, s = [c] /\ plainUnit c = true)
  \/ (exists c m e, s = c :: m ++ [e] /\ plainUnit c = true /\ plainUnit e = true).
Proof.
  intros [Hne H]. destruct s as [|c s]; [congruence|].
  inversion H as [|? ? Hc Hs]; subst.
  destruct (exists_last (l := c :: s)) as (m & e & E); [discriminate|].
  destruct m as [|c' m]; simpl in E.
  - left. exists c. injection E as -> ->. split; [reflexivity | exact Hc].
  - right. injection E as <- ->. exists c, m, e.
    split; [reflexivity|]. split; [exact Hc|].
    apply Forall_app in Hs. destruct Hs as [_ He]. now inversion He.
Qed.

Lemma plainWord_not_white (s : jsstring) :
  Forall (fun c => plainUnit c = true) s ->
  Forall (fun c => isWhiteSpace c = false) s.
Proof. apply Forall_impl, plainUnit_not_white. Qed.

Lemma plainWord_not_hyphen (s : jsstring) :
  Forall (fun c => plainUnit c = true) s ->
  Forall (fun c => isHyphen c = false) s.
Proof. apply Forall_impl, plainUnit_not_hyphen. Qed.

Lemma plainWord_kept (s : jsstring) :
  Forall (fun c => plainUnit c = true) s ->
  Forall (fun c => inKeptClass c = true) s.
Proof. apply Forall_impl, plainUnit_kept. Qed.

(** A line made of letters, digits and underscores is its own base. *)
Lemma fileBase_plainWord (s : jsstring) :
  plainWord s -> (List.length s <= 32)%nat -> fileBase s = s.
Proof.
  intros Hw Hlen. pose proof Hw as [_ Hp]. unfold fileBase.
  rewrite (runsToHyphen_clean _ _ _ (plainWord_not_white _ Hp)).
  rewrite (filter_all _ _ (plainWord_kept _ Hp)).
  rewrite (runsToHyphen_clean _ _ _ (plainWord_not_hyphen _ Hp)).
  destruct (plainWord_ends _ Hw) as [(c & -> & Hc) | (c & m & e & -> & Hc & He)].
  - rewrite (stripEdgeHyphens_plain_single _ Hc). now apply firstn_all2.
  - rewrite (stripEdgeHyphens_plain_ends _ _ _ Hc He). now apply firstn_all2.
Qed.

Lemma hyphenated_ends (a b : jsstring) :
  plainWord a -> plainWord b ->
  exists c m e, a ++ 45%N :: b = c :: m ++ [e]
                /\ plainUnit c = true /\ plainUnit e = true.
Proof.
  intros [Ha Hpa] [Hb Hpb].
  destruct a as [|c a']; [congruence|].
  destruct (exists_last Hb) as (m & e & ->).
  exists c, (a' ++ 45%N :: m), e. split.
  - simpl. now rewrite <- app_assoc.
  - split; [now inversion Hpa|].
    apply Forall_app in Hpb. destruct Hpb as [_ He]. now inversion He.
Qed.

(** Two such words separated by white space are joined by one hyphen. *)
Lemma fileBase_two_words (a ws b : jsstring) :
  plainWord a -> whiteRun ws -> plainWord b ->
  (List.length (a ++ 45%N :: b) <= 32)%nat ->
  fileBase (a ++ ws ++ b) = a ++ 45%N :: b.
Proof.
  intros Ha [Hws Hpw] Hb Hlen.
  pose proof Ha as [Hane Hpa]. pose proof Hb as [Hbne Hpb].
  assert (S1 : runsToHyphen isWhiteSpace false (a ++ ws ++ b) = a ++ 45%N :: b).
  { rewrite (runsToHyphen_app_clean _ _ _ _ (plainWord_not_white _ Hpa)).
    f_equal. destruct ws as [|w ws']; [congruence|].
    inversion Hpw as [|? ? Hw Hws']; subst.
    assert (E : runsToHyphen isWhiteSpace false ((w :: ws') ++ b)
                = 45%N :: runsToHyphen isWhiteSpace true (ws' ++ b))
      by (simpl; now rewrite Hw).
    destruct a; [congruence|]. rewrite E.
    rewrite (runsToHyphen_skip_run _ _ _ Hws').
    now rewrite (runsToHyphen_clean _ _ _ (plainWord_not_white _ Hpb)). }
  assert (K : Forall (fun c => inKeptClass c = true) (a ++ 45%N :: b)).
  { apply Forall_app. split; [now apply plainWord_kept|].
    constructor; [reflexivity | now apply plainWord_kept]. }
  assert (S3 : runsToHyphen isHyphen false (a ++ 45%N :: b) = a ++ 45%N :: b).
  { rewrite (runsToHyphen_app_clean _ _ _ _ (plainWord_not_hyphen _ Hpa)).
    f_equal. destruct a; [congruence|]. simpl.
    now rewrite (runsToHyphen_clean _ _ _ (plainWord_not_hyphen _ Hpb)). }
  unfold fileBase. rewrite S1, (filter_all _ _ K), S3.
  destruct (hyphenated_ends _ _ Ha Hb) as (c & m & e & E & Hc & He).
  rewrite E in *. rewrite (stripEdgeHyphens_plain_ends _ _ _ Hc He).
  now apply firstn_all2.
Qed.
















(** ** Binary64 rounding

    [round64] respects equality of rationals, leaves every integer
    multiple of a power of two with at most 53 significant bits
    unchanged, and always returns such a multiple: a Number is its own
    rounding. *)

Lemma floorLog2_comp (a b : Q) : a == b -> floorLog2 a = floorLog2 b.
Proof.
  intros E. unfold floorLog2.
  rewrite (Qleb_comp 1 1 (Qeq_refl 1) a b E), (Qfloor_comp a b E).
  now rewrite (Qceiling_comp (/ a) (/ b)) by now rewrite E.
Qed.

Lemma roundHalfEven_comp (a b : Q) : a == b -> roundHalfEven a = roundHalfEven b.
Proof.
  intros E. unfold roundHalfEven. rewrite (Qfloor_comp a b E).
  assert (H : a - inject_Z (Qfloor b) == b - inject_Z (Qfloor b)) by now rewrite E.
  now rewrite (Qcompare_comp _ _ H (1 # 2) (1 # 2) (Qeq_refl _)).
Qed.

Lemma roundMagnitude_comp (a b : Q) : a == b -> roundMagnitude a == roundMagnitude b.
Proof.
  intros E. unfold roundMagnitude. rewrite (floorLog2_comp a b E).
  set (e := Z.max (floorLog2 b - 52) (-1074)).
  assert (H : a / 2 ^ e == b / 2 ^ e) by now rewrite E.
  now rewrite (roundHalfEven_comp _ _ H).
Qed.

#[global] Instance round64_comp : Proper (Qeq ==> Qeq) round64.
Proof.
  intros a b E. unfold round64.
  rewrite (Qcompare_comp a b E 0 0 (Qeq_refl 0)).
  destruct (Qcompare b 0); [reflexivity | | now apply roundMagnitude_comp].
  apply Qopp_comp, roundMagnitude_comp. now rewrite E.
Qed.

Lemma pow2_pos (e : Z) : 0 < 2 ^ e.
Proof. now apply Qpower_0_lt. Qed.

Lemma pow2_Z (e : Z) : (0 <= e)%Z -> 2 ^ e == inject_Z (2 ^ e).
Proof. intros H. now rewrite Zpower_Qpower. Qed.

Lemma pow2_plus (a b : Z) : 2 ^ (a + b) == 2 ^ a * 2 ^ b.
Proof. now apply Qpower_plus. Qed.

Lemma floorLog2_lower (a : Q) : 0 < a -> 2 ^ floorLog2 a <= a.
Proof.
  intros Ha. unfold floorLog2. destruct (Qle_bool 1 a) eqn:E.
  - apply Qle_bool_iff in E.
    assert (F : (1 <= Qfloor a)%Z).
    { change 1%Z with (Qfloor (inject_Z 1)). rewrite Qfloor_Z.
      rewrite <- (Qfloor_Z 1). now apply Qfloor_resp_le. }
    rewrite pow2_Z by apply Z.log2_nonneg.
    apply Qle_trans with (inject_Z (Qfloor a)); [|apply Qfloor_le].
    rewrite <- Zle_Qle. apply Z.log2_spec. lia.
  - assert (L : a < 1).
    { apply Qnot_le_lt. intros H. apply Qle_bool_iff in H. congruence. }
    set (j := Z.log2_up (Qceiling (/ a))).
    rewrite Qpower_opp.
    apply Qle_shift_inv_r; [apply pow2_pos|].
    assert (I : / a <= 2 ^ j).
    { apply Qle_trans with (inject_Z (Qceiling (/ a))); [apply Qle_ceiling|].
      unfold j. rewrite pow2_Z by apply Z.log2_up_nonneg.
      rewrite <- Zle_Qle.
      assert (C : (1 < Qceiling (/ a))%Z).
      { assert (1 < / a).
        { apply Qlt_shift_inv_l; [exact Ha|]. now rewrite Qmult_1_l. }
        assert (1 < inject_Z (Qceiling (/ a)))
          by (eapply Qlt_le_trans; [eassumption | apply Qle_ceiling]).
        now rewrite (Zlt_Qlt 1 _). }
      apply Z.log2_up_spec. exact C. }
    apply (Qmult_le_compat_r _ _ a) in I; [|now apply Qlt_le_weak].
    rewrite Qmult_comm, Qmult_inv_r in I; [|intros Z0; rewrite Z0 in Ha; discriminate].
    now rewrite Qmult_comm.
Qed.

Lemma roundHalfEven_Z (z : Z) : roundHalfEven (inject_Z z) = z.
Proof.
  unfold roundHalfEven. rewrite Qfloor_Z.
  assert (E : inject_Z z - inject_Z z == 0) by ring.
  now rewrite E.
Qed.

Lemma floorLog2_upper (a : Q) (k : Z) : 0 < a -> a < 2 ^ k -> (floorLog2 a < k)%Z.
Proof.
  intros Ha H. pose proof (floorLog2_lower a Ha) as L.
  apply (Qpower_lt_compat_l_inv 2); [|reflexivity].
  eapply Qle_lt_trans; eassumption.
Qed.

Lemma roundMagnitude_dyadic (m e : Z) :
  (0 < m < 2 ^ 53)%Z -> (-1074 <= e)%Z ->
  roundMagnitude (inject_Z m * 2 ^ e) == inject_Z m * 2 ^ e.
Proof.
  intros Hm He. unfold roundMagnitude.
  set (a := inject_Z m * 2 ^ e).
  assert (Ha : 0 < a).
  { unfold a. apply Qmult_lt_0_compat; [|apply pow2_pos].
    rewrite <- (Zlt_Qlt 0). lia. }
  assert (U : a < 2 ^ (53 + e)).
  { unfold a. rewrite pow2_plus. apply Qmult_lt_compat_r; [apply pow2_pos|].
    rewrite pow2_Z by lia. rewrite <- Zlt_Qlt. lia. }
  pose proof (floorLog2_upper a _ Ha U) as K.
  set (e' := Z.max (floorLog2 a - 52) (-1074)).
  assert (D : (0 <= e - e')%Z) by lia.
  assert (P : 2 ^ e == inject_Z (2 ^ (e - e')) * 2 ^ e').
  { rewrite <- pow2_Z by exact D. rewrite <- pow2_plus.
    now replace (e - e' + e')%Z with e by lia. }
  assert (Q1 : a / 2 ^ e' == inject_Z (m * 2 ^ (e - e'))).
  { unfold a. rewrite P, inject_Z_mult. field.
    intros Z0. pose proof (pow2_pos e') as Pp. rewrite Z0 in Pp. discriminate. }
  rewrite (roundHalfEven_comp _ _ Q1), roundHalfEven_Z.
  unfold a. rewrite P, inject_Z_mult. ring.
Qed.

Lemma round64_dyadic (m e : Z) :
  (Z.abs m < 2 ^ 53)%Z -> (-1074 <= e)%Z ->
  round64 (inject_Z m * 2 ^ e) == inject_Z m * 2 ^ e.
Proof.
  intros Hm He. unfold round64.
  destruct (Qcompare_spec (inject_Z m * 2 ^ e) 0) as [E | L | G].
  - now rewrite E.
  - assert (M : (m < 0)%Z).
    { destruct (Z_lt_le_dec m 0) as [|N]; [assumption|]. exfalso.
      apply (Qlt_not_le _ _ L). apply Qmult_le_0_compat.
      - now rewrite <- (Zle_Qle 0). - apply Qlt_le_weak, pow2_pos. }
    assert (E : - (inject_Z m * 2 ^ e) == inject_Z (- m) * 2 ^ e)
      by (rewrite inject_Z_opp; ring).
    rewrite (roundMagnitude_comp _ _ E), roundMagnitude_dyadic by lia.
    rewrite inject_Z_opp. ring.
  - assert (M : (0 < m)%Z).
    { destruct (Z_lt_le_dec 0 m) as [|N]; [assumption|]. exfalso.
      apply (Qlt_not_le _ _ G).
      setoid_replace 0 with (0 * 2 ^ e) by ring.
      apply Qmult_le_compat_r; [|apply Qlt_le_weak, pow2_pos].
      now rewrite <- (Zle_Qle _ 0). }
    apply roundMagnitude_dyadic; lia.
Qed.

Lemma round64_Z (z : Z) : (Z.abs z < 2 ^ 53)%Z -> round64 (inject_Z z) == inject_Z z.
Proof.
  intros H. assert (E : inject_Z z == inject_Z z * 2 ^ 0) by (simpl; ring).
  rewrite E at 1. rewrite round64_dyadic by lia. simpl; ring.
Qed.

Lemma round64_half (k : Z) :
  (Z.abs k < 2 ^ 53)%Z -> round64 (inject_Z k / 2) == inject_Z k / 2.
Proof.
  intros H. assert (E : inject_Z k / 2 == inject_Z k * 2 ^ (-1)) by reflexivity.
  rewrite E at 1. rewrite round64_dyadic by lia. reflexivity.
Qed.








(** From here on [round64] is computed on numerals only. *)
Opaque round64.

Lemma round64_halves (q : Q) (k : Z) :
  q == inject_Z k / 2 -> (Z.abs k < 2 ^ 53)%Z -> round64 q == inject_Z k / 2.
Proof. intros E H. rewrite E. now apply round64_half. Qed.

#[global] Instance mul64_comp : Proper (Qeq ==> Qeq ==> Qeq) mul64.
Proof. intros a b E c d F. unfold mul64. now rewrite E, F. Qed.

#[global] Instance add64_comp : Proper (Qeq ==> Qeq ==> Qeq) add64.
Proof. intros a b E c d F. unfold add64. now rewrite E, F. Qed.

#[global] Instance sub64_comp : Proper (Qeq ==> Qeq ==> Qeq) sub64.
Proof. intros a b E c d F. unfold sub64. now rewrite E, F. Qed.

#[global] Instance div64_comp : Proper (Qeq ==> Qeq ==> Qeq) div64.
Proof. intros a b E c d F. unfold div64. now rewrite E, F. Qed.

(** ** Vertical layout: C4 *)

Ltac q_lia :=
  unfold Qeq, Qminus, Qplus, Qopp, Qdiv, Qmult, Qinv, inject_Z;
  cbn [Qnum Qden]; lia.

Lemma slot_shift (k : Z) (j : nat) :
  (k + 1 + Z.of_nat j = k + Z.of_nat (S j))%Z.
Proof. lia. Qed.

Lemma drawLines_In (x0 : Z) (y0 step : Q) (lines : list jsstring) :
  forall (k : Z) (t : jsstring) (x : Z) (y : Q),
    In (fillText t x y) (drawLines x0 y0 step k lines) <->
    exists j, nth_error lines j = Some t /\ t <> [] /\ x = x0
              /\ y = add64 y0 (mul64 (inject_Z (k + Z.of_nat j)) step).
Proof.
  induction lines as [|l rest IH]; intros k t x y.
  - simpl. split; [contradiction|]. intros ([|j] & H & _); discriminate.
  - assert (Tail : In (fillText t x y) (drawLines x0 y0 step (k + 1) rest) <->
                   exists j, nth_error (l :: rest) (S j) = Some t /\ t <> []
                             /\ x = x0
                             /\ y = add64 y0
                                      (mul64 (inject_Z (k + Z.of_nat (S j))) step)).
    { rewrite IH. split; intros (j & Hn & Ht & Hx & Hy); exists j;
        (split; [exact Hn|]; split; [exact Ht|]; split; [exact Hx|]);
        rewrite Hy; now rewrite (slot_shift k j). }
    destruct l as [|c l'].
    + simpl drawLines. rewrite Tail. split.
      * intros (j & H). now exists (S j).
      * intros ([|j] & Hn & Ht & H); [simpl in Hn; congruence|].
        exists j. now split.
    + simpl drawLines. simpl In. rewrite Tail. split.
      * intros [E | (j & H)].
        -- injection E as <- <- <-. exists 0%nat.
           split; [reflexivity|]. split; [discriminate|]. split; [reflexivity|].
           now rewrite Z.add_0_r.
        -- now exists (S j).
      * intros ([|j] & Hn & Ht & Hx & Hy).
        -- left. simpl in Hn. injection Hn as <-. subst x y.
           now rewrite Z.add_0_r.
        -- right. exists j. now split.
Qed.

Lemma render_fillText (s : State) (t : jsstring) (x : Z) (y : Q) :
  In (fillText t x y) (renderExportCanvas s) <->
  In (fillText t x y)
     (drawLines (anchorX s) (startY s) (lineHeightPx s) 0 (linesOf s)).
Proof.
  unfold renderExportCanvas. rewrite !in_app_iff. split.
  - intros [H | [H | [H | [H | H]]]]; try exact H.
    + destruct H as [H | []]; discriminate.
    + unfold drawBackground in H.
      destruct (negb (bgTransparent s)); [|contradiction].
      destruct (hexToRgb (bgColor s)); [|contradiction].
      destruct H as [H | [H | []]]; discriminate.
    + simpl in H. repeat (destruct H as [H | H]; [discriminate|]). contradiction.
    + destruct H as [H | []]; discriminate.
  - intros H. right. right. right. left. exact H.
Qed.

(** The text calls of a run: the non-empty lines, line [i] at the centre
    of slot [i]. *)
Lemma render_fillText_slots (s : State) (t : jsstring) (x : Z) (y : Q) :
  In (fillText t x y) (renderExportCanvas s) <->
  exists i, nth_error (linesOf s) i = Some t /\ t <> []
            /\ x = anchorX s /\ y = lineCentre s i.
Proof.
  rewrite render_fillText, drawLines_In. unfold lineCentre. reflexivity.
Qed.


(** When [lineHeightPx] is a whole number, nothing is rounded in the
    layout: every intermediate value is a multiple of one half far below
    2^53. *)
Section WholeLineHeight.
Variable s : State.
Variable h : Z.
Hypothesis whole : lineHeightPx s == inject_Z h.
Hypothesis h_small : (Z.abs h <= 2 ^ 20)%Z.
Hypothesis offset_small : (Z.abs (offsetY s) <= 2 ^ 20)%Z.
Hypothesis lines_few : (Z.of_nat (List.length (linesOf s)) <= 2 ^ 20)%Z.

Lemma slots_small (i : Z) :
  (0 <= i <= 2 ^ 20)%Z -> (Z.abs (i * h) <= 2 ^ 40)%Z.
Proof.
  intros Hi. rewrite Z.abs_mul, (Z.abs_eq i) by lia.
  change (2 ^ 40)%Z with (2 ^ 20 * 2 ^ 20)%Z.
  apply Z.mul_le_mono_nonneg; lia.
Qed.

Lemma totalHeight_whole :
  totalHeight s == inject_Z (Z.of_nat (List.length (linesOf s)) * h).
Proof.
  pose proof (slots_small (Z.of_nat (List.length (linesOf s))) ltac:(lia)) as B.
  unfold totalHeight, mul64. rewrite whole, <- inject_Z_mult, Z.mul_comm.
  apply round64_Z. lia.
Qed.

Lemma startY_whole :
  startY s
  == inject_Z (128 - Z.of_nat (List.length (linesOf s)) * h + h
               + 2 * offsetY s) / 2.
Proof.
  set (n := Z.of_nat (List.length (linesOf s))).
  pose proof (slots_small n ltac:(unfold n; lia)) as B.
  assert (T : div64 (totalHeight s) 2 == inject_Z (n * h) / 2).
  { unfold div64. rewrite totalHeight_whole. apply round64_half. fold n. lia. }
  assert (A : div64 (inject_Z EXPORT_SIZE) 2 == inject_Z 128 / 2)
    by (vm_compute; reflexivity).
  assert (C : sub64 (div64 (inject_Z EXPORT_SIZE) 2) (div64 (totalHeight s) 2)
              == inject_Z (128 - n * h) / 2).
  { unfold sub64. rewrite A, T. apply round64_halves; [q_lia | lia]. }
  assert (D : div64 (lineHeightPx s) 2 == inject_Z h / 2).
  { unfold div64. rewrite whole. apply round64_half. lia. }
  unfold startY. rewrite C, D.
  assert (E : add64 (inject_Z (128 - n * h) / 2) (inject_Z h / 2)
              == inject_Z (128 - n * h + h) / 2).
  { unfold add64. apply round64_halves; [q_lia | lia]. }
  rewrite E. unfold add64. apply round64_halves; [q_lia | lia].
Qed.

Lemma lineCentre_whole (i : nat) :
  (i <= List.length (linesOf s))%nat ->
  lineCentre s i
  == inject_Z (128 - Z.of_nat (List.length (linesOf s)) * h + h
               + 2 * offsetY s + 2 * (Z.of_nat i * h)) / 2.
Proof.
  intros Hi. set (n := Z.of_nat (List.length (linesOf s))).
  pose proof (slots_small n ltac:(unfold n; lia)) as B.
  pose proof (slots_small (Z.of_nat i) ltac:(lia)) as Bi.
  assert (G : mul64 (inject_Z (Z.of_nat i)) (lineHeightPx s)
              == inject_Z (Z.of_nat i * h)).
  { unfold mul64. rewrite whole, <- inject_Z_mult. apply round64_Z. lia. }
  unfold lineCentre. rewrite G, startY_whole. fold n.
  unfold add64. apply round64_halves; [q_lia | lia].
Qed.


End WholeLineHeight.

(** With line height 1 the line height in pixels is the font size. *)
Lemma lineHeightPx_unit (s : State) :
  lineHeight s == 1 -> (Z.abs (fontSize s) < 2 ^ 53)%Z ->
  lineHeightPx s == inject_Z (fontSize s).
Proof.
  intros H1 Hf. unfold lineHeightPx, mul64. rewrite H1.
  assert (R1 : round64 1 == 1) by (vm_compute; reflexivity).
  rewrite R1, Qmult_1_r. now apply round64_Z.
Qed.




(** ** Background: C7 *)

Section BufferFacts.
Variable covers : list canvas_op -> jsstring -> Z -> Q -> Z * Z -> bool.
Variable p : Z * Z.

Lemma composite_only_glyphs (ops : list canvas_op) :
  Forall (fun op => isFillRect op = false) ops ->
  forall before acc,
    Forall (fun l => l = Glyph) acc ->
    Forall (fun l => l = Glyph) (composite covers p before acc ops).
Proof.
  induction 1 as [|op ops Hop _ IH]; intros before acc Hacc; simpl;
    [exact Hacc|].
  apply IH. destruct op; simpl; try exact Hacc; try discriminate.
  - destruct (inRect x y w h p); [constructor | exact Hacc].
  - destruct (covers before t x y p); [now constructor | exact Hacc].
Qed.

Lemma composite_untouched (ops : list canvas_op) :
  Forall (fun op => isFillRect op = false) ops ->
  outsideGlyphs covers ops p ->
  forall before, composite covers p before [] ops = [].
Proof.
  induction 1 as [|op ops Hop _ IH]; intros Hout before; simpl;
    [reflexivity|].
  assert (E : paint covers p before [] op = []).
  { destruct op; simpl; try reflexivity; try discriminate.
    - now destruct (inRect x y w h p).
    - now rewrite (Hout before t x y (or_introl eq_refl)). }
  rewrite E. apply IH.
  intros b t x y Hin. apply Hout. now right.
Qed.
End BufferFacts.

Lemma drawLines_no_fillRect (x : Z) (y0 step : Q) (lines : list jsstring) :
  forall k, Forall (fun op => isFillRect op = false) (drawLines x y0 step k lines).
Proof.
  induction lines as [|[|c l] rest IH]; intros k; simpl;
    [constructor | apply IH | constructor; [reflexivity | apply IH]].
Qed.

Lemma render_no_fillRect (s : State) :
  drawBackground s = [] ->
  Forall (fun op => isFillRect op = false) (renderExportCanvas s).
Proof.
  intros H. unfold renderExportCanvas. rewrite H.
  repeat (apply Forall_app; split); try apply drawLines_no_fillRect;
    repeat constructor.
Qed.

Lemma no_background_layer (l : list layer) :
  Forall (fun x => x = Glyph) l -> ~ In Background l.
Proof.
  intros H Hin. rewrite Forall_forall in H. specialize (H _ Hin). discriminate.
Qed.

(** With no background drawn, a pixel holds glyph layers only, and none
    at all outside the glyphs. *)
Lemma text_over_transparency covers (s : State) (p : Z * Z) :
  drawBackground s = [] ->
  ~ In Background (layersAt covers p (renderExportCanvas s))
  /\ (outsideGlyphs covers (renderExportCanvas s) p ->
      layersAt covers p (renderExportCanvas s) = []).
Proof.
  intros H. pose proof (render_no_fillRect s H) as NF. split.
  - apply no_background_layer, composite_only_glyphs; [exact NF | constructor].
  - intros Hout. now apply composite_untouched.
Qed.

Lemma hexToRgb_rejects (v : value) :
  ~ optHashHex6 (trim (ToString v)) -> hexToRgb v = None.
Proof.
  intros Hn. unfold hexToRgb, match_hex_optional_hash.
  destruct (trim (ToString v)) as [|c m]; [reflexivity|].
  destruct (c =? 35)%N eqn:Ec.
  - apply N.eqb_eq in Ec. subst c.
    destruct (hex6 m) eqn:Eh; [|reflexivity].
    exfalso. apply Hn. exists m. split; [now right | now apply hex6_spec].
  - destruct (hex6 (c :: m)) eqn:Eh; [|reflexivity].
    exfalso. apply Hn. exists (c :: m). split; [now left | now apply hex6_spec].
Qed.

Lemma render_ignores_background_settings (s : State) (c : value) (a : Q) :
  bgTransparent s = true ->
  renderExportCanvas (set_bgColor c (set_bgAlpha a s)) = renderExportCanvas s.
Proof.
  intros H. unfold renderExportCanvas, drawBackground.
  cbn [set_bgColor set_bgAlpha bgTransparent]. rewrite H. reflexivity.
Qed.

(** C7. With [bgTransparent] set, nothing is drawn for the background,
    whatever [bgColor] and [bgAlpha] hold: no pixel carries a background
    layer, and a pixel outside the glyphs is left transparent. *)
Theorem C7_transparent_skips_background covers (s : State) (p : Z * Z) :
  bgTransparent s = true ->
  drawBackground s = []
  /\ (forall c a,
        renderExportCanvas (set_bgColor c (set_bgAlpha a s)) = renderExportCanvas s)
  /\ ~ In Background (layersAt covers p (renderExportCanvas s))
  /\ (outsideGlyphs covers (renderExportCanvas s) p ->
      layersAt covers p (renderExportCanvas s) = []).
Proof.
  intros H.
  assert (B : drawBackground s = []) by (unfold drawBackground; now rewrite H).
  split; [exact B|].
  split; [intros c a; now apply render_ignores_background_settings|].
  now apply text_over_transparency.
Qed.

Lemma C7_transparent_skips_background_witness :
  drawBackground transparentRed = []
  /\ ~ In Background (layersAt dotGlyphs (3, 5)%Z (renderExportCanvas transparentRed)).
Proof.
  destruct (C7_transparent_skips_background dotGlyphs transparentRed (3, 5)%Z)
    as (H1 & _ & H3 & _); [reflexivity|].
  split; [exact H1 | exact H3].
Defined.

(** ** Frame batching: C5 *)

Lemma sameSchedule_refl (w : World) : sameSchedule w w.
Proof. now repeat split. Qed.

Lemma sameSchedule_trans (a b c : World) :
  sameSchedule a b -> sameSchedule b c -> sameSchedule a c.
Proof.
  intros (A1 & A2 & A3 & A4) (B1 & B2 & B3 & B4).
  repeat split; congruence.
Qed.

Lemma with_state_same (s : State) (w : World) : sameSchedule w (with_state s w).
Proof. now repeat split. Qed.

Lemma ensureFontLoaded_same (f : jsstring) (w : World) :
  sameSchedule w (ensureFontLoaded f w) /\ state (ensureFontLoaded f w) = state w.
Proof.
  unfold ensureFontLoaded. destruct (negb (fontsAvailable w)); now repeat split.
Qed.

(** What one call of [scheduleRender] does to the scheduler. *)
Lemma scheduleRender_effect (w : World) :
  state (scheduleRender w) = state w
  /\ renders (scheduleRender w) = renders w
  /\ scheduleCalls (scheduleRender w) = S (scheduleCalls w)
  /\ fontLoadToken (scheduleRender w) = fontLoadToken w
  /\ fontLoads (scheduleRender w) = fontLoads w
  /\ (idle w -> pending (scheduleRender w))
  /\ (pending w -> rafId (scheduleRender w) = rafId w
                   /\ frameCallbacks (scheduleRender w) = frameCallbacks w).
Proof.
  unfold scheduleRender.
  destruct (rafId w =? 0)%Z eqn:E; simpl; repeat split; trivial.
  - intros [_ Hc]. exists (nextFrameHandle w). rewrite Hc. now split.
  - destruct H as (h & Hr & _). apply Z.eqb_eq in E. congruence.
  - destruct H as (h & Hr & _). apply Z.eqb_eq in E. congruence.
  - intros [Hr _]. apply Z.eqb_neq in E. contradiction.
Qed.

(** Every listener other than the frame callback either leaves the
    scheduler alone or amounts, for the scheduler, to one call of
    [scheduleRender]. *)
Lemma step_schedules_at_most_once (e : event) (w : World) :
  isFrame e = false ->
  sameSchedule w (step e w)
  \/ exists w1, sameSchedule w w1 /\ sameSchedule (scheduleRender w1) (step e w).
Proof.
  intros He. destruct e; try discriminate; simpl.
  - right. eexists. split; [apply with_state_same | apply sameSchedule_refl].
  - right. eexists. split; [apply with_state_same | apply sameSchedule_refl].
  - right. eexists. split; [apply with_state_same | apply sameSchedule_refl].
  - right. eexists. split; [apply with_state_same | apply ensureFontLoaded_same].
  - right. eexists. split; [|apply sameSchedule_refl].
    eapply sameSchedule_trans; [apply with_state_same | apply ensureFontLoaded_same].
  - right. exists w. split; apply sameSchedule_refl.
  - unfold fontSettled.
    destruct (negb (existsb _ (fontLoads w))); [left; apply sameSchedule_refl|].
    destruct (token =? fontLoadToken w)%Z.
    + right. eexists. split; [|apply sameSchedule_refl]. now repeat split.
    + left. now repeat split.
Qed.

(** Between two frames: nothing is rendered, and either no call was made
    and the scheduler is as before, or calls were made and one frame is
    pending. *)
Lemma run_between_frames (es : list event) :
  Forall (fun e => isFrame e = false) es ->
  forall w, idle w \/ pending w ->
    renders (run es w) = renders w
    /\ ((rafId (run es w) = rafId w /\ frameCallbacks (run es w) = frameCallbacks w
         /\ scheduleCalls (run es w) = scheduleCalls w)
        \/ (pending (run es w) /\ (scheduleCalls w < scheduleCalls (run es w))%nat)).
Proof.
  induction 1 as [|e es He _ IH]; intros w Hw.
  - simpl. split; [reflexivity|]. left. now repeat split.
  - change (run (e :: es) w) with (run es (step e w)).
    destruct (step_schedules_at_most_once e w He)
      as [(S1 & S2 & S3 & S4) | (w1 & (A1 & A2 & A3 & A4) & (S1 & S2 & S3 & S4))].
    + assert (Hw' : idle (step e w) \/ pending (step e w)).
      { destruct Hw as [[Hr Hc] | (h & Hr & Hc)].
        - left. split; congruence.
        - right. exists h. split; congruence. }
      destruct (IH _ Hw') as (R & C). split; [congruence|].
      destruct C as [(C1 & C2 & C3) | (C1 & C2)].
      * left. repeat split; congruence.
      * right. split; [exact C1 | lia].
    + destruct (scheduleRender_effect w1) as (_ & E2 & E3 & _ & _ & E6 & E7).
      assert (Hp : pending (step e w)).
      { destruct Hw as [[Hr Hc] | (h & Hr & Hc)].
        - destruct E6 as (h & Hr' & Hc'); [split; congruence|].
          exists h. split; congruence.
        - destruct E7 as (Hr' & Hc'); [exists h; split; congruence|].
          exists h. split; congruence. }
      destruct (IH _ (or_intror Hp)) as (R & C). split; [congruence|].
      right. destruct C as [(C1 & C2 & C3) | (C1 & C2)].
      * split; [|lia]. destruct Hp as (h & Hr & Hc).
        exists h. split; congruence.
      * split; [exact C1 | lia].
Qed.

Lemma animationFrame_pending (w : World) :
  pending w ->
  renders (animationFrame w) = renders w ++ [(state w, 0%Z)]
  /\ idle (animationFrame w)
  /\ scheduleCalls (animationFrame w) = scheduleCalls w
  /\ state (animationFrame w) = state w.
Proof.
  intros (h & _ & Hc). unfold animationFrame. rewrite Hc. simpl.
  repeat split.
Qed.

(** The state changes only in listeners that also call [scheduleRender]. *)
Lemma state_changes_only_with_schedule (e : event) (w : World) :
  scheduleCalls (step e w) = scheduleCalls w -> state (step e w) = state w.
Proof.
  assert (Frames : forall l v,
    state (fold_left (fun w' (_ : positive) => frameCallback w') l v) = state v).
  { induction l as [|x l IH]; intros v; simpl; [reflexivity|]. now rewrite IH. }
  assert (Sched : forall v, scheduleCalls (scheduleRender v) = scheduleCalls w ->
                            scheduleCalls v = scheduleCalls w -> False).
  { intros v H1 H2. destruct (scheduleRender_effect v) as (_ & _ & E & _). lia. }
  destruct e; unfold step; intros H.
  - exfalso. apply (Sched _ H). reflexivity.
  - exfalso. apply (Sched _ H). reflexivity.
  - exfalso. apply (Sched _ H). reflexivity.
  - exfalso.
    destruct (ensureFontLoaded_same (fontSelect d) (onAnyInput d w))
      as ((_ & _ & _ & C) & _).
    rewrite C in H. apply (Sched _ H). reflexivity.
  - exfalso. apply (Sched _ H).
    destruct (ensureFontLoaded_same (ToString (fontFamily (state (with_state DEFAULT_STATE w))))
                (with_state DEFAULT_STATE w)) as ((_ & _ & _ & C) & _).
    exact C.
  - exfalso. apply (Sched _ H). reflexivity.
  - unfold fontSettled in *.
    destruct (negb (existsb _ (fontLoads w))); [reflexivity|].
    destruct (token =? fontLoadToken w)%Z; [|reflexivity].
    exfalso. apply (Sched _ H). reflexivity.
  - unfold animationFrame. now rewrite Frames.
Qed.

(** C5. From an idle scheduler, [N >= 1] calls of [scheduleRender] made by
    listeners before the next frame draw nothing themselves; the frame
    then renders exactly once, with the state as it is when the frame
    fires (the state of the last call: it changes only in listeners that
    call [scheduleRender]), [rafId] being back to 0 when the rendering
    starts, and the scheduler is idle afterwards. *)
Theorem C5_schedule_coalesces (w : World) (es : list event) (N : nat) :
  idle w ->
  Forall (fun e => isFrame e = false) es ->
  scheduleCalls (run es w) = (scheduleCalls w + N)%nat ->
  (1 <= N)%nat ->
  let fired := run es w in
  renders fired = renders w
  /\ renders (step Frame fired) = renders w ++ [(state fired, 0%Z)]
  /\ idle (step Frame fired)
  /\ scheduleCalls (step Frame fired) = scheduleCalls fired
  /\ (forall e v, scheduleCalls (step e v) = scheduleCalls v ->
                  state (step e v) = state v).
Proof.
  intros Hidle Hes HN H1 fired. subst fired.
  destruct (run_between_frames es Hes w (or_introl Hidle)) as (R & C).
  destruct C as [(_ & _ & C) | (Hp & _)]; [lia|].
  destruct (animationFrame_pending _ Hp) as (F1 & F2 & F3 & _).
  split; [exact R|]. simpl step. rewrite F1, R.
  split; [reflexivity|]. split; [exact F2|]. split; [exact F3|].
  apply state_changes_only_with_schedule.
Qed.

Lemma C5_schedule_coalesces_witness :
  let es := [Input defaultControls; Resize; Input garbledControls] in
  renders (step Frame (run es bootWorld))
  = [(fst (readControlsIntoState garbledControls DEFAULT_STATE), 0%Z)].
Proof.
  intros es.
  destruct (C5_schedule_coalesces bootWorld es 3) as (_ & H & _).
  - split; reflexivity.
  - repeat constructor.
  - reflexivity.
  - lia.
  - exact H.
Defined.

(** ** Font loading: C6 *)

Lemma frames_keep_fonts (l : list positive) (v : World) :
  let v' := fold_left (fun w' (_ : positive) => frameCallback w') l v in
  fontLoadToken v' = fontLoadToken v /\ fontLoads v' = fontLoads v.
Proof.
  revert v. induction l as [|x l IH]; intros v; simpl; [now split|].
  destruct (IH (frameCallback v)) as [E1 E2]. now rewrite E1, E2.
Qed.

Lemma quiet_step_keeps_fonts (e : event) (w : World) :
  fontQuiet e = true ->
  fontLoadToken (step e w) = fontLoadToken w /\ fontLoads (step e w) = fontLoads w.
Proof.
  intros He. destruct e; try discriminate; unfold step, onAnyInput;
    try (match goal with |- context [scheduleRender ?v] =>
           destruct (scheduleRender_effect v) as (_ & _ & _ & E1 & E2 & _) end;
         rewrite E1, E2; now split).
  unfold animationFrame.
  match goal with |- context [fold_left _ ?l ?v] =>
    destruct (frames_keep_fonts l v) as [E1 E2] end.
  now rewrite E1, E2.
Qed.

Lemma quiet_run_keeps_fonts (es : list event) :
  Forall (fun e => fontQuiet e = true) es ->
  forall w, fontLoadToken (run es w) = fontLoadToken w
            /\ fontLoads (run es w) = fontLoads w.
Proof.
  induction 1 as [|e es He _ IH]; intros w; [now split|].
  change (run (e :: es) w) with (run es (step e w)).
  destruct (IH (step e w)) as [E1 E2].
  destruct (quiet_step_keeps_fonts e w He) as [Q1 Q2].
  split; congruence.
Qed.

(** A load that was superseded settles without touching the scheduler. *)
Lemma fontSettled_stale (token : Z) (ok : bool) (w : World) :
  token <> fontLoadToken w ->
  sameSchedule w (fontSettled token ok w)
  /\ state (fontSettled token ok w) = state w
  /\ fontLoadToken (fontSettled token ok w) = fontLoadToken w
  /\ (forall t f, t <> token -> In (t, f) (fontLoads w) ->
                  In (t, f) (fontLoads (fontSettled token ok w))).
Proof.
  intros Hne. unfold fontSettled.
  destruct (negb (existsb _ (fontLoads w))); [now repeat split|].
  apply Z.eqb_neq in Hne. rewrite Hne. simpl.
  repeat split. intros t f Ht Hin. apply filter_In. split; [exact Hin|].
  simpl. apply negb_true_iff, Z.eqb_neq. exact Ht.
Qed.

(** The load of the latest request, once settled, calls [scheduleRender]
    exactly once, whether it succeeded or not. *)
Lemma fontSettled_current (family : jsstring) (ok : bool) (w : World) :
  In (fontLoadToken w, family) (fontLoads w) ->
  scheduleCalls (fontSettled (fontLoadToken w) ok w) = S (scheduleCalls w)
  /\ renders (fontSettled (fontLoadToken w) ok w) = renders w.
Proof.
  intros Hin. unfold fontSettled.
  assert (E : existsb (fun l => (fst l =? fontLoadToken w)%Z) (fontLoads w) = true).
  { apply existsb_exists. exists (fontLoadToken w, family).
    split; [exact Hin | apply Z.eqb_refl]. }
  rewrite E, Z.eqb_refl. simpl negb. cbv iota.
  match goal with |- context [scheduleRender ?v] =>
    destruct (scheduleRender_effect v) as (_ & E2 & E3 & _) end.
  now rewrite E2, E3.
Qed.

Lemma ensureFontLoaded_issues (family : jsstring) (w : World) :
  fontsAvailable w = true ->
  fontLoadToken (ensureFontLoaded family w) = (fontLoadToken w + 1)%Z
  /\ fontLoads (ensureFontLoaded family w)
     = fontLoads w ++ [((fontLoadToken w + 1)%Z, family)]
  /\ fontsAvailable (ensureFontLoaded family w) = true.
Proof.
  intros H. unfold ensureFontLoaded. rewrite H. simpl. now repeat split.
Qed.

Lemma quiet_run_keeps_fontsAvailable (es : list event) :
  Forall (fun e => fontQuiet e = true) es ->
  forall w, fontsAvailable (run es w) = fontsAvailable w.
Proof.
  assert (Frames : forall l v,
    fontsAvailable (fold_left (fun w' (_ : positive) => frameCallback w') l v)
    = fontsAvailable v).
  { induction l as [|x l IH]; intros v; simpl; [reflexivity|]. now rewrite IH. }
  assert (Sched : forall v, fontsAvailable (scheduleRender v) = fontsAvailable v).
  { intros v. unfold scheduleRender. now destruct (negb (rafId v =? 0)%Z). }
  induction 1 as [|e es He _ IH]; intros w; [reflexivity|].
  change (run (e :: es) w) with (run es (step e w)). rewrite IH.
  destruct e; try discriminate; unfold step, onAnyInput;
    try (rewrite Sched; reflexivity).
  unfold animationFrame. now rewrite Frames.
Qed.

Lemma fontSettled_keeps_token (token : Z) (ok : bool) (w : World) :
  fontLoadToken (fontSettled token ok w) = fontLoadToken w.
Proof.
  unfold fontSettled.
  destruct (negb (existsb _ (fontLoads w))); [reflexivity|].
  destruct (token =? fontLoadToken w)%Z; [|reflexivity].
  match goal with |- context [scheduleRender ?v] =>
    destruct (scheduleRender_effect v) as (_ & _ & _ & E & _) end.
  now rewrite E.
Qed.

(** C6. [ensure(A)] then [ensure(B)], with [B] issued before the load of
    [A] settles. Whatever the order in which the two loads settle, and
    whether they succeed or fail: the settling of [A] leaves the scheduler
    and the state untouched (its token is no longer the current one), and
    the settling of [B] calls [scheduleRender] exactly once. Other
    listeners may run in between, as long as they request no font. *)
Theorem C6_font_supersession (w : World) (A B : jsstring)
  (es0 es1 es2 : list event) (okA okB : bool) :
  fontsAvailable w = true ->
  Forall (fun e => fontQuiet e = true) es0 ->
  Forall (fun e => fontQuiet e = true) es1 ->
  Forall (fun e => fontQuiet e = true) es2 ->
  let ta := (fontLoadToken w + 1)%Z in
  let tb := (ta + 1)%Z in
  let issued := run es1 (ensureFontLoaded B (run es0 (ensureFontLoaded A w))) in
  (fontLoadToken issued = tb /\ ta <> tb)
  /\ (let afterA := fontSettled ta okA issued in
      let beforeB := run es2 afterA in
      sameSchedule issued afterA /\ state afterA = state issued
      /\ scheduleCalls (fontSettled tb okB beforeB) = S (scheduleCalls beforeB)
      /\ renders (fontSettled tb okB beforeB) = renders beforeB)
  /\ (let afterB := fontSettled tb okB issued in
      let beforeA := run es2 afterB in
      scheduleCalls afterB = S (scheduleCalls issued)
      /\ sameSchedule beforeA (fontSettled ta okA beforeA)
      /\ state (fontSettled ta okA beforeA) = state beforeA).
Proof.
  intros Hf H0 H1 H2 ta tb issued.
  destruct (ensureFontLoaded_issues A w Hf) as (A1 & _ & A3).
  destruct (quiet_run_keeps_fonts es0 H0 (ensureFontLoaded A w)) as (Q1 & _).
  pose proof (quiet_run_keeps_fontsAvailable es0 H0 (ensureFontLoaded A w)) as Q3.
  rewrite A3 in Q3.
  destruct (ensureFontLoaded_issues B _ Q3) as (B1 & B2 & _).
  destruct (quiet_run_keeps_fonts es1 H1
              (ensureFontLoaded B (run es0 (ensureFontLoaded A w)))) as (I1 & I2).
  fold issued in I1, I2.
  assert (Tok : fontLoadToken issued = tb)
    by (rewrite I1, B1, Q1, A1; reflexivity).
  assert (Ne : ta <> tb) by (unfold tb; lia).
  assert (InB : In (tb, B) (fontLoads issued)).
  { rewrite I2, B2. apply in_or_app. right. left.
    rewrite Q1, A1. reflexivity. }
  split; [now split|]. split.
  - intros afterA beforeB.
    assert (Stale : ta <> fontLoadToken issued) by (rewrite Tok; exact Ne).
    destruct (fontSettled_stale ta okA issued Stale) as (S1 & S2 & S3 & S4).
    fold afterA in S1, S2, S3, S4.
    destruct (quiet_run_keeps_fonts es2 H2 afterA) as (R1 & R2).
    fold beforeB in R1, R2.
    assert (TokB : fontLoadToken beforeB = tb) by congruence.
    assert (InB' : In (fontLoadToken beforeB, B) (fontLoads beforeB)).
    { rewrite TokB, R2. apply S4; [congruence | exact InB]. }
    split; [exact S1|]. split; [exact S2|].
    rewrite <- TokB. exact (fontSettled_current B okB beforeB InB').
  - intros afterB beforeA.
    assert (InB' : In (fontLoadToken issued, B) (fontLoads issued))
      by (rewrite Tok; exact InB).
    destruct (fontSettled_current B okB issued InB') as (C1 & _).
    rewrite Tok in C1. fold afterB in C1.
    split; [exact C1|].
    destruct (quiet_run_keeps_fonts es2 H2 afterB) as (R1 & _).
    fold beforeA in R1.
    assert (Stale : ta <> fontLoadToken beforeA).
    { rewrite R1. unfold afterB. rewrite fontSettled_keeps_token, Tok. exact Ne. }
    destruct (fontSettled_stale ta okA beforeA Stale) as (S1 & S2 & _).
    split; [exact S1 | exact S2].
Qed.

Lemma C6_font_supersession_witness :
  let issued :=
    run [Input defaultControls]
      (ensureFontLoaded (js "Roboto") (ensureFontLoaded (js "Inter") bootWorld)) in
  scheduleCalls (fontSettled 1 false issued) = scheduleCalls issued
  /\ scheduleCalls (fontSettled 2 true (run [Frame] (fontSettled 1 false issued)))
     = S (scheduleCalls (run [Frame] (fontSettled 1 false issued))).
Proof.
  intros issued.
  destruct (C6_font_supersession bootWorld (js "Inter") (js "Roboto")
              [] [Input defaultControls] [Frame] false true)
    as (_ & (S1 & _ & H & _) & _).
  - reflexivity.
  - constructor.
  - repeat constructor.
  - repeat constructor.
  - split; [apply S1 | exact H].
Defined.

(** * Further properties of the code *)

(** ** Newlines and lines *)

(** What follows a carriage return once it became a line feed. *)
Lemma replaceCRLF_CR (s : jsstring) :
  replaceCRLF (13%N :: s)
  = 10%N :: replaceCRLF (match s with
                         | c :: s' => if (c =? 10)%N then s' else s
                         | [] => []
                         end).
Proof.
  destruct s as [|c s']; [reflexivity|].
  destruct c as [|p]; [reflexivity|].
  do 4 (try destruct p as [p|p|]); reflexivity.
Qed.

Lemma replaceCRLF_other (c : N) (s : jsstring) :
  c <> 13%N -> replaceCRLF (c :: s) = c :: replaceCRLF s.
Proof.
  intros H. destruct c as [|p]; [reflexivity|].
  do 4 (try destruct p as [p|p|]); try reflexivity. congruence.
Qed.

Lemma replaceCRLF_by_length (P : jsstring -> jsstring -> Prop) :
  P [] [] ->
  (forall s, P s (replaceCRLF s) -> P (13%N :: s) (10%N :: replaceCRLF s)) ->
  (forall s, P s (replaceCRLF s) ->
             P (13%N :: 10%N :: s) (10%N :: replaceCRLF s)) ->
  (forall c s, c <> 13%N -> P s (replaceCRLF s) -> P (c :: s) (c :: replaceCRLF s)) ->
  forall s, P s (replaceCRLF s).
Proof.
  intros H0 HCR HCRLF Hother s.
  assert (G : forall n s, (List.length s <= n)%nat -> P s (replaceCRLF s)).
  { induction n as [|n IH]; intros t Hlen.
    - destruct t; [exact H0 | simpl in Hlen; lia].
    - destruct t as [|c t]; [exact H0|]. simpl in Hlen.
      destruct (N.eq_dec c 13) as [-> | Hc].
      + rewrite replaceCRLF_CR. destruct t as [|c' t'].
        * apply (HCR []). exact H0.
        * destruct (c' =? 10)%N eqn:E.
          -- apply N.eqb_eq in E. subst c'. apply HCRLF, IH. simpl in Hlen. lia.
          -- apply HCR, IH. lia.
      + rewrite (replaceCRLF_other _ _ Hc). apply Hother; [exact Hc|].
        apply IH. lia. }
  apply (G (List.length s)). lia.
Qed.

Lemma replaceCRLF_no_CR (s : jsstring) : ~ In 13%N (replaceCRLF s).
Proof.
  apply (replaceCRLF_by_length (fun _ out => ~ In 13%N out)).
  - intros [].
  - intros t IH [E | H]; [discriminate | contradiction].
  - intros t IH [E | H]; [discriminate | contradiction].
  - intros c t Hc IH [E | H]; [congruence | contradiction].
Qed.

Lemma replaceCRLF_fixed (s : jsstring) : ~ In 13%N s -> replaceCRLF s = s.
Proof.
  induction s as [|c s IH]; intros H; [reflexivity|].
  rewrite replaceCRLF_other by (intros ->; apply H; now left).
  f_equal. apply IH. intros Hin. apply H. now right.
Qed.

Lemma replaceCRLF_length (s : jsstring) :
  (List.length (replaceCRLF s) <= List.length s)%nat.
Proof.
  apply (replaceCRLF_by_length
           (fun a out => (List.length out <= List.length a)%nat)); simpl; intros; lia.
Qed.

(** X1. [normalizeNewlines] leaves no carriage return, never makes the
    text longer, leaves a text without carriage returns as it is, and
    doing it twice is doing it once. *)
Theorem X1_normalizeNewlines_no_CR (v : value) :
  ~ In 13%N (normalizeNewlines v)
  /\ (List.length (normalizeNewlines v) <= List.length (ToString v))%nat
  /\ (~ In 13%N (ToString v) -> normalizeNewlines v = ToString v)
  /\ normalizeNewlines (VStr (normalizeNewlines v)) = normalizeNewlines v.
Proof.
  unfold normalizeNewlines. simpl ToString.
  split; [apply replaceCRLF_no_CR|].
  split; [apply replaceCRLF_length|].
  split; [apply replaceCRLF_fixed|].
  apply replaceCRLF_fixed, replaceCRLF_no_CR.
Qed.

Lemma X1_normalizeNewlines_no_CR_witness :
  normalizeNewlines (VStr (js "a b")) = js "a b".
Proof.
  apply (proj1 (proj2 (proj2 (X1_normalizeNewlines_no_CR (VStr (js "a b")))))).
  simpl. intros H. repeat (destruct H as [H | H]; [discriminate|]). exact H.
Defined.

Lemma splitLines_nonempty (s : jsstring) : splitLines s <> [].
Proof.
  destruct s as [|c s]; simpl; [discriminate|].
  destruct (c =? 10)%N; [discriminate|]. now destruct (splitLines s).
Qed.

Lemma splitLines_join (s : jsstring) : join [10%N] (splitLines s) = s.
Proof.
  induction s as [|c s IH]; [reflexivity|]. simpl splitLines.
  destruct (c =? 10)%N eqn:E.
  - apply N.eqb_eq in E. subst c.
    pose proof (splitLines_nonempty s) as Hne.
    destruct (splitLines s) as [|l ls] eqn:L; [congruence|].
    change (join [10%N] ([] :: l :: ls)) with (10%N :: join [10%N] (l :: ls)).
    now rewrite IH.
  - pose proof (splitLines_nonempty s) as Hne.
    destruct (splitLines s) as [|l ls] eqn:L; [congruence|].
    rewrite <- IH. destruct ls; reflexivity.
Qed.

Lemma splitLines_no_LF (s : jsstring) :
  Forall (fun l => ~ In 10%N l) (splitLines s).
Proof.
  induction s as [|c s IH]; simpl; [repeat constructor; intros []|].
  destruct (c =? 10)%N eqn:E.
  - constructor; [intros [] | exact IH].
  - destruct (splitLines s) as [|l ls]; [repeat constructor; intros [H | []]|].
    + apply N.eqb_neq in E. congruence.
    + inversion IH as [|? ? Hl Hls]; subst. constructor; [|exact Hls].
      intros [H | H]; [apply N.eqb_neq in E; congruence | contradiction].
Qed.

Lemma splitLines_units (s : jsstring) (l : jsstring) (c : N) :
  In l (splitLines s) -> In c l -> In c s.
Proof.
  revert l. induction s as [|x s IH]; intros l Hl Hc; simpl in Hl.
  - destruct Hl as [<- | []]. contradiction.
  - destruct (x =? 10)%N.
    + destruct Hl as [<- | Hl]; [contradiction|]. right. eapply IH; eauto.
    + destruct (splitLines s) as [|l0 ls] eqn:L.
      * destruct Hl as [<- | []]. destruct Hc as [<- | []]. now left.
      * destruct Hl as [<- | Hl].
        -- destruct Hc as [<- | Hc]; [now left|]. right.
           apply (IH l0); [now left | exact Hc].
        -- right. apply (IH l); [now right | exact Hc].
Qed.

Lemma splitLines_count (s : jsstring) :
  List.length (splitLines s) = S (count_occ N.eq_dec s 10%N).
Proof.
  induction s as [|c s IH]; [reflexivity|]. simpl splitLines.
  destruct (c =? 10)%N eqn:E.
  - apply N.eqb_eq in E. subst c. rewrite count_occ_cons_eq by reflexivity.
    simpl. now rewrite IH.
  - apply N.eqb_neq in E. rewrite count_occ_cons_neq by exact E.
    rewrite <- IH. now destruct (splitLines s).
Qed.

(** X2. The lines the rasteriser draws are the text cut at its line
    feeds and nothing else: joined by line feeds they give back the
    normalised text, no line holds a line feed or a carriage return, and
    there is one line more than there are line feeds (so at least one). *)
Theorem X2_lines_partition_text (s : State) :
  join [10%N] (linesOf s) = normalizeNewlines (text s)
  /\ Forall (fun l => ~ In 10%N l /\ ~ In 13%N l) (linesOf s)
  /\ List.length (linesOf s)
     = S (count_occ N.eq_dec (normalizeNewlines (text s)) 10%N).
Proof.
  unfold linesOf. split; [apply splitLines_join|]. split; [|apply splitLines_count].
  apply Forall_forall. intros l Hl. split.
  - pose proof (splitLines_no_LF (normalizeNewlines (text s))) as H.
    rewrite Forall_forall in H. now apply H.
  - intros Hc. apply (replaceCRLF_no_CR (ToString (text s))).
    exact (splitLines_units _ _ _ Hl Hc).
Qed.

(** ** Colours *)

Lemma hexDigit_bounds (c : N) : isHexDigit c = true -> (48 <= c <= 102)%N.
Proof.
  unfold isHexDigit, isDigit.
  rewrite !orb_true_iff, !andb_true_iff, !N.leb_le. lia.
Qed.

Lemma hexDigitValue_bound (c : N) :
  isHexDigit c = true -> (0 <= Z.of_N (hexDigitValue c) < 16)%Z.
Proof.
  unfold isHexDigit, hexDigitValue, isDigit, isLower.
  rewrite !orb_true_iff, !andb_true_iff, !N.leb_le. intros H.
  destruct ((48 <=? c)%N && (c <=? 57)%N) eqn:E1.
  - apply andb_true_iff in E1. rewrite !N.leb_le in E1. lia.
  - destruct ((97 <=? c)%N && (c <=? 122)%N) eqn:E2.
    + apply andb_true_iff in E2. rewrite !N.leb_le in E2.
      apply andb_false_iff in E1. rewrite !N.leb_gt in E1. lia.
    + apply andb_false_iff in E1. apply andb_false_iff in E2.
      rewrite !N.leb_gt in E1, E2. lia.
Qed.

Lemma hexDigit_not_white (c : N) : isHexDigit c = true -> isWhiteSpace c = false.
Proof.
  intros H. apply hexDigit_bounds in H. unfold isWhiteSpace.
  decide_units. reflexivity.
Qed.

Lemma trimStart_head (c : N) (s : jsstring) :
  isWhiteSpace c = false -> trimStart (c :: s) = c :: s.
Proof. intros H. simpl. now rewrite H. Qed.

(** A text with no white space at all is left as it is by [trim]. *)
Lemma trim_clean (s : jsstring) :
  Forall (fun c => isWhiteSpace c = false) s -> trim s = s.
Proof.
  intros H. unfold trim, trimEnd.
  assert (T : forall t, Forall (fun c => isWhiteSpace c = false) t -> trimStart t = t).
  { intros t Ht. destruct Ht as [|c t Hc _]; [reflexivity|].
    now apply trimStart_head. }
  rewrite (T s H), (T (rev s)) by now apply Forall_rev.
  apply rev_involutive.
Qed.

Lemma hashHex6_clean (h : jsstring) :
  hashHex6 h -> Forall (fun c => isWhiteSpace c = false) h.
Proof.
  intros (m & -> & _ & Hm). constructor; [reflexivity|].
  eapply Forall_impl; [|exact Hm]. apply hexDigit_not_white.
Qed.

Lemma hashHex6_isColour (h : jsstring) : hashHex6 h -> isColour (VStr h) = true.
Proof.
  intros (m & -> & Hm). simpl. now apply hex6_spec.
Qed.

Lemma hexToRgb_accepts (v : value) :
  optHashHex6 (trim (ToString v)) -> exists c, hexToRgb v = Some c.
Proof.
  intros (m & Hs & Hm). pose proof Hm as [Hlen HF]. apply hex6_spec in Hm.
  unfold hexToRgb, match_hex_optional_hash.
  destruct Hs as [-> | ->].
  - destruct m as [|c m']; [discriminate|].
    destruct (c =? 35)%N eqn:Ec.
    + apply N.eqb_eq in Ec. subst c. inversion HF as [|? ? H35 _]. discriminate.
    + rewrite Hm. eauto.
  - rewrite N.eqb_refl, Hm. eauto.
Qed.

Lemma land_byte (x : Z) : (0 <= Z.land x 255 <= 255)%Z.
Proof.
  change 255%Z with (Z.ones 8). rewrite Z.land_ones by lia.
  change (2 ^ 8)%Z with 256%Z.
  pose proof (Z.mod_pos_bound x 256 ltac:(lia)) as H.
  change (Z.ones 8) with 255%Z. lia.
Qed.

Lemma channels_of_digits (v1 v2 v3 v4 v5 v6 : Z) :
  (0 <= v1 < 16 -> 0 <= v2 < 16 -> 0 <= v3 < 16 ->
   0 <= v4 < 16 -> 0 <= v5 < 16 -> 0 <= v6 < 16 ->
   let n := (((((0 * 16 + v1) * 16 + v2) * 16 + v3) * 16 + v4) * 16 + v5) * 16 + v6 in
   Z.land (Z.shiftr n 16) 255 = 16 * v1 + v2
   /\ Z.land (Z.shiftr n 8) 255 = 16 * v3 + v4
   /\ Z.land n 255 = 16 * v5 + v6)%Z.
Proof.
  intros H1 H2 H3 H4 H5 H6 n.
  change 255%Z with (Z.ones 8). rewrite !Z.land_ones, !Z.shiftr_div_pow2 by lia.
  change (2 ^ 8)%Z with 256%Z. change (2 ^ 16)%Z with 65536%Z.
  subst n. repeat split; Z.to_euclidean_division_equations; lia.
Qed.

(** X3. [hexToRgb] accepts exactly the texts that, trimmed, are six
    hexadecimal digits with or without a leading [#]; each channel it
    returns is within 0..255, and is 16 times the value of the first digit
    of its pair plus the value of the second. *)
Theorem X3_hexToRgb_channels (v : value) :
  ((exists c, hexToRgb v = Some c) <-> optHashHex6 (trim (ToString v)))
  /\ (forall c, hexToRgb v = Some c ->
        (0 <= r c <= 255 /\ 0 <= g c <= 255 /\ 0 <= b c <= 255)%Z)
  /\ (forall d1 d2 d3 d4 d5 d6,
        Forall (fun c => isHexDigit c = true) [d1; d2; d3; d4; d5; d6] ->
        trim (ToString v) = [d1; d2; d3; d4; d5; d6]
        \/ trim (ToString v) = 35%N :: [d1; d2; d3; d4; d5; d6] ->
        hexToRgb v
        = Some {| r := 16 * Z.of_N (hexDigitValue d1) + Z.of_N (hexDigitValue d2);
                  g := 16 * Z.of_N (hexDigitValue d3) + Z.of_N (hexDigitValue d4);
                  b := 16 * Z.of_N (hexDigitValue d5) + Z.of_N (hexDigitValue d6) |}).
Proof.
  split; [|split].
  - split; [|apply hexToRgb_accepts].
    intros (c & Hc). destruct (hexToRgb v) eqn:E; [|discriminate].
    unfold hexToRgb, match_hex_optional_hash in E.
    destruct (trim (ToString v)) as [|x m]; [discriminate|].
    destruct (x =? 35)%N eqn:Ex.
    + apply N.eqb_eq in Ex. subst x.
      destruct (hex6 m) eqn:Eh; [|discriminate].
      exists m. split; [now right | now apply hex6_spec].
    + destruct (hex6 (x :: m)) eqn:Eh; [|discriminate].
      exists (x :: m). split; [now left | now apply hex6_spec].
  - intros c Hc. unfold hexToRgb in Hc.
    destruct (match_hex_optional_hash (trim (ToString v))); [|discriminate].
    injection Hc as <-. simpl. repeat split; apply land_byte.
  - intros d1 d2 d3 d4 d5 d6 Hd Ht.
    assert (Hm : match_hex_optional_hash (trim (ToString v))
                 = Some [d1; d2; d3; d4; d5; d6]).
    { assert (H6 : hex6 [d1; d2; d3; d4; d5; d6] = true)
        by (apply hex6_spec; split; [reflexivity | exact Hd]).
      unfold match_hex_optional_hash. destruct Ht as [-> | ->].
      - destruct (d1 =? 35)%N eqn:E1.
        + apply N.eqb_eq in E1. subst d1. inversion Hd as [|? ? H1 _]. discriminate.
        + now rewrite H6.
      - now rewrite N.eqb_refl, H6. }
    unfold hexToRgb. rewrite Hm.
    repeat match goal with H : Forall _ (_ :: _) |- _ =>
      let Hx := fresh "Hx" in inversion H as [|? ? Hx ?]; subst; clear H;
      apply hexDigitValue_bound in Hx end.
    unfold parseHex. cbn [fold_left].
    destruct (channels_of_digits _ _ _ _ _ _ Hx Hx0 Hx1 Hx2 Hx3 Hx4) as (R & G & B).
    cbv zeta in R, G, B. now rewrite R, G, B.
Qed.

Lemma X3_hexToRgb_channels_witness :
  hexToRgb (VStr (js " #Ff0080 ")) = Some {| r := 255; g := 0; b := 128 |}.
Proof.
  destruct (X3_hexToRgb_channels (VStr (js " #Ff0080 "))) as (_ & _ & H).
  apply (H 70%N 102%N 48%N 48%N 56%N 48%N).
  - repeat constructor.
  - right. reflexivity.
Defined.

Lemma hex_or_isColour (v : jsstring) (fallback : value) :
  isColour fallback = true -> isColour (hex_or v fallback) = true.
Proof.
  intros Hf. unfold hex_or. destruct (normalizeHex (VStr v)) as [h|] eqn:E.
  - apply normalizeHex_accepts in E. now apply hashHex6_isColour.
  - exact Hf.
Qed.

Lemma isColour_parses (v : value) :
  isColour v = true -> exists c, hexToRgb v = Some c.
Proof.
  intros H. destruct v as [| | |s| |]; try discriminate.
  destruct s as [|x m]; [discriminate|]. simpl in H.
  apply andb_true_iff in H. destruct H as [Hx Hm].
  apply N.eqb_eq in Hx. subst x. apply hex6_spec in Hm.
  assert (Hh : hashHex6 (35%N :: m)) by (exists m; now split).
  apply hexToRgb_accepts. simpl ToString.
  rewrite (trim_clean _ (hashHex6_clean _ Hh)).
  exists m. split; [now right | exact Hm].
Qed.

(** X4. Whatever the controls hold, after they are read the stored text
    colour and background colour are of the exact form [#rrggbb]. (The
    alignment is stored as the select gives it, unchecked.) *)
Theorem X4_colours_valid_after_read (d : Controls) (s : State) :
  let s' := fst (readControlsIntoState d s) in
  isColour (textColor s') = true /\ isColour (bgColor s') = true
  /\ align s' = VStr (alignSelect d).
Proof.
  simpl. repeat split; now apply hex_or_isColour.
Qed.

(** X5. With the transparency box unticked, a state read from the controls
    always gets its background painted: the fill is never skipped for a
    colour that does not parse. The fill covers the whole canvas, in the
    stored colour at the stored opacity. *)
Theorem X5_background_painted_after_read (d : Controls) (s : State) :
  bgTransparent_el d = false ->
  let s' := fst (readControlsIntoState d s) in
  exists c, hexToRgb (bgColor s') = Some c
            /\ drawBackground s'
               = [fillStyle_rgba (r c) (g c) (b c) (bgAlpha s');
                  fillRect 0 0 128 128].
Proof.
  intros Ht s'.
  assert (Hb : isColour (bgColor s') = true)
    by (apply hex_or_isColour; reflexivity).
  destruct (isColour_parses _ Hb) as (c & Hc).
  exists c. split; [exact Hc|].
  unfold drawBackground. rewrite Hc.
  assert (E : bgTransparent s' = false) by exact Ht.
  now rewrite E.
Qed.

Lemma X5_background_painted_after_read_witness :
  drawBackground (fst (readControlsIntoState garbledControls DEFAULT_STATE))
  = [fillStyle_rgba 255 255 255 (inject_Z 0 / 100); fillRect 0 0 128 128].
Proof.
  destruct (X5_background_painted_after_read garbledControls DEFAULT_STATE eq_refl)
    as (c & Hc & H).
  vm_compute in Hc. injection Hc as <-. exact H.
Defined.

Lemma hashHex6_fixed (h : jsstring) : hashHex6 h -> normalizeHex (VStr h) = Some h.
Proof.
  intros H. apply normalizeHex_accepts. split; [|exact H].
  simpl ToString. symmetry. now apply trim_clean, hashHex6_clean.
Qed.

Lemma hex_or_hash (v f : jsstring) :
  hashHex6 f -> exists h, hex_or v (VStr f) = VStr h /\ hashHex6 h.
Proof.
  intros Hf. unfold hex_or. destruct (normalizeHex (VStr v)) as [h|] eqn:E.
  - apply normalizeHex_accepts in E. exists h. now split.
  - now exists f.
Qed.

Lemma default_textColor_hash : hashHex6 (js "#111827").
Proof. exists (js "111827"). repeat split. repeat constructor. Qed.

Lemma default_bgColor_hash : hashHex6 (js "#ffffff").
Proof. exists (js "ffffff"). repeat split. repeat constructor. Qed.

Lemma read_colours (d : Controls) (s : State) :
  let out := readControlsIntoState d s in
  textColor (fst out) = hex_or (textColor_el d) (textColor DEFAULT_STATE)
  /\ bgColor (fst out) = hex_or (bgColor_el d) (bgColor DEFAULT_STATE)
  /\ textColor_el (snd out) = textColor_el d
  /\ bgColor_el (snd out) = bgColor_el d
  /\ textColorHex (snd out) = toLowerCase (ToString (textColor (fst out)))
  /\ bgColorHex (snd out) = toLowerCase (ToString (bgColor (fst out))).
Proof. repeat split. Qed.

(** X7. Typing into a hex box leaves the page consistent: the stored
    colour is the typed one when it is of the form [#rrggbb] (trimmed) and
    the default otherwise; the colour control holds exactly the stored
    colour and the hex box its lowercase form. *)
Theorem X7_hex_box_keeps_page_consistent (d : Controls) (s : State) :
  (let out := onTextColorHexInput d s in
   textColor (fst out) = hex_or (textColorHex d) (textColor DEFAULT_STATE)
   /\ VStr (textColor_el (snd out)) = textColor (fst out)
   /\ textColorHex (snd out) = toLowerCase (ToString (textColor (fst out))))
  /\ (let out := onBgColorHexInput d s in
      bgColor (fst out) = hex_or (bgColorHex d) (bgColor DEFAULT_STATE)
      /\ VStr (bgColor_el (snd out)) = bgColor (fst out)
      /\ bgColorHex (snd out) = toLowerCase (ToString (bgColor (fst out)))).
Proof.
  split; intros out; subst out.
  - destruct (hex_or_hash (textColorHex d) _ default_textColor_hash) as (h & E & Hh).
    unfold onTextColorHexInput, setColorFromHexInput.
    change (textColor DEFAULT_STATE) with (VStr (js "#111827")).
    rewrite E. cbn [ToString]. cbv beta iota zeta.
    destruct (read_colours (set_textColor_els (toLowerCase h) h d) s)
      as (T & _ & C & _ & X & _).
    cbv zeta in T, C, X. rewrite C, X, T.
    cbn [textColor_el set_textColor_els].
    unfold hex_or. rewrite (hashHex6_fixed _ Hh). repeat split.
  - destruct (hex_or_hash (bgColorHex d) _ default_bgColor_hash) as (h & E & Hh).
    unfold onBgColorHexInput, setColorFromHexInput.
    change (bgColor DEFAULT_STATE) with (VStr (js "#ffffff")).
    rewrite E. cbn [ToString]. cbv beta iota zeta.
    destruct (read_colours (set_bgColor_els (toLowerCase h) h d) s)
      as (_ & T & _ & C & _ & X).
    cbv zeta in T, C, X. rewrite C, X, T.
    cbn [bgColor_el set_bgColor_els].
    unfold hex_or. rewrite (hashHex6_fixed _ Hh). repeat split.
Qed.

(** ** Numbers as text *)

Lemma sign_match (t : jsstring) :
  match t with
  | 45%N :: rest => (true, rest)
  | 43%N :: rest => (false, rest)
  | _ => (false, t)
  end = signOf t.
Proof.
  destruct t as [|c rest]; [reflexivity|].
  destruct c as [|p]; [reflexivity|].
  do 6 (try destruct p as [p|p|]); reflexivity.
Qed.

Lemma parseInt_signOf (s : jsstring) :
  parseInt s
  = match fst (span isDigit (snd (signOf (trimStart s)))) with
    | [] => None
    | ds => Some (roundToDouble (if fst (signOf (trimStart s))
                                 then (- digitsValue ds)%Z else digitsValue ds))
    end.
Proof.
  unfold parseInt. rewrite sign_match. now destruct (signOf (trimStart s)).
Qed.

Lemma span_digits (ds rest : jsstring) :
  Forall (fun c => isDigit c = true) ds -> endsNumber rest ->
  span isDigit (ds ++ rest) = (ds, rest).
Proof.
  intros H Hr. induction H as [|c ds Hc _ IH]; cbn [app span].
  - destruct rest as [|c r]; [reflexivity|]. unfold endsNumber in Hr.
    cbn [span]. now rewrite Hr.
  - now rewrite Hc, IH.
Qed.

Lemma isDigit_bounds (c : N) : isDigit c = true <-> (48 <= c <= 57)%N.
Proof. unfold isDigit. rewrite andb_true_iff, !N.leb_le. reflexivity. Qed.

Lemma decimalDigits_digits (fuel : nat) :
  forall n acc,
    Forall (fun c => isDigit c = true) acc ->
    Forall (fun c => isDigit c = true) (decimalDigits fuel n acc).
Proof.
  induction fuel as [|fuel IH]; intros n acc Hacc; cbn [decimalDigits];
    [exact Hacc|].
  assert (Hd : isDigit (48 + n mod 10) = true).
  { apply isDigit_bounds.
    pose proof (N.mod_upper_bound n 10 ltac:(lia)) as M.
    set (m := (n mod 10)%N) in *. clearbody m. lia. }
  destruct (n <? 10)%N; [now constructor | apply IH; now constructor].
Qed.

Lemma decimalDigits_nonempty (fuel : nat) (n : N) (acc : jsstring) :
  decimalDigits (S fuel) n acc <> [].
Proof.
  revert n acc. induction fuel as [|fuel IH]; intros n acc.
  - cbn [decimalDigits]. destruct (n <? 10)%N; discriminate.
  - change (decimalDigits (S (S fuel)) n acc)
      with (if (n <? 10)%N then (48 + n mod 10)%N :: acc
            else decimalDigits (S fuel) (n / 10) ((48 + n mod 10)%N :: acc)).
    destruct (n <? 10)%N; [discriminate | apply IH].
Qed.

(** Reading the digits back, most significant first, gives the number. *)
Lemma decimalDigits_value (fuel : nat) :
  forall n acc,
    (n < 2 ^ N.of_nat fuel)%N ->
    fold_left (fun a c => (a * 10 + Z.of_N (c - 48))%Z) (decimalDigits fuel n acc) 0%Z
    = fold_left (fun a c => (a * 10 + Z.of_N (c - 48))%Z) acc (Z.of_N n).
Proof.
  induction fuel as [|fuel IH]; intros n acc Hn.
  - simpl in Hn. assert (n = 0%N) by lia. subst n. reflexivity.
  - cbn [decimalDigits]. destruct (n <? 10)%N eqn:E.
    + apply N.ltb_lt in E. cbn [fold_left]. f_equal.
      rewrite N.mod_small by exact E. lia.
    + apply N.ltb_ge in E. rewrite IH.
      * cbn [fold_left]. f_equal.
        pose proof (N.div_mod n 10 ltac:(lia)) as D.
        pose proof (N.mod_upper_bound n 10 ltac:(lia)) as M.
        set (m := (n mod 10)%N) in *. set (q := (n / 10)%N) in *.
        clearbody m q. lia.
      * rewrite Nat2N.inj_succ, N.pow_succ_r' in Hn.
        apply N.Div0.div_lt_upper_bound. lia.
Qed.

Lemma StringOfNat_spec (n : N) :
  Forall (fun c => isDigit c = true) (StringOfNat n)
  /\ StringOfNat n <> []
  /\ digitsValue (StringOfNat n) = Z.of_N n.
Proof.
  unfold StringOfNat. split; [apply decimalDigits_digits; constructor|].
  split; [apply decimalDigits_nonempty|].
  unfold digitsValue. rewrite decimalDigits_value; [reflexivity|].
  rewrite Nat2N.inj_succ, N2Nat.id.
  destruct (N.eq_dec n 0) as [-> | Hn]; [reflexivity|].
  apply N.log2_spec. lia.
Qed.

Lemma digit_head_plain (c : N) (rest : jsstring) :
  isDigit c = true ->
  trimStart (c :: rest) = c :: rest /\ signOf (c :: rest) = (false, c :: rest).
Proof.
  intros H. apply isDigit_bounds in H. split.
  - apply trimStart_head. unfold isWhiteSpace. decide_units. reflexivity.
  - unfold signOf. decide_units. reflexivity.
Qed.

(** Integers below 2^53 in magnitude are Numbers. *)
Lemma roundToDouble_safe (n : Z) :
  (Z.abs n < 2 ^ 53)%Z -> roundToDouble n = n.
Proof.
  intros H. unfold roundToDouble.
  apply Z.ltb_lt in H. now rewrite H.
Qed.

(** [parseInt] reads an integer text back as the nearest Number, whatever
    follows it that is no digit. *)
Lemma parseInt_StringOfInt (n : Z) (rest : jsstring) :
  endsNumber rest -> parseInt (StringOfInt n ++ rest) = Some (roundToDouble n).
Proof.
  intros Hr. rewrite parseInt_signOf. unfold StringOfInt.
  destruct (n <? 0)%Z eqn:E.
  - apply Z.ltb_lt in E.
    destruct (StringOfNat_spec (Z.abs_N n)) as (Hd & Hne & Hv).
    change ((45%N :: StringOfNat (Z.abs_N n)) ++ rest)
      with (45%N :: (StringOfNat (Z.abs_N n) ++ rest)).
    rewrite trimStart_head by reflexivity.
    cbn [signOf N.eqb Pos.eqb fst snd].
    rewrite (span_digits _ _ Hd Hr). cbn [fst].
    destruct (StringOfNat (Z.abs_N n)) as [|c ds] eqn:S; [congruence|].
    rewrite Hv. do 2 f_equal. lia.
  - apply Z.ltb_ge in E.
    destruct (StringOfNat_spec (Z.to_N n)) as (Hd & Hne & Hv).
    destruct (StringOfNat (Z.to_N n)) as [|c ds] eqn:S; [congruence|].
    assert (Hc : isDigit c = true) by now inversion Hd.
    destruct (digit_head_plain c (ds ++ rest) Hc) as (T1 & T2).
    change ((c :: ds) ++ rest) with (c :: (ds ++ rest)).
    rewrite T1, T2. cbn [fst snd].
    change (c :: ds ++ rest) with ((c :: ds) ++ rest).
    rewrite (span_digits _ _ Hd Hr). cbn [fst].
    rewrite Hv. do 2 f_equal. lia.
Qed.

(** X8. An integer written out as text is read back by [clampInt] as
    the Number nearest to it (ties to even) clamped to the range; so an
    integer below 2^53 in magnitude is read back as itself, clamped, and
    as itself when it is within the range, while a longer one may come
    back changed. Whatever follows the digits (a fraction, a unit) is
    ignored, so a value is truncated, not rounded. *)
Theorem X8_clampInt_reads_integers_back (n min max : Z) (rest : jsstring) :
  endsNumber rest ->
  clampInt (VStr (StringOfInt n ++ rest)) min max
  = Z.max min (Z.min max (roundToDouble n))
  /\ ((Z.abs n < 2 ^ 53)%Z ->
      clampInt (VStr (StringOfInt n ++ rest)) min max = Z.max min (Z.min max n)
      /\ clampInt (Number_of_int n) min max = Z.max min (Z.min max n)
      /\ ((min <= n <= max)%Z -> clampInt (Number_of_int n) min max = n)
      /\ ((n < min <= max)%Z -> clampInt (Number_of_int n) min max = min)
      /\ ((min <= max < n)%Z -> clampInt (Number_of_int n) min max = max)).
Proof.
  intros Hr.
  assert (A : clampInt (VStr (StringOfInt n ++ rest)) min max
              = Z.max min (Z.min max (roundToDouble n))).
  { unfold clampInt. simpl ToString. now rewrite (parseInt_StringOfInt n rest Hr). }
  split; [exact A|]. intros Hn.
  assert (B : clampInt (Number_of_int n) min max = Z.max min (Z.min max n)).
  { unfold clampInt, Number_of_int. simpl ToString.
    rewrite <- (app_nil_r (StringOfInt n)).
    now rewrite (parseInt_StringOfInt n [] I), (roundToDouble_safe n Hn). }
  split; [now rewrite A, (roundToDouble_safe n Hn)|]. split; [exact B|].
  repeat split; intros H; rewrite B; lia.
Qed.

Lemma X8_clampInt_reads_integers_back_witness :
  clampInt (VStr (js "12.7")) 8 128 = 12%Z
  /\ clampInt (Number_of_int (-64)) (-64) 64 = (-64)%Z
  /\ clampInt (VStr (js "9007199254740993")) 0 (10 ^ 17) = 9007199254740992%Z.
Proof.
  destruct (X8_clampInt_reads_integers_back 12 8 128 (js ".7"))
    as (_ & H1); [reflexivity |].
  destruct (X8_clampInt_reads_integers_back (-64) (-64) 64 [])
    as (_ & H2); [exact I |].
  destruct (X8_clampInt_reads_integers_back 9007199254740993 0 (10 ^ 17) [])
    as (H3 & _); [exact I |].
  destruct (H1 eq_refl) as (A & _).
  destruct (H2 eq_refl) as (_ & _ & B & _).
  split; [exact A|]. split; [apply B; lia | exact H3].
Defined.

(** ** Loading *)

Lemma clampInt_of_int (n min max : Z) :
  (Z.abs n < 2 ^ 53)%Z ->
  clampInt (Number_of_int n) min max = Z.max min (Z.min max n).
Proof.
  intros Hn. unfold clampInt, Number_of_int. simpl ToString.
  rewrite <- (app_nil_r (StringOfInt n)).
  now rewrite (parseInt_StringOfInt n [] I), (roundToDouble_safe n Hn).
Qed.

(** X9. Reading tolerates a missing or corrupt store: with no item, with
    text that is no JSON, with the value [null], with a value that is no
    object, or with an object that has none of the state's properties
    (whatever else it has), the loaded state is the default state. *)
Theorem X9_loadState_falls_back_to_defaults (p : persisted) :
  (forall v, p = Parsed v -> Forall (fun k => prop v k = None) stateKeys) ->
  sameState (loadState p) DEFAULT_STATE.
Proof.
  assert (D : sameState DEFAULT_STATE DEFAULT_STATE)
    by (repeat split; reflexivity).
  intros H. destruct p as [| |v]; try exact D.
  specialize (H v eq_refl). unfold stateKeys in H.
  repeat match goal with Hf : Forall _ (_ :: _) |- _ =>
    let Hk := fresh "Hk" in inversion Hf as [|? ? Hk ?]; subst; clear Hf end.
  destruct v; try exact D; unfold loadState, loadThrows, spread;
    rewrite Hk, Hk0, Hk1, Hk2, Hk3, Hk4, Hk5, Hk6, Hk7, Hk8, Hk9, Hk10, Hk11;
    repeat split; reflexivity.
Qed.

Lemma X9_loadState_falls_back_to_defaults_witness :
  sameState
    (loadState (Parsed (VObj [(js "theme", VStr (js "dark"))])))
    DEFAULT_STATE.
Proof.
  apply X9_loadState_falls_back_to_defaults.
  intros v [= <-]. repeat constructor.
Defined.

(** X10. Integer fields survive the store: when the stored object holds
    the four integer fields as JSON numbers below 2^53 in magnitude (as
    [saveState] writes them) and no conversion of a stored numeric field
    throws, the loaded state has them clamped to their ranges, hence
    unchanged when they were within range, as every saved state's are.
    When a conversion throws (a stored [lineHeight] or [bgAlpha] that is
    an object with a [toString] property), the whole default state is
    loaded instead. *)
Theorem X10_loadState_restores_integers (parsed : value) (size ox oy pad : Z) :
  storesIntegers parsed size ox oy pad ->
  (Z.abs size < 2 ^ 53 /\ Z.abs ox < 2 ^ 53
   /\ Z.abs oy < 2 ^ 53 /\ Z.abs pad < 2 ^ 53)%Z ->
  let s := loadState (Parsed parsed) in
  (loadThrows parsed = false ->
   (fontSize s = Z.max 8 (Z.min 128 size)
    /\ offsetX s = Z.max (-64) (Z.min 64 ox)
    /\ offsetY s = Z.max (-64) (Z.min 64 oy)
    /\ padding s = Z.max 0 (Z.min 24 pad))
   /\ ((8 <= size <= 128 /\ -64 <= ox <= 64 /\ -64 <= oy <= 64 /\ 0 <= pad <= 24)%Z ->
       fontSize s = size /\ offsetX s = ox /\ offsetY s = oy /\ padding s = pad))
  /\ (loadThrows parsed = true -> s = DEFAULT_STATE)
  /\ (loadThrows parsed
      = stringThrows (nullish (prop parsed "lineHeight") (VNum (js "1.15")))
        || stringThrows (nullish (prop parsed "bgAlpha") (VNum (js "1")))).
Proof.
  intros (H1 & H2 & H3 & H4) (B1 & B2 & B3 & B4) s.
  split; [|split].
  - intros T.
    assert (E : fontSize s = Z.max 8 (Z.min 128 size)
                /\ offsetX s = Z.max (-64) (Z.min 64 ox)
                /\ offsetY s = Z.max (-64) (Z.min 64 oy)
                /\ padding s = Z.max 0 (Z.min 24 pad)).
    { subst s. destruct parsed; try discriminate.
      unfold loadState. rewrite T. cbn [fontSize offsetX offsetY padding].
      rewrite H1, H2, H3, H4. unfold nullish, Number_of_int.
      fold (Number_of_int size). fold (Number_of_int ox).
      fold (Number_of_int oy). fold (Number_of_int pad).
      now rewrite !clampInt_of_int by assumption. }
    split; [exact E|]. intros R. destruct E as (E1 & E2 & E3 & E4).
    rewrite E1, E2, E3, E4. lia.
  - intros T. subst s. destruct parsed; try discriminate.
    unfold loadState. now rewrite T.
  - unfold loadThrows. rewrite H1, H2, H3, H4.
    unfold nullish, Number_of_int. cbn [stringThrows].
    now rewrite !orb_false_r.
Qed.

Lemma X10_loadState_restores_integers_witness :
  fontSize (loadState (Parsed (VObj [(js "fontSize", Number_of_int 72);
                                     (js "offsetX", Number_of_int (-5));
                                     (js "offsetY", Number_of_int 0);
                                     (js "padding", Number_of_int 99)])))
  = 72%Z
  /\ loadState (Parsed (VObj [(js "fontSize", Number_of_int 72);
                              (js "lineHeight",
                               VObj [(js "toString", Number_of_int 1)]);
                              (js "offsetX", Number_of_int (-5));
                              (js "offsetY", Number_of_int 0);
                              (js "padding", Number_of_int 99)]))
     = DEFAULT_STATE.
Proof.
  destruct (X10_loadState_restores_integers
              (VObj [(js "fontSize", Number_of_int 72);
                     (js "offsetX", Number_of_int (-5));
                     (js "offsetY", Number_of_int 0);
                     (js "padding", Number_of_int 99)]) 72 (-5) 0 99)
    as (H & _).
  - repeat split.
  - repeat split; reflexivity.
  - destruct (X10_loadState_restores_integers
                (VObj [(js "fontSize", Number_of_int 72);
                       (js "lineHeight",
                        VObj [(js "toString", Number_of_int 1)]);
                       (js "offsetX", Number_of_int (-5));
                       (js "offsetY", Number_of_int 0);
                       (js "padding", Number_of_int 99)]) 72 (-5) 0 99)
      as (_ & K & _).
    + repeat split.
    + repeat split; reflexivity.
    + destruct (H eq_refl) as ((E & _) & _).
      split; [exact E | apply K; reflexivity].
Defined.

(** ** The shape of the file name *)

Lemma runsToHyphen_Forall (P : N -> Prop) (p : N -> bool) (s : jsstring) :
  P 45%N -> Forall P s -> forall inRun, Forall P (runsToHyphen p inRun s).
Proof.
  intros H45 H. induction H as [|c s Hc _ IH]; intros inRun; simpl;
    [constructor|].
  destruct (p c); [destruct inRun|]; try apply IH; constructor; auto.
Qed.

Lemma white_to_hyphen_clean (s : jsstring) :
  forall inRun,
    Forall (fun c => isWhiteSpace c = false) (runsToHyphen isWhiteSpace inRun s).
Proof.
  induction s as [|c s IH]; intros inRun; simpl; [constructor|].
  destruct (isWhiteSpace c) eqn:E; [destruct inRun|]; try apply IH;
    constructor; auto.
Qed.

Lemma hyphen_run_head (s : jsstring) :
  ~ startsWithHyphen (runsToHyphen isHyphen true s).
Proof.
  induction s as [|c s IH]; simpl; [tauto|].
  destruct (isHyphen c) eqn:E; [exact IH|]. simpl. congruence.
Qed.

Lemma hyphen_runs_no_double (s : jsstring) :
  forall inRun, ~ hasDoubleHyphen (runsToHyphen isHyphen inRun s).
Proof.
  induction s as [|c s IH]; intros inRun (pre & post & E); simpl in E.
  - destruct pre; discriminate.
  - destruct (isHyphen c) eqn:Hc.
    + destruct inRun.
      * apply (IH true). now exists pre, post.
      * destruct pre as [|x pre]; simpl in E.
        -- apply (hyphen_run_head s).
           assert (E2 : runsToHyphen isHyphen true s = 45%N :: post) by congruence.
           rewrite E2. reflexivity.
        -- apply (IH true). exists pre, post. congruence.
    + destruct pre as [|x pre]; simpl in E.
      * assert (c = 45%N) by congruence. subst c. discriminate.
      * apply (IH false). exists pre, post. congruence.
Qed.

Lemma hasDoubleHyphen_cons (c : N) (s : jsstring) :
  hasDoubleHyphen s -> hasDoubleHyphen (c :: s).
Proof. intros (pre & post & ->). now exists (c :: pre), post. Qed.

Lemma hasDoubleHyphen_rev (s : jsstring) :
  hasDoubleHyphen (rev s) -> hasDoubleHyphen s.
Proof.
  intros (pre & post & E). exists (rev post), (rev pre).
  rewrite <- (rev_involutive s), E, rev_app_distr. simpl.
  now rewrite <- !app_assoc.
Qed.

Lemma hasDoubleHyphen_dropLeading (s : jsstring) :
  hasDoubleHyphen (dropLeadingHyphen s) -> hasDoubleHyphen s.
Proof.
  destruct s as [|c s]; simpl; [tauto|].
  destruct (isHyphen c); [apply hasDoubleHyphen_cons | tauto].
Qed.

Lemma hasDoubleHyphen_firstn (n : nat) (s : jsstring) :
  hasDoubleHyphen (firstn n s) -> hasDoubleHyphen s.
Proof.
  intros (pre & post & E). exists pre, (post ++ skipn n s).
  rewrite <- (firstn_skipn n s) at 1. rewrite E, <- app_assoc. reflexivity.
Qed.

Lemma hasDoubleHyphen_stripEdge (s : jsstring) :
  hasDoubleHyphen (stripEdgeHyphens s) -> hasDoubleHyphen s.
Proof.
  unfold stripEdgeHyphens. intros H.
  apply hasDoubleHyphen_dropLeading, hasDoubleHyphen_rev,
    hasDoubleHyphen_dropLeading, hasDoubleHyphen_rev.
  exact H.
Qed.

Lemma strip_keeps_head (h : N) (rest : jsstring) :
  isHyphen h = false ->
  exists rest', rev (dropLeadingHyphen (rev (h :: rest))) = h :: rest'.
Proof.
  intros Hh. simpl rev. destruct (rev rest) as [|y ys].
  - simpl. rewrite Hh. now exists [].
  - simpl. destruct (isHyphen y).
    + exists (rev ys). now rewrite rev_app_distr.
    + exists (rev ys ++ [y]). simpl. now rewrite rev_app_distr.
Qed.

Lemma stripEdge_head (s : jsstring) :
  ~ hasDoubleHyphen s -> ~ startsWithHyphen (stripEdgeHyphens s).
Proof.
  intros Hd. unfold stripEdgeHyphens.
  assert (Hh : dropLeadingHyphen s = []
               \/ exists h rest, dropLeadingHyphen s = h :: rest /\ isHyphen h = false).
  { destruct s as [|c s]; [now left|]. simpl.
    destruct (isHyphen c) eqn:Hc.
    - destruct s as [|c' s']; [now left|]. right. exists c', s'.
      split; [reflexivity|]. destruct (isHyphen c') eqn:Hc'; [|reflexivity].
      exfalso. apply Hd. exists [], s'.
      unfold isHyphen in Hc, Hc'. apply N.eqb_eq in Hc, Hc'. now subst.
    - right. now exists c, s. }
  destruct Hh as [-> | (h & rest & -> & Hh)]; [simpl; tauto|].
  destruct (strip_keeps_head h rest Hh) as (rest' & ->). simpl. congruence.
Qed.

Lemma noDoubleHyphenb_sound (s : jsstring) :
  noDoubleHyphenb s = true -> ~ hasDoubleHyphen s.
Proof.
  induction s as [|a t IH]; intros H (pre & post & E).
  - destruct pre; discriminate.
  - simpl in H. destruct t as [|b t'].
    + destruct pre as [|x [|y pre]]; discriminate.
    + apply andb_true_iff in H. destruct H as [H1 H2].
      destruct pre as [|x pre]; simpl in E.
      * assert (a = 45%N /\ b = 45%N) as [-> ->] by (split; congruence).
        discriminate.
      * apply (IH H2). exists pre, post. congruence.
Qed.

(** X11. The export file name is fit for a file system entry: it has no
    white space, its base neither begins with a hyphen nor holds two
    hyphens in a row, and it ends in [.png]. *)
Theorem X11_file_name_shape (text : value) :
  exists base,
    safeFileNameFromText text = base ++ js ".png"
    /\ Forall (fun c => isWhiteSpace c = false) (safeFileNameFromText text)
    /\ ~ startsWithHyphen base
    /\ ~ hasDoubleHyphen base.
Proof.
  assert (D : exists base,
    js "slack-emoji.png" = base ++ js ".png"
    /\ Forall (fun c => isWhiteSpace c = false) (js "slack-emoji.png")
    /\ ~ startsWithHyphen base /\ ~ hasDoubleHyphen base).
  { exists (js "slack-emoji"). split; [reflexivity|].
    split; [repeat constructor|]. split; [simpl; discriminate|].
    now apply noDoubleHyphenb_sound. }
  unfold safeFileNameFromText.
  destruct (firstLine text) as [|c first'] eqn:F; [exact D|].
  destruct (fileBase (c :: first')) as [|x base] eqn:B; [exact D|].
  exists (x :: base). rewrite <- B. unfold fileBase.
  set (t := runsToHyphen isHyphen false
              (filter inKeptClass (runsToHyphen isWhiteSpace false (c :: first')))).
  assert (Hd : ~ hasDoubleHyphen t) by apply hyphen_runs_no_double.
  assert (Hw : Forall (fun u => isWhiteSpace u = false) t).
  { apply runsToHyphen_Forall; [reflexivity|].
    apply Forall_forall. intros u Hu. apply filter_In in Hu.
    destruct Hu as [Hu _].
    pose proof (white_to_hyphen_clean (c :: first') false) as W.
    rewrite Forall_forall in W. now apply W. }
  split; [reflexivity|]. split; [|split].
  - apply Forall_app. split; [|repeat constructor].
    now apply firstn_Forall, stripEdgeHyphens_Forall.
  - pose proof (stripEdge_head t Hd) as Hs.
    destruct (stripEdgeHyphens t); simpl; [tauto | exact Hs].
  - intros H. apply Hd.
    now apply hasDoubleHyphen_stripEdge, (hasDoubleHyphen_firstn 32).
Qed.

(** ** More on the rasteriser *)

Lemma linesOf_count (s : State) : (1 <= List.length (linesOf s))%nat.
Proof. unfold linesOf. rewrite splitLines_count. lia. Qed.

(** X12. When the line height in pixels is a whole number (as it is with
    line height 1, where it is the font size), the block of lines is
    centred vertically: the centres of the first and of the last line
    slot lie symmetrically about row [64 + offsetY], whatever the number
    of lines, and a single line is centred on that row. Otherwise the
    rounding of the layout can shift the block: with font size 11, line
    height 1.1 and three lines the two centres do not sum to 128. *)
Theorem X12_block_is_centred (s : State) :
  let n := List.length (linesOf s) in
  (forall h,
     lineHeightPx s == inject_Z h ->
     (Z.abs h <= 2 ^ 20)%Z -> (Z.abs (offsetY s) <= 2 ^ 20)%Z ->
     (Z.of_nat n <= 2 ^ 20)%Z ->
     lineCentre s 0 + lineCentre s (n - 1) == 2 * (64 + inject_Z (offsetY s))
     /\ (n = 1%nat -> lineCentre s 0 == 64 + inject_Z (offsetY s)))
  /\ (lineHeight s == 1 -> numericInRange s -> (Z.of_nat n <= 2 ^ 20)%Z ->
      lineCentre s 0 + lineCentre s (n - 1) == 2 * (64 + inject_Z (offsetY s)))
  /\ ~ lineCentre smallLines 0 + lineCentre smallLines 2
       == 2 * (64 + inject_Z (offsetY smallLines)).
Proof.
  intros n.
  assert (W : forall h,
     lineHeightPx s == inject_Z h ->
     (Z.abs h <= 2 ^ 20)%Z -> (Z.abs (offsetY s) <= 2 ^ 20)%Z ->
     (Z.of_nat n <= 2 ^ 20)%Z ->
     lineCentre s 0 + lineCentre s (n - 1) == 2 * (64 + inject_Z (offsetY s))
     /\ (n = 1%nat -> lineCentre s 0 == 64 + inject_Z (offsetY s))).
  { intros h Hw Hh Ho Hn. pose proof (linesOf_count s) as Hc. fold n in Hc.
    pose proof (lineCentre_whole s h Hw Hh Ho Hn) as L. fold n in L.
    split.
    - rewrite (L 0%nat ltac:(lia)), (L (n - 1)%nat ltac:(lia)).
      rewrite Nat2Z.inj_sub by exact Hc. cbn [Z.of_nat]. q_lia.
    - intros H1. rewrite (L 0%nat ltac:(lia)), H1. cbn [Z.of_nat]. q_lia. }
  split; [exact W|]. split.
  - intros H1 (Hf & _ & _ & _ & Ho & _) Hn.
    apply (W (fontSize s)); try lia.
    apply lineHeightPx_unit; [exact H1 | lia].
  - vm_compute. discriminate.
Qed.

Lemma X12_block_is_centred_witness :
  lineCentre twoLines 0 + lineCentre twoLines 1 == 128.
Proof.
  destruct (X12_block_is_centred twoLines) as (_ & H & _).
  apply H.
  - reflexivity.
  - vm_compute. repeat split; discriminate.
  - vm_compute. discriminate.
Defined.

Lemma textsDrawn_app (a b : list canvas_op) :
  textsDrawn (a ++ b) = textsDrawn a ++ textsDrawn b.
Proof.
  induction a as [|op a IH]; [reflexivity|].
  destruct op; simpl; rewrite IH; reflexivity.
Qed.

Lemma textsDrawn_drawLines (x : Z) (y0 step : Q) (lines : list jsstring) :
  forall k, textsDrawn (drawLines x y0 step k lines) = filter nonEmpty lines.
Proof.
  induction lines as [|t rest IH]; intros k; [reflexivity|].
  destruct t as [|c t']; simpl; now rewrite IH.
Qed.



Section GlyphsOnTop.
Variable covers : list canvas_op -> jsstring -> Z -> Q -> Z * Z -> bool.
Variable p : Z * Z.

Lemma composite_glyphs_on_top (ops : list canvas_op) :
  Forall (fun op => isFillRect op = false /\ isClearRect op = false) ops ->
  forall before acc,
    exists glyphs, composite covers p before acc ops = glyphs ++ acc
                   /\ Forall (fun l => l = Glyph) glyphs.
Proof.
  induction 1 as [|op ops [H1 H2] _ IH]; intros before acc; simpl.
  - now exists [].
  - destruct op; try discriminate; simpl; try apply IH.
    destruct (covers before t x y p); [|apply IH].
    destruct (IH (before ++ [fillText t x y]) (Glyph :: acc)) as (gl & E & Hg).
    exists (gl ++ [Glyph]). rewrite E, <- app_assoc. split; [reflexivity|].
    apply Forall_app. split; [exact Hg | now constructor].
Qed.
End GlyphsOnTop.

Lemma drawLines_text_only (x : Z) (y0 step : Q) (lines : list jsstring) :
  forall k, Forall (fun op => isFillRect op = false /\ isClearRect op = false)
              (drawLines x y0 step k lines).
Proof.
  induction lines as [|[|c l] rest IH]; intros k; simpl;
    [constructor | apply IH | constructor; [now split | apply IH]].
Qed.

(** X14. When the background is drawn (transparency off, colour parsed),
    it is drawn first, over the whole cleared canvas and in the stored
    colour and opacity: every pixel of the canvas carries exactly one
    background layer, beneath whatever glyphs cover it, and no pixel
    outside the canvas carries one. *)
Theorem X14_background_beneath_text covers (s : State) (c : rgb) (p : Z * Z) :
  bgTransparent s = false ->
  hexToRgb (bgColor s) = Some c ->
  (exists rest,
     renderExportCanvas s
     = clearRect 0 0 128 128 :: fillStyle_rgba (r c) (g c) (b c) (bgAlpha s)
       :: fillRect 0 0 128 128 :: rest
     /\ Forall (fun op => isFillRect op = false /\ isClearRect op = false) rest)
  /\ (inRect 0 0 128 128 p = true ->
      exists glyphs,
        layersAt covers p (renderExportCanvas s) = glyphs ++ [Background]
        /\ Forall (fun l => l = Glyph) glyphs)
  /\ (inRect 0 0 128 128 p = false ->
      ~ In Background (layersAt covers p (renderExportCanvas s))).
Proof.
  intros Ht Hc.
  assert (R : exists rest,
     renderExportCanvas s
     = clearRect 0 0 128 128 :: fillStyle_rgba (r c) (g c) (b c) (bgAlpha s)
       :: fillRect 0 0 128 128 :: rest
     /\ Forall (fun op => isFillRect op = false /\ isClearRect op = false) rest).
  { unfold renderExportCanvas, drawBackground. rewrite Ht, Hc. simpl app.
    eexists. split; [reflexivity|].
    repeat (constructor; [now split|]).
    apply Forall_app. split; [apply drawLines_text_only | repeat constructor]. }
  split; [exact R|]. destruct R as (rest & -> & Hrest).
  unfold layersAt. cbn [composite paint].
  split; intros Hin; rewrite Hin.
  - destruct (composite_glyphs_on_top covers p rest Hrest
                (([] ++ [clearRect 0 0 128 128])
                 ++ [fillStyle_rgba (r c) (g c) (b c) (bgAlpha s)]
                 ++ [fillRect 0 0 128 128]) [Background]) as (gl & E & Hg).
    exists gl. split; [|exact Hg]. rewrite <- E. now rewrite <- !app_assoc.
  - match goal with |- ~ In _ (composite _ _ ?bf ?acc _) =>
      destruct (composite_glyphs_on_top covers p rest Hrest bf acc) as (gl & E & Hg)
    end.
    rewrite E, app_nil_r. now apply no_background_layer.
Qed.

Lemma X14_background_beneath_text_witness :
  layersAt dotGlyphs (3, 5)%Z
    (renderExportCanvas (fst (readControlsIntoState garbledControls DEFAULT_STATE)))
  = [Background].
Proof.
  destruct (X14_background_beneath_text dotGlyphs
              (fst (readControlsIntoState garbledControls DEFAULT_STATE))
              {| r := 255; g := 255; b := 255 |} (3, 5)%Z)
    as (_ & H & _); [reflexivity | reflexivity |].
  destruct (H eq_refl) as (gl & E & _). rewrite E.
  vm_compute in E. destruct gl as [|x gl]; [reflexivity|].
  destruct gl; discriminate.
Defined.

(** ** A background colour that cannot be parsed: C10 *)

Lemma runRender_returns (s : State) :
  renderThrows s = false ->
  runRenderExportCanvas s = (renderExportCanvas s, Returns).
Proof.
  unfold renderThrows, runRenderExportCanvas. intros H.
  repeat (apply orb_false_iff in H; destruct H as [H ?]).
  repeat match goal with E : _ = false |- _ => rewrite E; clear E end.
  reflexivity.
Qed.

Lemma runRender_throws (s : State) :
  renderThrows s = true ->
  snd (runRenderExportCanvas s) = Throws
  /\ textsDrawn (fst (runRenderExportCanvas s)) = [].
Proof.
  assert (B : textsDrawn (drawBackground s) = []).
  { unfold drawBackground. destruct (negb (bgTransparent s)); [|reflexivity].
    now destruct (hexToRgb (bgColor s)). }
  unfold renderThrows, runRenderExportCanvas. intros H.
  destruct (negb (bgTransparent s) && stringThrows (bgColor s));
    [now split|].
  destruct (stringThrows (text s));
    [split; [reflexivity | cbn [fst]; now rewrite textsDrawn_app, B]|].
  destruct (stringThrows (textColor s));
    [split; [reflexivity | cbn [fst]; now rewrite !textsDrawn_app, B]|].
  destruct (stringThrows (align s));
    [split; [reflexivity | cbn [fst]; now rewrite !textsDrawn_app, B]|].
  destruct (stringThrows (fontFamily s));
    [split; [reflexivity | cbn [fst orb]; now rewrite !textsDrawn_app, B]|].
  destruct (stringThrows (fontWeight s));
    [split; [reflexivity | cbn [fst orb]; now rewrite !textsDrawn_app, B]|].
  discriminate.
Qed.

(** A state read from the controls holds strings only: rendering it never
    throws. *)
Lemma read_never_throws (d : Controls) (s : State) :
  renderThrows (fst (readControlsIntoState d s)) = false.
Proof.
  unfold renderThrows, readControlsIntoState.
  cbn [fst text textColor bgColor align fontFamily fontWeight bgTransparent
       set_text set_fontFamily set_fontWeight set_fontSize set_lineHeight
       set_textColor set_bgColor set_bgTransparent set_bgAlpha set_offsetX
       set_offsetY set_align set_padding stringThrows].
  unfold hex_or.
  repeat match goal with
  | |- context [match normalizeHex ?x with _ => _ end] =>
      destruct (normalizeHex x)
  end;
  unfold DEFAULT_STATE; cbn [textColor bgColor stringThrows];
  now rewrite ?andb_false_r.
Qed.

Lemma render_textsDrawn (s : State) :
  textsDrawn (renderExportCanvas s) = filter nonEmpty (linesOf s).
Proof.
  unfold renderExportCanvas. rewrite !textsDrawn_app, textsDrawn_drawLines.
  assert (B : textsDrawn (drawBackground s) = []).
  { unfold drawBackground. destruct (negb (bgTransparent s)); [|reflexivity].
    now destruct (hexToRgb (bgColor s)). }
  rewrite B. simpl. apply app_nil_r.
Qed.

Section GlyphLayer.
Variable covers : list canvas_op -> jsstring -> Z -> Q -> Z * Z -> bool.
Variable p : Z * Z.

Lemma composite_app (a b : list canvas_op) :
  forall before acc,
    composite covers p before acc (a ++ b)
    = composite covers p (before ++ a) (composite covers p before acc a) b.
Proof.
  induction a as [|op a IH]; intros before acc.
  - cbn [app composite]. now rewrite app_nil_r.
  - cbn [app composite]. rewrite IH. now rewrite <- app_assoc.
Qed.

Lemma composite_keeps (ops : list canvas_op) :
  Forall (fun op => isClearRect op = false) ops ->
  forall before acc l,
    In l acc -> In l (composite covers p before acc ops).
Proof.
  induction 1 as [|op ops Hop _ IH]; intros before acc l Hin;
    cbn [composite]; [exact Hin|].
  apply IH. destruct op; cbn [paint]; try exact Hin; try discriminate.
  - destruct (inRect x y w h p); [now right | exact Hin].
  - destruct (covers before t x y p); [now right | exact Hin].
Qed.
End GlyphLayer.

Lemma drawBackground_no_clearRect (s : State) :
  Forall (fun op => isClearRect op = false) (drawBackground s).
Proof.
  unfold drawBackground. destruct (negb (bgTransparent s)); [|constructor].
  destruct (hexToRgb (bgColor s)); repeat constructor.
Qed.

Lemma drawLines_no_clearRect (x : Z) (y0 step : Q) (lines : list jsstring) :
  forall k, Forall (fun op => isClearRect op = false) (drawLines x y0 step k lines).
Proof.
  induction lines as [|[|c l] rest IH]; intros k; simpl;
    [constructor | apply IH | constructor; [reflexivity | apply IH]].
Qed.

(** The canvas is cleared once, before anything is drawn. *)
Lemma render_clears_first (s : State) :
  exists rest,
    renderExportCanvas s = clearRect 0 0 128 128 :: rest
    /\ Forall (fun op => isClearRect op = false) rest.
Proof.
  unfold renderExportCanvas. eexists. split; [reflexivity|].
  repeat (apply Forall_app; split);
    try apply drawBackground_no_clearRect;
    try apply drawLines_no_clearRect; repeat constructor.
Qed.

(** A pixel that a text call covers holds a glyph layer at the end. *)
Lemma render_glyph_layer covers (s : State) (p : Z * Z)
  (pre post : list canvas_op) (t : jsstring) (x : Z) (y : Q) :
  renderExportCanvas s = pre ++ fillText t x y :: post ->
  covers pre t x y p = true ->
  In Glyph (layersAt covers p (renderExportCanvas s)).
Proof.
  intros E Hc. destruct (render_clears_first s) as (rest & R & Hrest).
  assert (Hpost : Forall (fun op => isClearRect op = false) post).
  { rewrite E in R. destruct pre as [|c pre']; [discriminate R|].
    cbn [app] in R. assert (R' : pre' ++ fillText t x y :: post = rest)
      by congruence.
    rewrite <- R' in Hrest. apply Forall_app in Hrest.
    destruct Hrest as (_ & Hf). now inversion Hf. }
  rewrite E. unfold layersAt. rewrite composite_app.
  cbn [composite paint app]. rewrite Hc.
  apply composite_keeps; [exact Hpost | now left].
Qed.

(** C10. With the background switched on, a [bgColor] that is not six
    hexadecimal digits (with or without [#]) and fields that can all be
    converted to strings (as they can in every state read from the
    controls), the run returns: [hexToRgb] gives [null], no background
    is drawn and the calls are those of the transparent state; the text
    is drawn as ever (every non-empty line once, in order, line [i] at
    the centre of slot [i]), so that a pixel holds glyph layers only, at
    least one where a text call covers it and none outside the glyphs. *)
Theorem C10_unparsable_bgColor_skips_fill covers (s : State) (p : Z * Z) :
  bgTransparent s = false ->
  ~ optHashHex6 (trim (ToString (bgColor s))) ->
  renderThrows s = false ->
  runRenderExportCanvas s = (renderExportCanvas s, Returns)
  /\ hexToRgb (bgColor s) = None
  /\ drawBackground s = []
  /\ renderExportCanvas s = renderExportCanvas (set_bgTransparent true s)
  /\ textsDrawn (renderExportCanvas s) = filter nonEmpty (linesOf s)
  /\ (forall t x y,
        In (fillText t x y) (renderExportCanvas s) <->
        exists i, nth_error (linesOf s) i = Some t /\ t <> []
                  /\ x = anchorX s /\ y = lineCentre s i)
  /\ ~ In Background (layersAt covers p (renderExportCanvas s))
  /\ (forall pre post t x y,
        renderExportCanvas s = pre ++ fillText t x y :: post ->
        covers pre t x y p = true ->
        In Glyph (layersAt covers p (renderExportCanvas s)))
  /\ (outsideGlyphs covers (renderExportCanvas s) p ->
      layersAt covers p (renderExportCanvas s) = [])
  /\ (forall d s0, renderThrows (fst (readControlsIntoState d s0)) = false).
Proof.
  intros Ht Hn Hs. pose proof (hexToRgb_rejects _ Hn) as Hr.
  assert (B : drawBackground s = [])
    by (unfold drawBackground; now rewrite Ht, Hr).
  destruct (text_over_transparency covers s p B) as (L1 & L2).
  split; [now apply runRender_returns|].
  split; [exact Hr|]. split; [exact B|]. split.
  { unfold renderExportCanvas. rewrite B. reflexivity. }
  split; [apply render_textsDrawn|].
  split; [apply render_fillText_slots|].
  split; [exact L1|].
  split; [intros pre post t x y; apply render_glyph_layer|].
  split; [exact L2 | apply read_never_throws].
Qed.

Lemma C10_unparsable_bgColor_skips_fill_witness :
  runRenderExportCanvas namedColour = (renderExportCanvas namedColour, Returns)
  /\ hexToRgb (bgColor namedColour) = None
  /\ textsDrawn (renderExportCanvas namedColour)
     = filter nonEmpty (linesOf namedColour)
  /\ layersAt dotGlyphs (3, 5)%Z (renderExportCanvas namedColour) = [].
Proof.
  destruct (C10_unparsable_bgColor_skips_fill dotGlyphs namedColour (3, 5)%Z)
    as (H1 & H2 & _ & _ & H5 & _ & _ & _ & H9 & _).
  - reflexivity.
  - intros (m & [E | E] & Hlen & _).
    + rewrite <- E in Hlen. vm_compute in Hlen. discriminate.
    + vm_compute in E. destruct m; discriminate.
  - reflexivity.
  - split; [exact H1|]. split; [exact H2|]. split; [exact H5|].
    apply H9. intros before t x y Hin.
    apply render_fillText_slots in Hin.
    destruct Hin as (i & Hi & _ & -> & ->).
    destruct i as [|[|i]]; [| |destruct i; discriminate Hi];
      injection Hi as <-; vm_compute; reflexivity.
Defined.

(** The run does throw for a state with the background switched on and a
    colour name for [bgColor], when its text cannot be converted to a
    string: the preferences below are loaded as such a state, the [Init]
    block aborts on it, and the first frame after a resize renders it.
    The canvas is cleared and nothing else is done. *)
Lemma C10_counterexample :
  let s := loadState unreadableText in
  bgTransparent s = false
  /\ bgColor s = VStr (js "red")
  /\ ~ optHashHex6 (trim (ToString (bgColor s)))
  /\ hexToRgb (bgColor s) = None
  /\ renderThrows s = true
  /\ runRenderExportCanvas s = ([clearRect 0 0 128 128], Throws)
  /\ map fst (renders (run [Resize; Frame] (initWorld unreadableText true true)))
     = [s].
Proof.
  intros s. split; [reflexivity|]. split; [reflexivity|]. split.
  { intros (m & [E | E] & Hlen & _).
    - rewrite <- E in Hlen. vm_compute in Hlen. discriminate.
    - vm_compute in E. destruct m; discriminate. }
  split; [reflexivity|]. split; [reflexivity|].
  split; [reflexivity|]. reflexivity.
Qed.

(** ** The scheduler in every reachable world *)

Lemma pending_not_idle (w : World) : pending w -> ~ idle w.
Proof. intros (h & Hr & _) [Hi _]. congruence. Qed.

Lemma pending_queued (w : World) : pending w -> queued w = 1%nat.
Proof. intros (h & _ & Hc). unfold queued. now rewrite Hc. Qed.

Lemma idle_queued (w : World) : idle w -> queued w = 0%nat.
Proof. intros [_ Hc]. unfold queued. now rewrite Hc. Qed.

Lemma sameSchedule_idle (w w' : World) :
  sameSchedule w w' -> (idle w <-> idle w') /\ (pending w <-> pending w')
                       /\ queued w' = queued w.
Proof.
  intros (S1 & S2 & _ & _). unfold idle, pending, queued.
  rewrite S1, S2. repeat split; tauto.
Qed.

Lemma scheduleRender_pending (w : World) :
  idle w \/ pending w -> pending (scheduleRender w).
Proof.
  destruct (scheduleRender_effect w) as (_ & _ & _ & _ & _ & E6 & E7).
  intros [Hi | Hp]; [now apply E6|].
  destruct (E7 Hp) as (Hr & Hc). destruct Hp as (h & Hr' & Hc').
  exists h. split; congruence.
Qed.

Lemma animationFrame_idle (w : World) :
  idle w ->
  idle (animationFrame w) /\ renders (animationFrame w) = renders w
  /\ scheduleCalls (animationFrame w) = scheduleCalls w
  /\ state (animationFrame w) = state w.
Proof.
  intros [Hr Hc]. unfold animationFrame. rewrite Hc. simpl.
  repeat split. exact Hr.
Qed.

Lemma schedulerInv_step (e : event) (w : World) :
  schedulerInv w -> schedulerInv (step e w).
Proof.
  intros (Hw & Hn & Hz & Hl).
  destruct (isFrame e) eqn:Fe.
  - destruct e; try discriminate. simpl step.
    destruct Hw as [Hi | Hp].
    + destruct (animationFrame_idle w Hi) as (A1 & A2 & A3 & A4).
      split; [now left|]. rewrite A2, A3, A4, (idle_queued _ A1).
      rewrite (idle_queued _ Hi) in Hn. repeat split; auto.
    + destruct (animationFrame_pending w Hp) as (A1 & A2 & A3 & A4).
      split; [now left|]. rewrite A1, A3, A4, (idle_queued _ A2).
      rewrite (pending_queued _ Hp) in Hn. rewrite length_app. simpl.
      split; [lia|]. split.
      * apply Forall_app. split; [exact Hz | now constructor].
      * intros _ _. now exists (renders w).
  - destruct (step_schedules_at_most_once e w Fe) as [S | (w1 & S1 & S2)].
    + pose proof S as (Sr & Sc & Sn & Sk).
      destruct (sameSchedule_idle _ _ S) as (Ii & Ip & Iq).
      split; [tauto|]. rewrite Sn, Sk, Iq. split; [exact Hn|]. split; [exact Hz|].
      intros Hi Hk. rewrite (state_changes_only_with_schedule e w Sk).
      apply Hl; tauto.
    + destruct (sameSchedule_idle _ _ S1) as (Ii & Ip & Iq).
      assert (P1 : pending (scheduleRender w1)) by (apply scheduleRender_pending; tauto).
      destruct (sameSchedule_idle _ _ S2) as (Ji & Jp & Jq).
      assert (P : pending (step e w)) by tauto.
      destruct (scheduleRender_effect w1) as (_ & E2 & E3 & _).
      pose proof S1 as (_ & _ & A3 & A4). pose proof S2 as (_ & _ & B3 & B4).
      split; [now right|]. rewrite B3, E2, A3, B4, E3, A4, (pending_queued _ P).
      split.
      * destruct Hw as [Hi | Hp].
        -- rewrite (idle_queued _ Hi) in Hn. lia.
        -- rewrite (pending_queued _ Hp) in Hn. lia.
      * split; [exact Hz|]. intros Hi. exfalso. now apply (pending_not_idle _ P).
Qed.

Lemma schedulerInv_run (es : list event) :
  forall w, schedulerInv w -> schedulerInv (run es w).
Proof.
  induction es as [|e es IH]; intros w Hw; [exact Hw|].
  change (run (e :: es) w) with (run es (step e w)).
  now apply IH, schedulerInv_step.
Qed.

Lemma init_cases (p : persisted) (fonts fontsReady : bool) :
  let w0 := startWorld p fonts in
  let w1 := ensureFontLoaded (ToString (fontFamily (state w0))) w0 in
  initWorld p fonts fontsReady = w0
  \/ initWorld p fonts fontsReady = w1
  \/ initWorld p fonts fontsReady = scheduleRender w1.
Proof.
  unfold initWorld.
  destruct (applyThrows _); [now left|]. destruct fontsReady; [right; now left|].
  right. now right.
Qed.

Lemma init_renders (p : persisted) (fonts fontsReady : bool) :
  renders (initWorld p fonts fontsReady) = []
  /\ state (initWorld p fonts fontsReady) = loadState p.
Proof.
  destruct (ensureFontLoaded_same
              (ToString (fontFamily (state (startWorld p fonts))))
              (startWorld p fonts)) as ((_ & _ & S3 & _) & S5).
  destruct (init_cases p fonts fontsReady) as [-> | [-> | ->]].
  - now split.
  - now split.
  - match goal with |- context [scheduleRender ?v] =>
      destruct (scheduleRender_effect v) as (E1 & E2 & _) end.
    rewrite E1, E2. now split.
Qed.

Lemma schedulerInv_init (p : persisted) (fonts fontsReady : bool) :
  schedulerInv (initWorld p fonts fontsReady).
Proof.
  set (w0 := startWorld p fonts).
  set (w1 := ensureFontLoaded (ToString (fontFamily (state w0))) w0).
  destruct (ensureFontLoaded_same (ToString (fontFamily (state w0))) w0)
    as (S & _). fold w1 in S. pose proof S as (S1 & S2 & S3 & S4).
  assert (I0 : idle w0) by (split; reflexivity).
  assert (I1 : idle w1) by (split; [rewrite S1 | rewrite S2]; reflexivity).
  destruct (init_cases p fonts fontsReady) as [-> | [-> | ->]]; fold w0; fold w1.
  - split; [now left|]. rewrite (idle_queued _ I0). simpl.
    split; [lia|]. split; [constructor|]. intros _ H. lia.
  - split; [now left|]. rewrite S3, S4, (idle_queued _ I1). simpl.
    split; [lia|]. split; [constructor|]. intros _ H. lia.
  - pose proof (scheduleRender_pending w1 (or_introl I1)) as P.
    destruct (scheduleRender_effect w1) as (_ & E2 & E3 & _).
    split; [now right|]. rewrite E2, E3, S3, S4, (pending_queued _ P). simpl.
    split; [lia|]. split; [constructor|].
    intros Hi. exfalso. now apply (pending_not_idle _ P).
Qed.

Lemma renders_per_frame (es : list event) :
  forall w, schedulerInv w ->
    (List.length (renders (run es w)) <= List.length (renders w) + countFrames es)%nat.
Proof.
  induction es as [|e es IH]; intros w Hw; [simpl; lia|].
  change (run (e :: es) w) with (run es (step e w)).
  pose proof (IH _ (schedulerInv_step e w Hw)) as H.
  enough (List.length (renders (step e w)) + countFrames es
          <= List.length (renders w) + countFrames (e :: es))%nat by lia.
  unfold countFrames. simpl filter. destruct (isFrame e) eqn:Fe.
  - destruct e; try discriminate. simpl step. destruct Hw as ([Hi | Hp] & _).
    + destruct (animationFrame_idle w Hi) as (_ & A2 & _). rewrite A2. simpl. lia.
    + destruct (animationFrame_pending w Hp) as (A1 & _). rewrite A1, length_app.
      simpl. lia.
  - destruct (step_schedules_at_most_once e w Fe) as [S | (w1 & S1 & S2)].
    + destruct S as (_ & _ & Sn & _). rewrite Sn. lia.
    + destruct (scheduleRender_effect w1) as (_ & E2 & _).
      destruct S1 as (_ & _ & A3 & _). destruct S2 as (_ & _ & B3 & _).
      rewrite B3, E2, A3. lia.
Qed.

(** X15. In every world the program reaches, whatever listeners and
    frames ran, the scheduler is either idle or has exactly one frame
    requested: [rafId] is non-zero exactly when one callback is queued,
    and never more than one is. *)
Theorem X15_at_most_one_frame_requested
  (p : persisted) (fonts fontsReady : bool) (es : list event) :
  let w := run es (initWorld p fonts fontsReady) in
  (idle w \/ pending w)
  /\ (queued w <= 1)%nat
  /\ (rafId w <> 0%Z <-> queued w = 1%nat).
Proof.
  intros w.
  destruct (schedulerInv_run es _ (schedulerInv_init p fonts fontsReady))
    as (H & _). fold w in H.
  split; [exact H|]. destruct H as [Hi | Hp].
  - rewrite (idle_queued _ Hi). destruct Hi as [Hr _]. rewrite Hr.
    split; [lia|]. split; [congruence | discriminate].
  - rewrite (pending_queued _ Hp). destruct Hp as (h & Hr & _). rewrite Hr.
    split; [lia|]. split; [reflexivity | discriminate].
Qed.

(** X16. Rendering is bounded by what asked for it: in every reachable
    world there are no more renderings than frames have fired, nor more
    than [scheduleRender] was called, and every rendering started with
    [rafId] back at zero. *)
Theorem X16_renders_bounded
  (p : persisted) (fonts fontsReady : bool) (es : list event) :
  let w := run es (initWorld p fonts fontsReady) in
  (List.length (renders w) <= countFrames es)%nat
  /\ (List.length (renders w) <= scheduleCalls w)%nat
  /\ Forall (fun r => snd r = 0%Z) (renders w).
Proof.
  intros w.
  pose proof (schedulerInv_init p fonts fontsReady) as I0.
  destruct (schedulerInv_run es _ I0) as (_ & Hn & Hz & _). fold w in Hn, Hz.
  split; [|split; [lia | exact Hz]].
  pose proof (renders_per_frame es _ I0) as H. fold w in H.
  assert (R0 : renders (initWorld p fonts fontsReady) = [])
    by apply init_renders.
  rewrite R0 in H. simpl in H. exact H.
Qed.

(** X17. The preview never lags behind for good: in every reachable world
    where no frame is pending and a rendering was ever asked for, the last
    rendering is of the state as it is now. *)
Theorem X17_idle_shows_current_state
  (p : persisted) (fonts fontsReady : bool) (es : list event) :
  let w := run es (initWorld p fonts fontsReady) in
  idle w -> (0 < scheduleCalls w)%nat ->
  exists earlier, renders w = earlier ++ [(state w, 0%Z)].
Proof.
  intros w.
  destruct (schedulerInv_run es _ (schedulerInv_init p fonts fontsReady))
    as (_ & _ & _ & H). exact H.
Qed.

Lemma X17_idle_shows_current_state_witness :
  exists earlier,
    renders (run [Input garbledControls; Frame; Resize; Frame]
               (initWorld Absent true true))
    = earlier ++ [(fst (readControlsIntoState garbledControls DEFAULT_STATE), 0%Z)].
Proof.
  apply (X17_idle_shows_current_state Absent true true
           [Input garbledControls; Frame; Resize; Frame]).
  - split; reflexivity.
  - vm_compute. lia.
Defined.

Lemma X15_at_most_one_frame_requested_witness :
  queued (run [Resize; Input defaultControls; Resize] (initWorld Absent true true))
  = 1%nat.
Proof.
  apply (proj2 (proj2 (X15_at_most_one_frame_requested Absent true true
                         [Resize; Input defaultControls; Resize]))).
  vm_compute. discriminate.
Defined.

(** ** Font loads in every reachable world *)

Lemma map_fst_filter (f : Z -> bool) (l : list (Z * jsstring)) :
  map fst (filter (fun x => f (fst x)) l) = filter f (map fst l).
Proof.
  induction l as [|x l IH]; [reflexivity|]. simpl.
  destruct (f (fst x)); simpl; now rewrite IH.
Qed.

Lemma fontInv_ensure (family : jsstring) (w : World) :
  fontInv w -> fontInv (ensureFontLoaded family w).
Proof.
  intros (Hn & Hb & H0). unfold ensureFontLoaded.
  destruct (negb (fontsAvailable w)); [now repeat split|].
  unfold fontInv. cbn [fontLoads fontLoadToken].
  split; [|split; [|lia]].
  - rewrite map_app. simpl. apply NoDup_app.
    + exact Hn.
    + repeat constructor. intros [].
    + intros t Ht [E | []]. subst t.
      apply in_map_iff in Ht. destruct Ht as (l & E & Hl).
      rewrite Forall_forall in Hb. specialize (Hb l Hl). lia.
  - apply Forall_app. split.
    + eapply Forall_impl; [|exact Hb]. simpl. intros l Hl. lia.
    + repeat constructor; simpl; lia.
Qed.

Lemma fontInv_same (w w' : World) :
  fontLoadToken w' = fontLoadToken w -> fontLoads w' = fontLoads w ->
  fontInv w -> fontInv w'.
Proof. unfold fontInv. intros -> ->. tauto. Qed.

Lemma fontInv_scheduleRender (w : World) : fontInv w -> fontInv (scheduleRender w).
Proof.
  destruct (scheduleRender_effect w) as (_ & _ & _ & E1 & E2 & _).
  now apply fontInv_same.
Qed.

Lemma fontInv_settled (token : Z) (ok : bool) (w : World) :
  fontInv w -> fontInv (fontSettled token ok w).
Proof.
  intros Hw. unfold fontSettled.
  destruct (negb (existsb _ (fontLoads w))); [exact Hw|].
  assert (Hf : fontInv
    {| state := state w; rafId := rafId w; frameCallbacks := frameCallbacks w;
       nextFrameHandle := nextFrameHandle w; fontLoadToken := fontLoadToken w;
       fontsAvailable := fontsAvailable w;
       fontLoads := filter (fun l => negb (fst l =? token)%Z) (fontLoads w);
       renders := renders w; scheduleCalls := scheduleCalls w |}).
  { destruct Hw as (Hn & Hb & H0). unfold fontInv. cbn [fontLoads fontLoadToken].
    split; [|split; [|exact H0]].
    - rewrite (map_fst_filter (fun t => negb (t =? token)%Z)).
      now apply NoDup_filter.
    - apply Forall_forall. intros l Hl. apply filter_In in Hl.
      rewrite Forall_forall in Hb. now apply Hb. }
  destruct (token =? fontLoadToken w)%Z; [now apply fontInv_scheduleRender | exact Hf].
Qed.

Lemma fontInv_step (e : event) (w : World) : fontInv w -> fontInv (step e w).
Proof.
  intros Hw. destruct e; unfold step, onAnyInput.
  - now apply fontInv_scheduleRender.
  - now apply fontInv_scheduleRender.
  - now apply fontInv_scheduleRender.
  - now apply fontInv_ensure, fontInv_scheduleRender.
  - now apply fontInv_scheduleRender, fontInv_ensure.
  - now apply fontInv_scheduleRender.
  - now apply fontInv_settled.
  - destruct (quiet_step_keeps_fonts Frame w eq_refl) as (E1 & E2).
    now apply (fontInv_same w).
Qed.

Lemma fontInv_run (es : list event) :
  forall w, fontInv w -> fontInv (run es w).
Proof.
  induction es as [|e es IH]; intros w Hw; [exact Hw|].
  change (run (e :: es) w) with (run es (step e w)).
  now apply IH, fontInv_step.
Qed.

Lemma fontInv_init (p : persisted) (fonts fontsReady : bool) :
  fontInv (initWorld p fonts fontsReady).
Proof.
  assert (H0 : fontInv (startWorld p fonts))
    by (repeat split; simpl; try constructor; lia).
  destruct (init_cases p fonts fontsReady) as [-> | [-> | ->]].
  - exact H0.
  - now apply fontInv_ensure.
  - now apply fontInv_scheduleRender, fontInv_ensure.
Qed.

Lemma one_load_per_token (t : Z) (l : list (Z * jsstring)) :
  NoDup (map fst l) ->
  (List.length (filter (fun x => (fst x =? t)%Z) l) <= 1)%nat.
Proof.
  induction l as [|x l IH]; intros Hn; [simpl; lia|].
  simpl in Hn. inversion Hn as [|? ? Hx Hl]; subst. simpl.
  destruct (fst x =? t)%Z eqn:E; [|now apply IH].
  apply Z.eqb_eq in E. simpl.
  assert (F : filter (fun y => (fst y =? t)%Z) l = []).
  { destruct (filter (fun y => (fst y =? t)%Z) l) as [|y ys] eqn:Fy; [reflexivity|].
    exfalso. apply Hx.
    assert (Hy : In y (filter (fun y => (fst y =? t)%Z) l)) by (rewrite Fy; now left).
    apply filter_In in Hy. destruct Hy as (Hy & Ey). apply Z.eqb_eq in Ey.
    apply in_map_iff. exists y. split; [congruence | exact Hy]. }
  rewrite F. simpl. lia.
Qed.

(** X18. In every reachable world the loads in flight carry distinct
    tokens, all positive and none above the current token, so at most one
    load in flight is the one whose settling will ask for a rendering. *)
Theorem X18_one_current_load
  (p : persisted) (fonts fontsReady : bool) (es : list event) :
  let w := run es (initWorld p fonts fontsReady) in
  NoDup (map fst (fontLoads w))
  /\ Forall (fun l => (0 < fst l <= fontLoadToken w)%Z) (fontLoads w)
  /\ (List.length (currentLoads w) <= 1)%nat.
Proof.
  intros w.
  destruct (fontInv_run es _ (fontInv_init p fonts fontsReady)) as (Hn & Hb & _).
  fold w in Hn, Hb. split; [exact Hn|]. split; [exact Hb|].
  now apply one_load_per_token.
Qed.

Lemma settle_budget (token : Z) (ok : bool) (w : World) :
  let w' := fontSettled token ok w in
  (scheduleCalls w' + List.length (currentLoads w')
   <= scheduleCalls w + List.length (currentLoads w))%nat
  /\ renders w' = renders w /\ state w' = state w
  /\ fontLoadToken w' = fontLoadToken w.
Proof.
  intros w'. subst w'. unfold fontSettled.
  destruct (existsb (fun l => (fst l =? token)%Z) (fontLoads w)) eqn:Ex;
    simpl negb; cbv iota; [|repeat split; lia].
  destruct (token =? fontLoadToken w)%Z eqn:Et.
  - apply Z.eqb_eq in Et.
    match goal with |- context [scheduleRender ?v] =>
      destruct (scheduleRender_effect v) as (E1 & E2 & E3 & E4 & E5 & _);
      set (w' := scheduleRender v) in *
    end.
    assert (C' : currentLoads w' = []).
    { unfold currentLoads. rewrite E4, E5. cbn [fontLoads fontLoadToken].
      rewrite <- Et.
      destruct (filter _ (filter _ (fontLoads w))) as [|y ys] eqn:Fy; [reflexivity|].
      exfalso.
      assert (Hy : In y (filter (fun l => (fst l =? token)%Z)
                           (filter (fun l => negb (fst l =? token)%Z) (fontLoads w))))
        by (rewrite Fy; now left).
      apply filter_In in Hy. destruct Hy as (Hy & Ey).
      apply filter_In in Hy. destruct Hy as (_ & Ny).
      rewrite Ey in Ny. discriminate. }
    assert (C : (1 <= List.length (currentLoads w))%nat).
    { apply existsb_exists in Ex. destruct Ex as (l & Hl & El).
      assert (Hc : In l (currentLoads w)).
      { unfold currentLoads. apply filter_In. split; [exact Hl|].
        now rewrite <- Et. }
      destruct (currentLoads w); [contradiction | simpl; lia]. }
    rewrite C', E1, E2, E3, E4. cbn [scheduleCalls renders state fontLoadToken].
    simpl List.length. repeat split. lia.
  - cbn [scheduleCalls renders state fontLoadToken]. repeat split.
    enough (List.length (currentLoads
      {| state := state w; rafId := rafId w; frameCallbacks := frameCallbacks w;
         nextFrameHandle := nextFrameHandle w; fontLoadToken := fontLoadToken w;
         fontsAvailable := fontsAvailable w;
         fontLoads := filter (fun l => negb (fst l =? token)%Z) (fontLoads w);
         renders := renders w; scheduleCalls := scheduleCalls w |})
      <= List.length (currentLoads w))%nat by lia.
    unfold currentLoads. cbn [fontLoads fontLoadToken].
    generalize (fontLoads w). intros l.
    induction l as [|x l IH]; [simpl; lia|]. simpl.
    destruct (fst x =? token)%Z eqn:E1; simpl.
    + destruct (fst x =? fontLoadToken w)%Z; simpl; lia.
    + destruct (fst x =? fontLoadToken w)%Z; simpl; lia.
Qed.

Lemma settle_run_budget (es : list event) :
  Forall (fun e => isSettle e = true) es ->
  forall w,
    (scheduleCalls (run es w) + List.length (currentLoads (run es w))
     <= scheduleCalls w + List.length (currentLoads w))%nat
    /\ renders (run es w) = renders w /\ state (run es w) = state w.
Proof.
  induction 1 as [|e es He _ IH]; intros w;
    [change (run [] w) with w; repeat split; lia|].
  change (run (e :: es) w) with (run es (step e w)).
  destruct e; try discriminate. simpl step.
  destruct (settle_budget token ok w) as (B1 & B2 & B3 & _).
  destruct (IH (fontSettled token ok w)) as (I1 & I2 & I3).
  repeat split; [lia | congruence | congruence].
Qed.

(** X19. However many font loads are in flight and in whatever order
    they settle, successfully or not, their settling together calls
    [scheduleRender] at most once, and changes neither the state nor what
    has been rendered. *)
Theorem X19_settlements_schedule_at_most_once
  (p : persisted) (fonts fontsReady : bool) (es settles : list event) :
  Forall (fun e => isSettle e = true) settles ->
  let w := run es (initWorld p fonts fontsReady) in
  (scheduleCalls (run settles w) <= S (scheduleCalls w))%nat
  /\ renders (run settles w) = renders w
  /\ state (run settles w) = state w.
Proof.
  intros Hs w.
  destruct (settle_run_budget settles Hs w) as (B & R & St).
  destruct (fontInv_run es _ (fontInv_init p fonts fontsReady)) as (Hn & _).
  fold w in Hn.
  pose proof (one_load_per_token (fontLoadToken w) (fontLoads w) Hn) as C.
  fold (currentLoads w) in C.
  split; [lia | now split].
Qed.

Lemma X19_settlements_schedule_at_most_once_witness :
  let w := run [FontSelected defaultControls; Reset; Frame] (initWorld Absent true true) in
  (scheduleCalls (run [FontSettled 3 true; FontSettled 1 false; FontSettled 2 true] w)
   <= S (scheduleCalls w))%nat.
Proof.
  intros w.
  apply (X19_settlements_schedule_at_most_once Absent true true
           [FontSelected defaultControls; Reset; Frame]
           [FontSettled 3 true; FontSettled 1 false; FontSettled 2 true]).
  repeat constructor.
Defined.

(** ** The theme *)

Lemma str_eqb_spec (a b : jsstring) : str_eqb a b = true <-> a = b.
Proof.
  revert b. induction a as [|x a IH]; intros [|y b]; simpl;
    try (split; [discriminate | discriminate]); [tauto|].
  rewrite andb_true_iff, N.eqb_eq, IH. split.
  - intros [-> ->]. reflexivity.
  - intros [= -> ->]. now split.
Qed.

Lemma str_eqb_refl (a : jsstring) : str_eqb a a = true.
Proof. now apply str_eqb_spec. Qed.

Lemma str_eqb_neq (a b : jsstring) : a <> b -> str_eqb a b = false.
Proof.
  intros H. destruct (str_eqb a b) eqn:E; [|reflexivity].
  apply str_eqb_spec in E. contradiction.
Qed.

Lemma sanitised_mode_valid (v : jsstring) :
  isThemeMode (if isThemeMode v then v else js "system") = true.
Proof. destruct (isThemeMode v) eqn:E; [exact E | reflexivity]. Qed.

(** X20. [loadTheme] always answers one of [light], [dark] and [system]:
    it is [system] when the store cannot be read, holds no theme, or
    holds anything else than the three modes. *)
Theorem X20_loadTheme_is_a_mode (st : Storage) :
  isThemeMode (loadTheme st) = true
  /\ (readFails st = true -> loadTheme st = js "system")
  /\ (lookupItem THEME_KEY (items st) = None -> loadTheme st = js "system")
  /\ (forall v, lookupItem THEME_KEY (items st) = Some v ->
                isThemeMode v = false -> loadTheme st = js "system").
Proof.
  unfold loadTheme, getItem. split; [|split; [|split]].
  - destruct (readFails st); [reflexivity|].
    destruct (lookupItem THEME_KEY (items st)) as [v|]; [|reflexivity].
    apply sanitised_mode_valid.
  - intros ->. reflexivity.
  - intros ->. now destruct (readFails st).
  - intros v -> Hv. destruct (readFails st); [reflexivity|]. now rewrite Hv.
Qed.

Lemma X20_loadTheme_is_a_mode_witness :
  loadTheme {| items := [(THEME_KEY, js "sepia")]; readFails := false;
               writeFails := false |} = js "system".
Proof.
  destruct (X20_loadTheme_is_a_mode
              {| items := [(THEME_KEY, js "sepia")]; readFails := false;
                 writeFails := false |}) as (_ & _ & _ & H).
  apply (H (js "sepia")); reflexivity.
Defined.

Lemma lookup_other_key (k : jsstring) (l : list (jsstring * jsstring)) :
  k <> THEME_KEY ->
  lookupItem k (filter (fun kv => negb (str_eqb THEME_KEY (fst kv))) l)
  = lookupItem k l.
Proof.
  intros Hk. induction l as [|[k' v] l IH]; [reflexivity|].
  cbn [filter fst]. destruct (str_eqb THEME_KEY k') eqn:E; cbn [negb lookupItem].
  - apply str_eqb_spec in E. subst k'. now rewrite (str_eqb_neq _ _ Hk).
  - now rewrite IH.
Qed.

Lemma saveTheme_flags (mode : jsstring) (st : Storage) :
  readFails (saveTheme mode st) = readFails st
  /\ writeFails (saveTheme mode st) = writeFails st.
Proof.
  unfold saveTheme, setItem.
  destruct (writeFails st) eqn:E; simpl; split; auto.
Qed.

Lemma loadTheme_after_save (mode : jsstring) (st : Storage) :
  readFails st = false -> writeFails st = false ->
  loadTheme (saveTheme mode st) = if isThemeMode mode then mode else js "system".
Proof.
  intros Hr Hw. unfold loadTheme, saveTheme, setItem, getItem.
  rewrite Hw. cbn [readFails items]. rewrite Hr.
  cbn [lookupItem]. now rewrite str_eqb_refl.
Qed.

(** X21. The theme survives the store: with a store that reads and writes,
    a saved mode is loaded back, as itself when it is one of the three
    modes and as [system] otherwise. When writing fails the store is left
    as it was. Saving the theme never changes what is stored under another
    key, the saved preferences in particular. *)
Theorem X21_theme_round_trip (mode : jsstring) (st : Storage) :
  (readFails st = false -> writeFails st = false ->
   loadTheme (saveTheme mode st) = if isThemeMode mode then mode else js "system")
  /\ (writeFails st = true -> saveTheme mode st = st)
  /\ (forall k, k <> THEME_KEY -> getItem k (saveTheme mode st) = getItem k st)
  /\ getItem STORAGE_KEY (saveTheme mode st) = getItem STORAGE_KEY st.
Proof.
  assert (K : forall k, k <> THEME_KEY ->
                        getItem k (saveTheme mode st) = getItem k st).
  { intros k Hk. unfold saveTheme, setItem, getItem.
    destruct (writeFails st); [reflexivity|]. cbn [readFails items].
    destruct (readFails st); [reflexivity|]. f_equal. cbn [lookupItem].
    rewrite (str_eqb_neq _ _ Hk). now apply lookup_other_key. }
  split; [apply loadTheme_after_save|]. split; [|split; [exact K|]].
  - intros Hw. unfold saveTheme, setItem. now rewrite Hw.
  - apply K. discriminate.
Qed.

Lemma X21_theme_round_trip_witness :
  loadTheme (saveTheme (js "dark")
               {| items := [(STORAGE_KEY, js "{}"); (THEME_KEY, js "light")];
                  readFails := false; writeFails := false |}) = js "dark".
Proof.
  apply (proj1 (X21_theme_round_trip (js "dark")
                  {| items := [(STORAGE_KEY, js "{}"); (THEME_KEY, js "light")];
                     readFails := false; writeFails := false |}));
    reflexivity.
Defined.

Lemma applyTheme_sanitised (v : jsstring) (a1 a2 : option jsstring) :
  applyTheme (if isThemeMode v then v else js "system") a1 = applyTheme v a2.
Proof.
  unfold applyTheme, isThemeMode.
  destruct (str_eqb v (js "light")) eqn:E1;
    destruct (str_eqb v (js "dark")) eqn:E2;
    destruct (str_eqb v (js "system")) eqn:E3;
    cbn [orb]; rewrite ?E1, ?E2; reflexivity.
Qed.

Lemma theme_step_inv (e : themeEvent) (t : ThemeWorld) :
  dataTheme t = applyTheme (themeMode t) None ->
  dataTheme (themeStep e t) = applyTheme (themeMode (themeStep e t)) None
  /\ readFails (store (themeStep e t)) = readFails (store t)
  /\ writeFails (store (themeStep e t)) = writeFails (store t)
  /\ (readFails (store t) = false -> writeFails (store t) = false ->
      applyTheme (loadTheme (store t)) None = applyTheme (themeMode t) None ->
      applyTheme (loadTheme (store (themeStep e t))) None
      = applyTheme (themeMode (themeStep e t)) None).
Proof.
  intros H. destruct e as [v|]; simpl.
  - destruct (saveTheme_flags v (store t)) as (F1 & F2).
    repeat split; try assumption.
    intros Hr Hw _. rewrite (loadTheme_after_save v _ Hr Hw).
    apply applyTheme_sanitised.
  - unfold onSystemSchemeChange.
    destruct (str_eqb (themeMode t) (js "system")) eqn:E; simpl.
    + apply str_eqb_spec in E. rewrite E. repeat split. now rewrite <- E.
    + repeat split; auto.
Qed.

(** X22. Whatever is selected and however the system scheme changes, the
    [data-theme] attribute follows the current mode: [light] or [dark]
    when that is the mode, and no attribute otherwise (an unknown mode
    behaves as [system]). With a store that reads and writes, loading the
    page again shows the same theme. *)
Theorem X22_attribute_follows_mode
  (a : option jsstring) (st : Storage) (es : list themeEvent) :
  let t := themeRun es (themeInit a st) in
  dataTheme t = applyTheme (themeMode t) None
  /\ (dataTheme t = None \/ dataTheme t = Some (js "light")
      \/ dataTheme t = Some (js "dark"))
  /\ (readFails st = false -> writeFails st = false ->
      forall a', dataTheme (themeInit a' (store t)) = dataTheme t).
Proof.
  intros t.
  assert (G : forall es t0,
    dataTheme t0 = applyTheme (themeMode t0) None ->
    let t1 := themeRun es t0 in
    dataTheme t1 = applyTheme (themeMode t1) None
    /\ readFails (store t1) = readFails (store t0)
    /\ writeFails (store t1) = writeFails (store t0)
    /\ (readFails (store t0) = false -> writeFails (store t0) = false ->
        applyTheme (loadTheme (store t0)) None = applyTheme (themeMode t0) None ->
        applyTheme (loadTheme (store t1)) None = applyTheme (themeMode t1) None)).
  { clear. induction es as [|e es IH]; intros t0 H0; [now repeat split|].
    change (themeRun (e :: es) t0) with (themeRun es (themeStep e t0)).
    destruct (theme_step_inv e t0 H0) as (S1 & S2 & S3 & S4).
    destruct (IH _ S1) as (I1 & I2 & I3 & I4). cbv zeta.
    split; [exact I1|]. split; [congruence|]. split; [congruence|].
    intros Hr Hw Hl. apply I4; [congruence | congruence | now apply S4]. }
  destruct (G es (themeInit a st) eq_refl) as (G1 & _ & _ & G4). fold t in G1, G4.
  split; [exact G1|]. split.
  - rewrite G1. unfold applyTheme.
    destruct (str_eqb (themeMode t) (js "light")); [now right; left|].
    destruct (str_eqb (themeMode t) (js "dark")); [now right; right | now left].
  - intros Hr Hw a'. rewrite G1. unfold themeInit. cbn [dataTheme].
    rewrite <- (G4 Hr Hw eq_refl). reflexivity.
Qed.

Lemma X22_attribute_follows_mode_witness :
  dataTheme
    (themeInit None
       (store (themeRun [ThemeSelected (js "dark"); SystemSchemeChanged;
                         ThemeSelected (js "sepia")]
                 (themeInit None {| items := []; readFails := false;
                                    writeFails := false |}))))
  = None.
Proof.
  destruct (X22_attribute_follows_mode None
              {| items := []; readFails := false; writeFails := false |}
              [ThemeSelected (js "dark"); SystemSchemeChanged;
               ThemeSelected (js "sepia")]) as (_ & _ & H).
  rewrite (H eq_refl eq_refl None). reflexivity.
Defined.

(** ** The state in every reachable world *)

Lemma hex_listeners_read (d : Controls) (s : State) :
  (exists d', fst (onTextColorHexInput d s) = fst (readControlsIntoState d' s))
  /\ (exists d', fst (onBgColorHexInput d s) = fst (readControlsIntoState d' s)).
Proof.
  split; eexists; reflexivity.
Qed.

Lemma frames_keep_range (l : list positive) :
  forall v,
    numericInRange (state v) ->
    Forall (fun r => numericInRange (fst r)) (renders v) ->
    let v' := fold_left (fun w' (_ : positive) => frameCallback w') l v in
    numericInRange (state v')
    /\ Forall (fun r => numericInRange (fst r)) (renders v').
Proof.
  induction l as [|x l IH]; intros v Hs Hr; [now split|].
  simpl fold_left. apply IH.
  - exact Hs.
  - unfold frameCallback, renderAll. cbn [renders state].
    apply Forall_app. split; [exact Hr | now constructor].
Qed.

Lemma range_kept_by (w w' : World) :
  state w' = state w -> renders w' = renders w ->
  numericInRange (state w)
  /\ Forall (fun r => numericInRange (fst r)) (renders w) ->
  numericInRange (state w')
  /\ Forall (fun r => numericInRange (fst r)) (renders w').
Proof. intros -> ->. tauto. Qed.

Lemma range_scheduleRender (s : State) (w : World) :
  numericInRange s ->
  Forall (fun r => numericInRange (fst r)) (renders w) ->
  numericInRange (state (scheduleRender (with_state s w)))
  /\ Forall (fun r => numericInRange (fst r)) (renders (scheduleRender (with_state s w))).
Proof.
  intros Hs Hr.
  destruct (scheduleRender_effect (with_state s w)) as (E1 & E2 & _).
  rewrite E1, E2. now split.
Qed.

Lemma range_step (e : event) (w : World) :
  numericInRange (state w)
  /\ Forall (fun r => numericInRange (fst r)) (renders w) ->
  numericInRange (state (step e w))
  /\ Forall (fun r => numericInRange (fst r)) (renders (step e w)).
Proof.
  intros (Hs & Hr). destruct e; unfold step, onAnyInput.
  - apply range_scheduleRender; [apply readControls_numericInRange | exact Hr].
  - destruct (hex_listeners_read d (state w)) as ((d' & ->) & _).
    apply range_scheduleRender; [apply readControls_numericInRange | exact Hr].
  - destruct (hex_listeners_read d (state w)) as (_ & (d' & ->)).
    apply range_scheduleRender; [apply readControls_numericInRange | exact Hr].
  - match goal with |- context [ensureFontLoaded ?f ?v] =>
      destruct (ensureFontLoaded_same f v) as ((_ & _ & S3 & _) & S5) end.
    rewrite S3, S5.
    apply range_scheduleRender; [apply readControls_numericInRange | exact Hr].
  - match goal with |- context [scheduleRender ?v] =>
      destruct (scheduleRender_effect v) as (E1 & E2 & _) end.
    rewrite E1, E2.
    match goal with |- context [ensureFontLoaded ?f ?v] =>
      destruct (ensureFontLoaded_same f v) as ((_ & _ & S3 & _) & S5) end.
    rewrite S3, S5. split; [apply DEFAULT_STATE_inDomain | exact Hr].
  - destruct (scheduleRender_effect w) as (E1 & E2 & _). rewrite E1, E2. now split.
  - destruct (settle_budget token ok w) as (_ & B2 & B3 & _).
    cbv zeta in B2, B3. rewrite B2, B3. now split.
  - unfold animationFrame. now apply frames_keep_range.
Qed.

(** X6. In every world the program reaches, from whatever the store held
    at start, the numeric fields of the state are within their ranges
    ([fontSize] in 8..128, [lineHeight] in 0.8..1.8, [bgAlpha] in 0..1,
    the offsets in -64..64, [padding] in 0..24), and so were those of
    every state that was rendered. *)
Theorem X6_state_always_in_range
  (p : persisted) (fonts fontsReady : bool) (es : list event) :
  let w := run es (initWorld p fonts fontsReady) in
  numericInRange (state w)
  /\ Forall (fun r => numericInRange (fst r)) (renders w).
Proof.
  intros w. subst w.
  assert (I0 : numericInRange (state (initWorld p fonts fontsReady))
               /\ Forall (fun r => numericInRange (fst r))
                    (renders (initWorld p fonts fontsReady))).
  { destruct (init_renders p fonts fontsReady) as (-> & ->).
    split; [apply loadState_numericInRange | constructor]. }
  revert I0. generalize (initWorld p fonts fontsReady).
  induction es as [|e es IH]; intros w0 H0; [exact H0|].
  change (run (e :: es) w0) with (run es (step e w0)).
  now apply IH, range_step.
Qed.
